(** * pymobiledevice3.bonjour: multi-interface mDNS discovery

    A shallow embedding of [pymobiledevice3/bonjour.py] and the properties
    of its discovery engine.  Python objects become records, the asyncio
    event loop becomes explicit state passing over a list of sessions, and
    everything the network decides (when a callback fires, when a resolve
    request returns, whether a library call raises) is an input of the
    model. *)

From stdpp Require Import base list strings gmap numbers pretty sorting.
From Stdlib Require Import Strings.Byte Strings.Ascii.
From Stdlib Require QArith HexadecimalString.

(** ** Python values *)

(** [bytes] objects are sequences of octets; they serve as dictionary keys. *)
Abbreviation bytes := (list byte).

#[global] Instance byte_eq_dec : EqDecision byte := Byte.byte_eq_dec.
#[global] Instance byte_countable : Countable byte :=
  inj_countable Byte.to_N Byte.of_N Byte.of_to_N.

(** Durations are Python numbers (seconds). *)
Abbreviation duration := QArith_base.Q.

(** Exceptions that can travel through the module. *)
Inductive exn :=
| CancelledError
| IndexError
| LibraryError (name : string).

#[global] Instance exn_eq_dec : EqDecision exn.
Proof. solve_decision. Defined.

(** [c in s] for a one-character string [c]. *)
Fixpoint contains (c : ascii) (s : string) : bool :=
  match s with
  | EmptyString => false
  | String x s' => if decide (x = c) then true else contains c s'
  end.

(** [s.split(sep)] for a one-character separator: every occurrence cuts. *)
Fixpoint split (sep : ascii) (s : string) : list string :=
  match s with
  | EmptyString => [EmptyString]
  | String x s' =>
      if decide (x = sep) then EmptyString :: split sep s'
      else match split sep s' with
           | w :: ws => String x w :: ws
           | [] => [String x EmptyString]
           end
  end.

(** [s] ends in [suffix]. *)
Definition ends_with (suffix s : string) : Prop := ∃ p, s = p +:+ suffix.

(** ** Collaborators: socket, zeroconf *)

(** [ipaddress.IPv4Address.packed] is four octets, [IPv6Address.packed]
    sixteen. *)
Record IPv4Address := { octet1 : byte; octet2 : byte; octet3 : byte; octet4 : byte }.
Record IPv6Address := { packed : bytes }.

(** [inet_ntop(AF_INET, packed)]: dotted decimal. *)
Definition inet_ntop_AF_INET (a : IPv4Address) : string :=
  pretty (Byte.to_N (octet1 a)) +:+ "." +:+ pretty (Byte.to_N (octet2 a)) +:+ "."
  +:+ pretty (Byte.to_N (octet3 a)) +:+ "." +:+ pretty (Byte.to_N (octet4 a)).

(** [inet_ntop(AF_INET6, packed)] belongs to the C library; the development
    is parametric in it. *)
Class Socket := inet_ntop_AF_INET6 : IPv6Address → string.

(** [AsyncServiceInfo(service_type, name)] belongs to zeroconf: its
    constructor checks the name against the type and raises when they do
    not fit (BadTypeInNameException).  The development is parametric in
    what the constructor raises, if anything. *)
Class Zeroconf := AsyncServiceInfo_init : string → string → option exn.

Inductive ServiceStateChange := Added | Removed | Updated.

(** What [AsyncServiceInfo] holds once [async_request] has returned:
    [ip_addresses_by_version(V4Only)], [ip_addresses_by_version(V6Only)],
    [properties] and [port]. *)
Record ServiceInfo := {
  ip_addresses_V4Only : list IPv4Address;
  ip_addresses_V6Only : list IPv6Address;
  info_properties : gmap bytes bytes;
  info_port : option Z
}.

#[global] Instance IPv4Address_eq_dec : EqDecision IPv4Address.
Proof. solve_decision. Defined.
#[global] Instance IPv6Address_eq_dec : EqDecision IPv6Address.
Proof. solve_decision. Defined.
#[global] Instance ServiceInfo_eq_dec : EqDecision ServiceInfo.
Proof. solve_decision. Defined.

(** ** The module's data *)

Definition REMOTEPAIRING_SERVICE_NAME : string := "_remotepairing-manual-pairing._tcp.local.".
Definition MOBDEV2_SERVICE_NAME : string := "_apple-mobdev2._tcp.local.".
Definition REMOTED_SERVICE_NAME : string := "_remoted._tcp.local.".

Definition DEFAULT_BONJOUR_TIMEOUT (sys_platform : string) : duration :=
  if decide (sys_platform ≠ "win32") then QArith_base.Qmake 1 1 else QArith_base.Qmake 2 1.

Record BonjourAnswer := {
  properties : gmap bytes bytes;
  ips : list string;
  port : option Z
}.

(** The dataclass [__eq__] compares the three fields; on this
    representation that is Leibniz equality, and it is decidable. *)
#[global] Instance BonjourAnswer_eq_dec : EqDecision BonjourAnswer.
Proof. solve_decision. Defined.

(** The tuple the callback puts on the queue; the zeroconf handle is
    represented by the interface its client is bound to. *)
Record Notification := {
  n_zeroconf : string;
  n_service_type : string;
  n_name : string;
  n_state_change : ServiceStateChange
}.

(** The state of [querying_task], the [asyncio.Task] running
    [query_addresses]. *)
Inductive Task :=
| AwaitingGet                        (* created, or parked in [await self.queue.get()] *)
| AwaitingRequest (n : Notification) (* parked in [await service_info.async_request(...)] *)
| Returned                           (* ran to the end *)
| Cancelled                          (* ended by CancelledError *)
| Raised (e : exn).                  (* ended by another exception *)

Record BonjourListener := {
  self_properties : gmap bytes bytes;
  self_ip : string;
  self_port : option Z;
  self_addresses : list string;
  self_queue : list Notification;
  self_querying_task : Task
}.

(** [BonjourListener.__init__] *)
Definition BonjourListener_init (ip : string) : BonjourListener :=
  {| self_properties := ∅; self_ip := ip; self_port := None;
     self_addresses := []; self_queue := []; self_querying_task := AwaitingGet |}.

(** [async_on_service_state_change]: [self.queue.put_nowait(...)] *)
Definition async_on_service_state_change (self : BonjourListener) (n : Notification)
  : BonjourListener :=
  {| self_properties := self_properties self; self_ip := self_ip self;
     self_port := self_port self; self_addresses := self_addresses self;
     self_queue := self_queue self ++ [n];
     self_querying_task := self_querying_task self |}.

Section query_addresses.
Context `{Socket}.

(** The part of [query_addresses] after [async_request] has returned
    (lines 42-50): build the two literal lists and store the three
    fields.  [self.ip.split('%')[1]] raises IndexError when the split has
    a single piece. *)
Definition query_addresses_store (self : BonjourListener) (service_info : ServiceInfo)
  : exn + BonjourListener :=
  let ipv4 := inet_ntop_AF_INET <$> ip_addresses_V4Only service_info in
  let ipv6 :=
    if contains "%" (self_ip self) then
      match split "%" (self_ip self) !! 1 with
      | Some zone =>
          inr ((λ address, inet_ntop_AF_INET6 address +:+ "%" +:+ zone)
                 <$> ip_addresses_V6Only service_info)
      | None =>
          (* the subscript is evaluated once per address *)
          match ip_addresses_V6Only service_info with
          | [] => inr []
          | _ :: _ => inl IndexError
          end
      end
    else inr [] in
  match ipv6 with
  | inl e => inl e
  | inr ipv6 =>
      inr {| self_properties := info_properties service_info;
             self_ip := self_ip self;
             self_port := info_port service_info;
             self_addresses := ipv4 ++ ipv6;
             self_queue := self_queue self;
             self_querying_task := Returned |}
  end.
End query_addresses.

(** ** Interface enumeration ([ifaddr]) *)

Module ifaddr.
(** [IP.ip] is a [str] for an IPv4 address and the tuple
    [(address, flowinfo, scope_id)] for an IPv6 one. *)
Inductive ip_value :=
| ip_str (address : string)
| ip_tuple (address : string) (flowinfo scope_id : Z).

#[global] Instance ip_value_eq_dec : EqDecision ip_value.
Proof. solve_decision. Defined.

Record IP := { ip : ip_value }.

Definition is_IPv4 (x : IP) : bool :=
  match ip x with ip_str _ => true | ip_tuple _ _ _ => false end.
Definition is_IPv6 (x : IP) : bool :=
  match ip x with ip_str _ => false | ip_tuple _ _ _ => true end.

Record Adapter := { nice_name : string; ips : list IP }.
End ifaddr.

(** The host the module runs on: [sys.platform] and what [get_adapters()]
    returns. *)
Record Host := { sys_platform : string; get_adapters : list ifaddr.Adapter }.

(** The win32 branch of [get_ipv6_ips] (line 71): the first address of every
    adapter, when it is an IPv6 one, with its scope id as zone.
    [adapter.ips[0]] raises IndexError on an adapter without addresses. *)
Fixpoint get_ipv6_ips_win32 (adapters : list ifaddr.Adapter) : exn + list string :=
  match adapters with
  | [] => inr []
  | adapter :: rest =>
      match ifaddr.ips adapter !! 0 with
      | None => inl IndexError
      | Some first =>
          match get_ipv6_ips_win32 rest with
          | inl e => inl e
          | inr tail =>
              if ifaddr.is_IPv6 first then
                match ifaddr.ip first with
                | ifaddr.ip_tuple address _ scope_id =>
                    inr ((address +:+ "%" +:+ pretty scope_id) :: tail)
                | ifaddr.ip_str _ => inr tail      (* not reached *)
                end
              else inr tail
          end
      end
  end.

(** The inner loop of the other branch (lines 74-80), for one adapter. *)
Definition get_ipv6_ips_adapter (adapter : ifaddr.Adapter) : list string :=
  x ← ifaddr.ips adapter;
  if negb (ifaddr.is_IPv6 x) then []                       (* continue *)
  else match ifaddr.ip x with
       | ifaddr.ip_tuple address _ _ =>
           if decide (address ∈ ["::1"; "fe80::1"]) then []   (* skip localhost *)
           else [address +:+ "%" +:+ ifaddr.nice_name adapter]
       | ifaddr.ip_str _ => []                             (* not reached *)
       end.

Definition get_ipv6_ips (host : Host) : exn + list string :=
  if decide (sys_platform host = "win32") then get_ipv6_ips_win32 (get_adapters host)
  else inr (get_adapters host ≫= get_ipv6_ips_adapter).

(** The address list [browse_ipv4] builds (lines 113-120). *)
Definition browse_ipv4_ips (host : Host) : list string :=
  adapter ← get_adapters host;
  x ← ifaddr.ips adapter;
  if decide (ifaddr.ip x = ifaddr.ip_str "127.0.0.1") then []   (* continue *)
  else if negb (ifaddr.is_IPv4 x) then []                       (* continue *)
  else match ifaddr.ip x with
       | ifaddr.ip_str address => [address]
       | ifaddr.ip_tuple _ _ _ => []                            (* not reached *)
       end.

(** The address part of an [address%zone] literal. *)
Definition address_part (literal : string) : string :=
  default EmptyString (split "%" literal !! 0).

(** ** Sessions *)

Record AsyncZeroconf := { interfaces : list string; zc_closed : bool }.
Record AsyncServiceBrowser := { types : list string; browser_cancelled : bool }.

Record BonjourQuery := {
  zc : AsyncZeroconf;
  service_browser : AsyncServiceBrowser;
  listener : BonjourListener
}.

Definition query_bonjour (service_name ip : string) : BonjourQuery :=
  {| zc := {| interfaces := [ip]; zc_closed := false |};
     service_browser := {| types := [service_name]; browser_cancelled := false |};
     listener := BonjourListener_init ip |}.

(** [BonjourAnswer(listener.properties, listener.addresses, listener.port)] *)
Definition answer_of (l : BonjourListener) : BonjourAnswer :=
  {| properties := self_properties l; ips := self_addresses l; port := self_port l |}.

(** ** The event loop *)

(** What the run of a session is observed to do, in the order it does it. *)
Inductive action :=
| Created (service_name ip : string)   (* [query_bonjour] *)
| Notified (n : Notification)          (* the callback put [n] on the queue *)
| Dequeued (n : Notification)          (* [queue.get()] returned [n] *)
| Requested (service_type name : string) (* [async_request] was started *)
| Populated (service_info : ServiceInfo) (* the three fields were stored from it *)
| TaskRaised (e : exn)                 (* the task ended by an exception *)
| Constructed (answer : BonjourAnswer) (* line 98 *)
| Appended (answer : BonjourAnswer)    (* line 101 *)
| TaskCancel                           (* [querying_task.cancel()] *)
| TaskJoined                           (* [await querying_task] is over *)
| BrowserCancelled                     (* [async_cancel()] returned *)
| ClientClosed                         (* [async_close()] returned *)
| Propagated (e : exn).                (* an exception left [browse] *)

Inductive event :=
| Ev (k : nat) (a : action)
| Slept (timeout : duration).

#[global] Instance ServiceStateChange_eq_dec : EqDecision ServiceStateChange.
Proof. solve_decision. Defined.
#[global] Instance Notification_eq_dec : EqDecision Notification.
Proof. solve_decision. Defined.
#[global] Instance action_eq_dec : EqDecision action.
Proof. solve_decision. Defined.
#[global] Instance duration_eq_dec : EqDecision duration.
Proof. solve_decision. Defined.
#[global] Instance event_eq_dec : EqDecision event.
Proof. solve_decision. Defined.

(** What the loop can run while a coroutine of [browse] is suspended. *)
Inductive incoming :=
| Callback (k : nat) (n : Notification)       (* zeroconf calls the handler of session [k] *)
| Wakeup (k : nat)                            (* task [k] is resumed from [queue.get()] *)
| RequestReturns (k : nat) (service_info : ServiceInfo)
| RequestRaises (k : nat) (e : exn).

Definition session_of (i : incoming) : nat :=
  match i with
  | Callback k _ | Wakeup k | RequestReturns k _ | RequestRaises k _ => k
  end.

Definition set_task (self : BonjourListener) (t : Task) : BonjourListener :=
  {| self_properties := self_properties self; self_ip := self_ip self;
     self_port := self_port self; self_addresses := self_addresses self;
     self_queue := self_queue self; self_querying_task := t |}.

Section listener_steps.
Context `{Socket} `{Zeroconf}.

(** Lines 39-41: [queue.get()] hands over the oldest notification, and
    [AsyncServiceInfo(service_type, name)] is built from it.  When the
    constructor raises, nothing in [query_addresses] catches it and the
    task ends there, before any request; otherwise the resolve request is
    started. *)
Definition query_addresses_get (self : BonjourListener) : BonjourListener * list action :=
  match self_querying_task self, self_queue self with
  | AwaitingGet, n :: queue =>
      match AsyncServiceInfo_init (n_service_type n) (n_name n) with
      | Some e =>
          ({| self_properties := self_properties self; self_ip := self_ip self;
              self_port := self_port self; self_addresses := self_addresses self;
              self_queue := queue;
              self_querying_task :=
                if decide (e = CancelledError) then Cancelled else Raised e |},
           [Dequeued n; TaskRaised e])
      | None =>
          ({| self_properties := self_properties self; self_ip := self_ip self;
              self_port := self_port self; self_addresses := self_addresses self;
              self_queue := queue; self_querying_task := AwaitingRequest n |},
           [Dequeued n; Requested (n_service_type n) (n_name n)])
      end
  | _, _ => (self, [])
  end.

(** [async_request] returns: lines 42-50 run, the task ends. *)
Definition query_addresses_returns (self : BonjourListener) (service_info : ServiceInfo)
  : BonjourListener * list action :=
  match self_querying_task self with
  | AwaitingRequest _ =>
      match query_addresses_store self service_info with
      | inr self' => (self', [Populated service_info])
      | inl e => (set_task self (Raised e), [TaskRaised e])
      end
  | _ => (self, [])
  end.
End listener_steps.

(** [async_request] raises: nothing in [query_addresses] catches it. *)
Definition query_addresses_raises (self : BonjourListener) (e : exn)
  : BonjourListener * list action :=
  match self_querying_task self with
  | AwaitingRequest _ =>
      (set_task self (if decide (e = CancelledError) then Cancelled else Raised e),
       [TaskRaised e])
  | _ => (self, [])
  end.

(** [BonjourListener.close] (lines 52-57), by the state of the task when it
    is called.  [cancel()] on a parked task makes it end by CancelledError
    the next time the loop runs it, and [await] suspends until then; on a
    finished task [cancel()] does nothing and [await] hands over its
    outcome at once.  [except asyncio.CancelledError: pass] discards one
    exception only. *)
Record closing := {
  closed_self : BonjourListener;
  suspends : bool;
  raises : option exn
}.

Definition close (self : BonjourListener) : closing :=
  match self_querying_task self with
  | AwaitingGet | AwaitingRequest _ =>
      {| closed_self := set_task self Cancelled; suspends := true; raises := None |}
  | Returned => {| closed_self := self; suspends := false; raises := None |}
  | Cancelled => {| closed_self := self; suspends := false; raises := None |}
  | Raised e =>
      {| closed_self := self; suspends := false;
         raises := if decide (e = CancelledError) then None else Some e |}
  end.

(** The sessions of one [browse] call and what they have done so far
    (oldest event first). *)
Record world := { bonjour_queries : list BonjourQuery; log : list event }.

Definition record (k : nat) (acts : list action) (w : world) : world :=
  {| bonjour_queries := bonjour_queries w; log := log w ++ (Ev k <$> acts) |}.

Definition set_listener (q : BonjourQuery) (l : BonjourListener) : BonjourQuery :=
  {| zc := zc q; service_browser := service_browser q; listener := l |}.

(** Run a step of listener [k]. *)
Definition on_listener (k : nat) (f : BonjourListener → BonjourListener * list action)
    (w : world) : world :=
  match bonjour_queries w !! k with
  | None => w
  | Some q =>
      let '(l, acts) := f (listener q) in
      record k acts
        {| bonjour_queries := <[k := set_listener q l]> (bonjour_queries w);
           log := log w |}
  end.

Definition on_query (k : nat) (f : BonjourQuery → BonjourQuery) (w : world) : world :=
  {| bonjour_queries := alter f k (bonjour_queries w); log := log w |}.

Definition cancel_browser (q : BonjourQuery) : BonjourQuery :=
  {| zc := zc q;
     service_browser := {| types := types (service_browser q); browser_cancelled := true |};
     listener := listener q |}.

Definition close_client (q : BonjourQuery) : BonjourQuery :=
  {| zc := {| interfaces := interfaces (zc q); zc_closed := true |};
     service_browser := service_browser q;
     listener := listener q |}.

(** What the teardown of one session meets: what the loop runs during each
    of its three awaits, and whether the two library calls raise. *)
Record teardown_oracle := {
  during_join : list incoming;
  during_async_cancel : list incoming;
  async_cancel_result : option exn;
  during_async_close : list incoming;
  async_close_result : option exn
}.

Record schedule := {
  during_sleep : list incoming;
  teardown : nat → teardown_oracle
}.

Section browse.
Context `{Socket} `{Zeroconf}.

(** What listener [self] does when the loop runs [i] for it. *)
Definition react (self : BonjourListener) (i : incoming) : BonjourListener * list action :=
  match i with
  | Callback _ n => (async_on_service_state_change self n, [Notified n])
  | Wakeup _ => query_addresses_get self
  | RequestReturns _ service_info => query_addresses_returns self service_info
  | RequestRaises _ e => query_addresses_raises self e
  end.

Definition deliver (w : world) (i : incoming) : world :=
  on_listener (session_of i) (λ self, react self i) w.

(** Lines 97-101 for session [k]. *)
Definition collect (k : nat) (q : BonjourQuery) (w : world) (answers : list BonjourAnswer)
  : world * list BonjourAnswer :=
  match self_addresses (listener q) with
  | [] => (w, answers)
  | _ :: _ =>
      let answer := answer_of (listener q) in
      if decide (answer ∈ answers) then (record k [Constructed answer] w, answers)
      else (record k [Constructed answer; Appended answer] w, answers ++ [answer])
  end.

(** Lines 102-104 for session [k]. *)
Definition teardown_session (o : teardown_oracle) (k : nat) (q : BonjourQuery) (w : world)
  : world * option exn :=
  (* await bonjour_query.listener.close() *)
  let c := close (listener q) in
  let w := on_listener k (λ _, (closed_self c, [TaskCancel])) w in
  let w := if suspends c then foldl deliver w (during_join o) else w in
  match raises c with
  | Some e => (record k [Propagated e] w, Some e)
  | None =>
      let w := record k [TaskJoined] w in
      (* await bonjour_query.service_browser.async_cancel() *)
      let w := foldl deliver w (during_async_cancel o) in
      match async_cancel_result o with
      | Some e => (record k [Propagated e] w, Some e)
      | None =>
          let w := record k [BrowserCancelled] (on_query k cancel_browser w) in
          (* await bonjour_query.zc.async_close() *)
          let w := foldl deliver w (during_async_close o) in
          match async_close_result o with
          | Some e => (record k [Propagated e] w, Some e)
          | None => (record k [ClientClosed] (on_query k close_client w), None)
          end
      end
  end.

(** The [for] loop of [browse], over the indices of [bonjour_queries]. *)
Fixpoint browse_loop (sch : schedule) (ks : list nat) (w : world)
    (answers : list BonjourAnswer) : world * (exn + list BonjourAnswer) :=
  match ks with
  | [] => (w, inr answers)
  | k :: ks =>
      match bonjour_queries w !! k with
      | None => browse_loop sch ks w answers
      | Some q =>
          let '(w, answers) := collect k q w answers in
          match teardown_session (teardown sch k) k q w with
          | (w, Some e) => (w, inl e)
          | (w, None) => browse_loop sch ks w answers
          end
      end
  end.

Definition browse (service_name : string) (ips : list string) (timeout : duration)
    (sch : schedule) : world * (exn + list BonjourAnswer) :=
  let w := {| bonjour_queries := query_bonjour service_name <$> ips;
              log := imap (λ k ip, Ev k (Created service_name ip)) ips |} in
  (* await asyncio.sleep(timeout) *)
  let w := {| bonjour_queries := bonjour_queries w; log := log w ++ [Slept timeout] |} in
  let w := foldl deliver w (during_sleep sch) in
  browse_loop sch (seq 0 (length ips)) w [].

Definition browse_ipv6 (host : Host) (service_name : string) (timeout : duration)
    (sch : schedule) : world * (exn + list BonjourAnswer) :=
  match get_ipv6_ips host with
  | inl e => ({| bonjour_queries := []; log := [] |}, inl e)
  | inr ips => browse service_name ips timeout sch
  end.

Definition browse_ipv4 (host : Host) (service_name : string) (timeout : duration)
    (sch : schedule) : world * (exn + list BonjourAnswer) :=
  browse service_name (browse_ipv4_ips host) timeout sch.

Definition browse_remoted (host : Host) (timeout : duration) (sch : schedule) :=
  browse_ipv6 host REMOTED_SERVICE_NAME timeout sch.

Definition browse_mobdev2 (host : Host) (timeout : duration) (sch : schedule) :=
  browse_ipv4 host MOBDEV2_SERVICE_NAME timeout sch.

Definition browse_remotepairing (host : Host) (timeout : duration) (sch : schedule) :=
  browse_ipv4 host REMOTEPAIRING_SERVICE_NAME timeout sch.
End browse.

(** ** Reading a log *)

(** What session [k] did, in order. *)
Definition view (k : nat) (lg : list event) : list action :=
  omap (λ e, match e with
             | Ev k' a => if decide (k' = k) then Some a else None
             | Slept _ => None
             end) lg.

Definition notified (tr : list action) : list Notification :=
  omap (λ a, match a with Notified n => Some n | _ => None end) tr.

Definition dequeued (tr : list action) : list Notification :=
  omap (λ a, match a with Dequeued n => Some n | _ => None end) tr.

(** The steps of [query_addresses]. *)
Definition task_activity (a : action) : bool :=
  match a with
  | Dequeued _ | Requested _ _ | Populated _ | TaskRaised _ => true
  | _ => false
  end.

Definition task_trace (tr : list action) : list action :=
  filter (λ a, task_activity a) tr.

Definition request_of (n : Notification) : action :=
  Requested (n_service_type n) (n_name n).

(** The answers [browse] built, and those it appended, in order. *)
Definition constructed (lg : list event) : list BonjourAnswer :=
  omap (λ e, match e with Ev _ (Constructed a) => Some a | _ => None end) lg.

Definition appended (lg : list event) : list (nat * BonjourAnswer) :=
  omap (λ e, match e with Ev k (Appended a) => Some (k, a) | _ => None end) lg.

(** The first occurrence of every element, in order of first occurrence. *)
Definition first_seen {A} `{EqDecision A} (l : list A) : list A :=
  reverse (remove_dups (reverse l)).

(** What must have happened in a session before it does [a]. *)
Definition allowed (pre : list action) (a : action) : Prop :=
  match a with
  | Dequeued _ | Requested _ _ | Populated _ | TaskRaised _ => TaskCancel ∉ pre
  | TaskJoined => TaskCancel ∈ pre
  | BrowserCancelled => TaskJoined ∈ pre
  | ClientClosed => BrowserCancelled ∈ pre
  | Constructed _ => ∃ service_info, Populated service_info ∈ pre
  | Appended answer => Constructed answer ∈ pre
  | Created _ _ | Notified _ | TaskCancel | Propagated _ => True
  end.

Definition trace_ok (tr : list action) : Prop :=
  ∀ pre a post, tr = pre ++ a :: post → allowed pre a.

(** The actions that are neither a step of the task, nor a notification,
    nor the cancellation. *)
Definition passive (a : action) : bool :=
  match a with
  | Created _ _ | TaskJoined | BrowserCancelled | ClientClosed
  | Constructed _ | Appended _ | Propagated _ => true
  | _ => false
  end.

Section invariants.
Context `{Socket}.

(** The answer fields of [l] are what [query_addresses] stores from
    [service_info] in a listener bound like [l]. *)
Definition stored (l : BonjourListener) (service_info : ServiceInfo) : Prop :=
  ∃ l', query_addresses_store l service_info = inr l' ∧ answer_of l' = answer_of l.

(** How the state of a listener is tied to what its session has done. *)
Definition task_inv (l : BonjourListener) (tr : list action) : Prop :=
  match self_querying_task l with
  | AwaitingGet =>
      task_trace tr = [] ∧ (TaskCancel ∉ tr) ∧ self_addresses l = []
  | AwaitingRequest n =>
      task_trace tr = [Dequeued n; request_of n] ∧ (TaskCancel ∉ tr) ∧
      self_addresses l = []
  | Returned =>
      ∃ n service_info,
        task_trace tr = [Dequeued n; request_of n; Populated service_info] ∧
        stored l service_info
  | Cancelled =>
      self_addresses l = [] ∧
      (task_trace tr = [] ∨
       ∃ n, task_trace tr = [Dequeued n; request_of n] ∨
            task_trace tr = [Dequeued n; request_of n; TaskRaised CancelledError] ∨
            task_trace tr = [Dequeued n; TaskRaised CancelledError])
  | Raised e =>
      self_addresses l = [] ∧ e ≠ CancelledError ∧
      ∃ n, task_trace tr = [Dequeued n; request_of n; TaskRaised e] ∨
           task_trace tr = [Dequeued n; TaskRaised e]
  end.

Record listener_inv (l : BonjourListener) (tr : list action) : Prop := {
  inv_task : task_inv l tr;
  inv_queue : notified tr = dequeued tr ++ self_queue l;
  inv_order : trace_ok tr
}.

Definition world_ok (w : world) : Prop :=
  ∀ k q, bonjour_queries w !! k = Some q → listener_inv (listener q) (view k (log w)).

(** The exceptions that left [browse], with the session being torn down,
    and the timeouts slept. *)
Definition propagated (lg : list event) : list (nat * exn) :=
  omap (λ e, match e with Ev k (Propagated x) => Some (k, x) | _ => None end) lg.

Definition slept (lg : list event) : list duration :=
  omap (λ e, match e with Slept t => Some t | _ => None end) lg.

(** The events of the body of [browse] itself, as opposed to those of the
    tasks and of the teardown calls. *)
Definition marked (e : event) : bool :=
  match e with
  | Ev _ (Constructed _ | Appended _ | Propagated _) | Slept _ => true
  | Ev _ _ => false
  end.

(** What never changes in a session. *)
Definition binding (q : BonjourQuery) : list string * list string * string :=
  (interfaces (zc q), types (service_browser q), self_ip (listener q)).

(** The task of [l] has ended. *)
Definition over (l : BonjourListener) : Prop :=
  match self_querying_task l with
  | AwaitingGet | AwaitingRequest _ => False
  | Returned | Cancelled | Raised _ => True
  end.

(** Once the task has ended, the answer of a listener is settled. *)
Definition settled (l l' : BonjourListener) : Prop :=
  over l → answer_of l' = answer_of l ∧ self_querying_task l' = self_querying_task l.

(** A session some steps later: a browser that was cancelled and a client
    that was closed stay so. *)
Definition ages (q q' : BonjourQuery) : Prop :=
  settled (listener q) (listener q') ∧
  (browser_cancelled (service_browser q) = true →
   browser_cancelled (service_browser q') = true) ∧
  (zc_closed (zc q) = true → zc_closed (zc q') = true).

(** [w'] is [w] some steps later, none of them marked. *)
Definition later (w w' : world) : Prop :=
  binding <$> bonjour_queries w' = binding <$> bonjour_queries w ∧
  (∀ k q q', bonjour_queries w !! k = Some q → bonjour_queries w' !! k = Some q' →
     ages q q') ∧
  ∃ more, log w' = log w ++ more ∧ Forall (λ e, marked e = false) more.

(** The three teardown steps have been applied to [q]. *)
Definition torn_down (q : BonjourQuery) : Prop :=
  over (listener q) ∧
  browser_cancelled (service_browser q) = true ∧
  zc_closed (zc q) = true.

(** The answer line 98 builds from a session, if its listener has
    addresses; and the answers of a list of sessions, in order. *)
Definition candidate (q : BonjourQuery) : option BonjourAnswer :=
  match self_addresses (listener q) with
  | [] => None
  | _ :: _ => Some (answer_of (listener q))
  end.

Definition candidates (qs : list BonjourQuery) : list BonjourAnswer := omap candidate qs.

(** The sessions before [j] are over, and their answers are the ones
    that were constructed. *)
Definition cand_inv (j : nat) (w : world) : Prop :=
  constructed (log w) = candidates (take j (bonjour_queries w)) ∧
  ∀ i q, i < j → bonjour_queries w !! i = Some q → over (listener q).

(** The world when [browse] goes to sleep. *)
Definition started (service_name : string) (ips : list string) (timeout : duration) : world :=
  {| bonjour_queries := query_bonjour service_name <$> ips;
     log := imap (λ k ip, Ev k (Created service_name ip)) ips ++ [Slept timeout] |}.

(** What holds of the world all along a run of [browse timeout]. *)
Record run_inv (timeout : duration) (w : world) : Prop := {
  run_ok : world_ok w;
  run_first_seen : (appended (log w)).*2 = first_seen (constructed (log w));
  run_nonempty : Forall (λ a, ips a ≠ []) (constructed (log w));
  run_sorted : StronglySorted lt (appended (log w)).*1;
  run_slept : slept (log w) = [timeout]
}.

(** What holds when the loop is about to handle session [j], with
    [answers] collected so far. *)
Record loop_inv (timeout : duration) (j : nat) (w : world)
    (answers : list BonjourAnswer) : Prop := {
  loop_run : run_inv timeout w;
  loop_answers : answers = (appended (log w)).*2;
  loop_bound : Forall (λ i, i < j) (appended (log w)).*1;
  loop_quiet : propagated (log w) = []
}.

(** The teardown of a session, in run order. *)
Definition teardown_steps : list action :=
  [TaskCancel; TaskJoined; BrowserCancelled; ClientClosed].

Definition all_done (j : nat) (w : world) : Prop :=
  ∀ i, i < j →
    teardown_steps `sublist_of` view i (log w) ∧
    ∃ q, bonjour_queries w !! i = Some q ∧ torn_down q.

End invariants.

(** ** The steps of [browse] itself *)

(** The actions of the [for] loop of [browse] (lines 96-104), as opposed
    to those of the tasks, of the callbacks and of [query_bonjour]. *)
Definition loop_action (a : action) : bool :=
  match a with
  | Constructed _ | Appended _ | TaskCancel | TaskJoined | BrowserCancelled
  | ClientClosed | Propagated _ => true
  | _ => false
  end.

Definition loop_view (k : nat) (lg : list event) : list action :=
  filter (λ a, loop_action a) (view k lg).

(** What lines 97-101 do for a session, given the answers of the sessions
    before it. *)
Definition collect_actions (before : list BonjourAnswer) (q : BonjourQuery) : list action :=
  match candidate q with
  | None => []
  | Some answer =>
      if decide (answer ∈ before) then [Constructed answer]
      else [Constructed answer; Appended answer]
  end.

(** The two library objects of a session. *)
Definition handles (q : BonjourQuery) : AsyncZeroconf * AsyncServiceBrowser :=
  (zc q, service_browser q).

(** Everything the loop may run for the tasks and the callbacks while a
    [browse] over [n] sessions is suspended: during the sleep, and during
    the awaits of the teardown of each session. *)
Definition teardown_incoming (o : teardown_oracle) : list incoming :=
  during_join o ++ during_async_cancel o ++ during_async_close o.

Definition scheduled (sch : schedule) (n : nat) : list incoming :=
  during_sleep sch ++ (k ← seq 0 n; teardown_incoming (teardown sch k)).

(** Session [i], whose query is [q] in [w], has been through the loop:
    the answer was collected and the four teardown steps ran, once each
    and nothing else; its task is over and [close] had nothing to raise;
    and neither library call of its teardown raised. *)
Record processed (sch : schedule) (w : world) (i : nat) (q : BonjourQuery) : Prop := {
  processed_steps :
    loop_view i (log w) =
      collect_actions (candidates (take i (bonjour_queries w))) q ++ teardown_steps;
  processed_task : over (listener q) ∧ raises (close (listener q)) = None;
  processed_calls :
    async_cancel_result (teardown sch i) = None ∧
    async_close_result (teardown sch i) = None
}.

(** The loop has not reached session [i] yet. *)
Definition pending (w : world) (i : nat) (q : BonjourQuery) : Prop :=
  loop_view i (log w) = [] ∧
  zc_closed (zc q) = false ∧
  browser_cancelled (service_browser q) = false.

(** The loop stopped in the teardown of session [k], on exception [e]:
    the sessions before [k] have been through the loop and are torn down,
    those after [k] have not been reached, and session [k] got as far as
    the call that raised. *)
Record stopped_at (sch : schedule) (w : world) (k : nat) (e : exn) : Prop := {
  stopped_before :
    ∀ i q, i < k → bonjour_queries w !! i = Some q → processed sch w i q ∧ torn_down q;
  stopped_after :
    ∀ i q, k < i → bonjour_queries w !! i = Some q → pending w i q;
  stopped_here :
    ∃ q steps,
      bonjour_queries w !! k = Some q ∧
      over (listener q) ∧ zc_closed (zc q) = false ∧
      loop_view k (log w) =
        collect_actions (candidates (take k (bonjour_queries w))) q
        ++ steps ++ [Propagated e] ∧
      (steps = [TaskCancel] ∧
       self_querying_task (listener q) = Raised e ∧ e ≠ CancelledError
       ∨ steps = [TaskCancel; TaskJoined] ∧
         raises (close (listener q)) = None ∧
         async_cancel_result (teardown sch k) = Some e
       ∨ steps = [TaskCancel; TaskJoined; BrowserCancelled] ∧
         raises (close (listener q)) = None ∧
         async_cancel_result (teardown sch k) = None ∧
         async_close_result (teardown sch k) = Some e)
}.

(** The loop handles one session after the other: whenever it takes a
    step for a session, the clients of all the sessions before that one
    have been closed. *)
Definition sequential (lg : list event) : Prop :=
  ∀ pre i a post,
    lg = pre ++ Ev i a :: post → loop_action a = true →
    ∀ i', i' < i → Ev i' ClientClosed ∈ pre.

(** ** Where what happened comes from *)

Section provenance.
Context `{Zeroconf}.

(** What has happened in [w] has its source in the events [evs]: a
    notification that waits in a queue, or that a task has taken, was
    delivered by a callback of [evs]; for a notification that a task has
    taken, either the constructor of [AsyncServiceInfo] accepted it and
    the request was started, or it raised and the task ended by that
    exception; and a task that ended by an exception did so because
    [evs] made its request raise it, or because the constructor raised it
    for the notification the task had taken. *)
Record sourced (evs : list incoming) (w : world) : Prop := {
  sourced_queue :
    ∀ k q n, bonjour_queries w !! k = Some q → n ∈ self_queue (listener q) →
      Callback k n ∈ evs;
  sourced_dequeued :
    ∀ k n, Ev k (Dequeued n) ∈ log w →
      Callback k n ∈ evs ∧
      (AsyncServiceInfo_init (n_service_type n) (n_name n) = None ∧
       Ev k (request_of n) ∈ log w
       ∨ ∃ e, AsyncServiceInfo_init (n_service_type n) (n_name n) = Some e ∧
              Ev k (TaskRaised e) ∈ log w);
  sourced_raised :
    ∀ k e, Ev k (TaskRaised e) ∈ log w →
      RequestRaises k e ∈ evs ∨
      ∃ n, Ev k (Dequeued n) ∈ log w ∧
           AsyncServiceInfo_init (n_service_type n) (n_name n) = Some e;
  sourced_requested :
    ∀ k service_type name, Ev k (Requested service_type name) ∈ log w →
      AsyncServiceInfo_init service_type name = None
}.
End provenance.

(** The four steps of a teardown, among the actions of a session. *)
Definition teardown_action (a : action) : bool :=
  match a with
  | TaskCancel | TaskJoined | BrowserCancelled | ClientClosed => true
  | _ => false
  end.

(** ** Sample inputs

    Concrete hosts, records and schedules on which the model is run. *)

Fixpoint hextets (bs : bytes) : list N :=
  match bs with
  | hi :: lo :: rest => (256 * Byte.to_N hi + Byte.to_N lo)%N :: hextets rest
  | _ => []
  end.

(** A stand-in for [inet_ntop(AF_INET6, _)]: the eight groups in
    hexadecimal, without the [::] shortening. *)
Definition uncompressed_ntop : Socket := λ a,
  String.concat ":"
    ((λ g, HexadecimalString.NilZero.string_of_uint (N.to_hex_uint g)) <$> hextets (packed a)).

(** [s.endswith(suffix)] *)
Fixpoint endswith (s suffix : string) : bool :=
  if decide (s = suffix) then true
  else match s with
       | EmptyString => false
       | String _ s' => endswith s' suffix
       end.

(** A stand-in for the check of [AsyncServiceInfo(service_type, name)]:
    the name has to end with the type. *)
Definition fitting_names : Zeroconf := λ service_type name,
  if endswith name service_type then None
  else Some (LibraryError "BadTypeInNameException").

Definition sample_v6 : IPv6Address :=
  {| packed := [xfe; x80; x00; x00; x00; x00; x00; x00;
                x00; x00; x00; x00; x00; x00; x00; x05] |}.
Definition sample_v4 (last : byte) : IPv4Address :=
  {| octet1 := xc0; octet2 := xa8; octet3 := x01; octet4 := last |}.

Definition sample_info (last : byte) : ServiceInfo :=
  {| ip_addresses_V4Only := [sample_v4 last];
     ip_addresses_V6Only := [sample_v6];
     info_properties := ∅;
     info_port := Some 58783%Z |}.

Definition sample_listener (ip : string) : BonjourListener :=
  set_task (BonjourListener_init ip)
    (AwaitingRequest {| n_zeroconf := ip; n_service_type := REMOTED_SERVICE_NAME;
                        n_name := "phone." +:+ REMOTED_SERVICE_NAME;
                        n_state_change := Added |}).

Definition named_note (device ip : string) : Notification :=
  {| n_zeroconf := ip; n_service_type := MOBDEV2_SERVICE_NAME;
     n_name := device +:+ "." +:+ MOBDEV2_SERVICE_NAME; n_state_change := Added |}.

Definition sample_note : string → Notification := named_note "phone".

(** A teardown during which nothing else runs and no call raises. *)
Definition quiet : teardown_oracle :=
  {| during_join := []; during_async_cancel := []; async_cancel_result := None;
     during_async_close := []; async_close_result := None |}.

(** Session [k] is notified once and its request returns [info]. *)
Definition resolves (k : nat) (ip : string) (info : ServiceInfo) : list incoming :=
  [Callback k (sample_note ip); Wakeup k; RequestReturns k info].

Definition one_second : duration := QArith_base.Qmake 1 1.

Definition sample_answer (last : string) : BonjourAnswer :=
  {| properties := ∅; ips := ["192.168.1." +:+ last]; port := Some 58783%Z |}.

(** Two interfaces that see the same device. *)
Definition twin_run : world * (exn + list BonjourAnswer) :=
  @browse uncompressed_ntop fitting_names MOBDEV2_SERVICE_NAME ["192.168.1.4"; "10.0.0.4"] one_second
    {| during_sleep := resolves 0 "192.168.1.4" (sample_info x07)
                       ++ resolves 1 "10.0.0.4" (sample_info x07);
       teardown := λ _, quiet |}.

(** Three interfaces; the second resolves first, the first one last. *)
Definition shuffled_run : world * (exn + list BonjourAnswer) :=
  @browse uncompressed_ntop fitting_names MOBDEV2_SERVICE_NAME ["192.168.1.4"; "10.0.0.4"; "172.16.0.4"]
    one_second
    {| during_sleep := resolves 1 "10.0.0.4" (sample_info x02)
                       ++ resolves 2 "172.16.0.4" (sample_info x03)
                       ++ resolves 0 "192.168.1.4" (sample_info x01);
       teardown := λ _, quiet |}.

(** The request of the first session raises. *)
Definition failing_run : world * (exn + list BonjourAnswer) :=
  @browse uncompressed_ntop fitting_names MOBDEV2_SERVICE_NAME ["192.168.1.4"; "10.0.0.4"] one_second
    {| during_sleep := [Callback 0 (sample_note "192.168.1.4"); Wakeup 0;
                        RequestRaises 0 (LibraryError "NotRunningException")]
                       ++ resolves 1 "10.0.0.4" (sample_info x07);
       teardown := λ _, quiet |}.

(** The first session hears nothing, the request of the second never
    returns, the third is notified three times and resolves. *)
Definition mixed_run : world * (exn + list BonjourAnswer) :=
  @browse uncompressed_ntop fitting_names MOBDEV2_SERVICE_NAME ["192.168.1.4"; "10.0.0.4"; "172.16.0.4"]
    one_second
    {| during_sleep := [Callback 1 (sample_note "10.0.0.4"); Wakeup 1;
                        Callback 2 (named_note "phone" "172.16.0.4");
                        Callback 2 (named_note "tablet" "172.16.0.4");
                        Wakeup 2;
                        Callback 2 (named_note "watch" "172.16.0.4");
                        RequestReturns 2 (sample_info x03);
                        Wakeup 2];
       teardown := λ _, quiet |}.

(** A scoped IPv6 interface and an IPv4 one; both resolve to a record that
    holds an IPv4 and an IPv6 address. *)
Definition scoped_run : world * (exn + list BonjourAnswer) :=
  @browse uncompressed_ntop fitting_names REMOTED_SERVICE_NAME ["fe80::7%en0"; "192.168.1.4"] one_second
    {| during_sleep := resolves 0 "fe80::7%en0" (sample_info x07)
                       ++ resolves 1 "192.168.1.4" (sample_info x07);
       teardown := λ _, quiet |}.

(** A host with a loopback adapter and one network adapter. *)
Definition linux_host : Host :=
  {| sys_platform := "linux";
     get_adapters :=
       [{| ifaddr.nice_name := "lo";
           ifaddr.ips := [{| ifaddr.ip := ifaddr.ip_str "127.0.0.1" |};
                          {| ifaddr.ip := ifaddr.ip_tuple "::1" 0 0 |}] |};
        {| ifaddr.nice_name := "en0";
           ifaddr.ips := [{| ifaddr.ip := ifaddr.ip_str "192.168.1.4" |};
                          {| ifaddr.ip := ifaddr.ip_tuple "fe80::7" 0 2 |}] |}] |}.

(** Nothing answers. *)
Definition silence : schedule := {| during_sleep := []; teardown := λ _, quiet |}.

(** A Windows host whose loopback adapter lists [::1] first. *)
Definition win32_loopback_host : Host :=
  {| sys_platform := "win32";
     get_adapters :=
       [{| ifaddr.nice_name := "Loopback Pseudo-Interface 1";
           ifaddr.ips := [{| ifaddr.ip := ifaddr.ip_tuple "::1" 0 0 |};
                          {| ifaddr.ip := ifaddr.ip_str "127.0.0.1" |}] |}] |}.

(** A Windows host with an adapter that has no address. *)
Definition win32_bare_host : Host :=
  {| sys_platform := "win32";
     get_adapters :=
       [{| ifaddr.nice_name := "Ethernet";
           ifaddr.ips := [{| ifaddr.ip := ifaddr.ip_tuple "fe80::7" 0 12 |};
                          {| ifaddr.ip := ifaddr.ip_str "192.168.1.4" |}] |};
        {| ifaddr.nice_name := "Bluetooth Network Connection"; ifaddr.ips := [] |}] |}.

(** An IPv6 scan of [linux_host] during which the only session resolves. *)
Definition ipv6_scan_run : world * (exn + list BonjourAnswer) :=
  @browse_ipv6 uncompressed_ntop fitting_names linux_host REMOTED_SERVICE_NAME one_second
    {| during_sleep := resolves 0 "fe80::7%en0" (sample_info x07);
       teardown := λ _, quiet |}.

(** A record that holds an IPv6 address only, and an IPv4 scan that
    resolves to it. *)
Definition v6_only_info : ServiceInfo :=
  {| ip_addresses_V4Only := [];
     ip_addresses_V6Only := [sample_v6];
     info_properties := ∅;
     info_port := Some 58783%Z |}.

Definition v6_only_run : world * (exn + list BonjourAnswer) :=
  @browse uncompressed_ntop fitting_names MOBDEV2_SERVICE_NAME ["192.168.1.4"] one_second
    {| during_sleep := resolves 0 "192.168.1.4" v6_only_info;
       teardown := λ _, quiet |}.


(** A notification whose name does not end with its service type. *)
Definition misnamed_note (ip : string) : Notification :=
  {| n_zeroconf := ip; n_service_type := MOBDEV2_SERVICE_NAME;
     n_name := "phone." +:+ REMOTED_SERVICE_NAME; n_state_change := Added |}.

(** The first session is notified with such a name, so that the
    constructor of [AsyncServiceInfo] raises in its task; the second
    session resolves. *)
Definition misnamed_run : world * (exn + list BonjourAnswer) :=
  @browse uncompressed_ntop fitting_names MOBDEV2_SERVICE_NAME ["192.168.1.4"; "10.0.0.4"] one_second
    {| during_sleep := [Callback 0 (misnamed_note "192.168.1.4"); Wakeup 0]
                       ++ resolves 1 "10.0.0.4" (sample_info x07);
       teardown := λ _, quiet |}.

(** A listener whose task ended by an exception of the library. *)
Definition failed_listener : BonjourListener :=
  set_task (BonjourListener_init "10.0.0.4") (Raised (LibraryError "NotRunningException")).

(** * Proofs *)

Local Ltac solve_unmarked :=
  solve [simpl; repeat split; try done; try (by repeat constructor)].

Local Ltac absurd_member H :=
  unfold request_of in H;
  repeat (apply elem_of_cons in H as [?|H]; [done|]);
  by apply elem_of_nil in H.

Section proofs.
Context `{Socket} `{Zeroconf}.

(** ** Strings: facts about [contains] and [split] *)

Lemma contains_app c s1 s2 :
  contains c (s1 +:+ s2) = contains c s1 || contains c s2.
Proof.
  induction s1 as [|x s1 IH]; [done|].
  change (String x s1 +:+ s2) with (String x (s1 +:+ s2)). simpl.
  by destruct (decide (x = c)).
Qed.

Lemma split_not_nil sep s : split sep s ≠ [].
Proof.
  destruct s as [|x s]; [done|]. simpl.
  destruct (decide (x = sep)); [done|]. by destruct (split sep s).
Qed.

Lemma split_without sep s : contains sep s = false → split sep s = [s].
Proof.
  induction s as [|x s IH]; [done|]. simpl.
  destruct (decide (x = sep)); [done|]. intros Hc. by rewrite IH.
Qed.

Lemma split_at_first sep s1 s2 :
  contains sep s1 = false →
  split sep (s1 +:+ String sep s2) = s1 :: split sep s2.
Proof.
  induction s1 as [|x s1 IH]; intros Hc.
  - change (EmptyString +:+ String sep s2) with (String sep s2). simpl.
    by rewrite decide_True.
  - change (String x s1 +:+ String sep s2) with (String x (s1 +:+ String sep s2)).
    simpl in *. destruct (decide (x = sep)); [done|]. by rewrite IH.
Qed.

(** Whenever the guard ['%' in self.ip] holds, index 1 of the split exists. *)
Lemma split_second sep s : contains sep s = true → is_Some (split sep s !! 1).
Proof.
  induction s as [|x s IH]; [done|]. simpl.
  destruct (decide (x = sep)) as [->|Hne].
  - intros _. destruct (split sep s) as [|w ws] eqn:E; [|by eexists].
    by destruct (split_not_nil sep s).
  - intros Hc. destruct (IH Hc) as [z Hz].
    destruct (split sep s) as [|w ws]; [done|]. by exists z.
Qed.

(** ** What [query_addresses] stores *)

(** The subscript [split('%')[1]] is guarded by ['%' in self.ip], so the
    store never fails. *)
Lemma query_addresses_store_total self service_info :
  ∃ self', query_addresses_store self service_info = inr self'.
Proof.
  unfold query_addresses_store.
  destruct (contains "%" (self_ip self)) eqn:Hc; [|by eexists].
  destruct (split_second _ _ Hc) as [zone ->]. by eexists.
Qed.

Lemma query_addresses_store_fields self service_info self' :
  query_addresses_store self service_info = inr self' →
  self_properties self' = info_properties service_info ∧
  self_port self' = info_port service_info ∧
  self_ip self' = self_ip self ∧
  self_queue self' = self_queue self ∧
  self_querying_task self' = Returned.
Proof.
  unfold query_addresses_store. intros Hs.
  repeat case_match; simplify_eq/=; done.
Qed.

Lemma query_addresses_store_unscoped self service_info self' :
  contains "%" (self_ip self) = false →
  query_addresses_store self service_info = inr self' →
  self_addresses self' = inet_ntop_AF_INET <$> ip_addresses_V4Only service_info.
Proof.
  unfold query_addresses_store. intros -> [= <-]. simpl. by rewrite app_nil_r.
Qed.

Lemma split_scoped addr zone :
  contains "%" addr = false → contains "%" zone = false →
  split "%" (addr +:+ "%" +:+ zone) !! 1 = Some zone.
Proof.
  intros Ha Hz. change ("%" +:+ zone) with (String "%" zone).
  by rewrite split_at_first, (split_without _ zone).
Qed.

Lemma pretty_byte_no_percent (b : byte) : contains "%" (pretty (Byte.to_N b)) = false.
Proof. destruct b; by vm_compute. Qed.

(** A dotted-decimal literal holds no ['%']. *)
Lemma inet_ntop_AF_INET_no_percent a : contains "%" (inet_ntop_AF_INET a) = false.
Proof.
  unfold inet_ntop_AF_INET. by rewrite !contains_app, !pretty_byte_no_percent.
Qed.

(** The stored list is the IPv4 literals as they are (no ['%'] in
    them), followed by the IPv6 literals.  IPv6 literals are present only
    when the bound address contains ['%']; they all carry the same suffix,
    [%] and the piece of the bound address that follows its first ['%'];
    and for a bound address [addr%zone] that suffix is [%zone], the one the
    bound address ends in. *)
Lemma query_addresses_store_addresses self service_info :
  ∃ self' ipv6,
    query_addresses_store self service_info = inr self' ∧
    self_addresses self' =
      (inet_ntop_AF_INET <$> ip_addresses_V4Only service_info) ++ ipv6 ∧
    Forall (λ literal, contains "%" literal = false)
      (inet_ntop_AF_INET <$> ip_addresses_V4Only service_info) ∧
    (ipv6 ≠ [] → contains "%" (self_ip self) = true) ∧
    (contains "%" (self_ip self) = true →
     ∃ zone, split "%" (self_ip self) !! 1 = Some zone ∧
       ipv6 = (λ a, inet_ntop_AF_INET6 a +:+ "%" +:+ zone)
                <$> ip_addresses_V6Only service_info) ∧
    ∀ addr zone,
      self_ip self = addr +:+ "%" +:+ zone →
      contains "%" addr = false → contains "%" zone = false →
      ends_with ("%" +:+ zone) (self_ip self) ∧
      ipv6 = (λ a, inet_ntop_AF_INET6 a +:+ "%" +:+ zone)
               <$> ip_addresses_V6Only service_info ∧
      Forall (ends_with ("%" +:+ zone)) ipv6.
Proof.
  assert (Forall (λ literal, contains "%" literal = false)
            (inet_ntop_AF_INET <$> ip_addresses_V4Only service_info)) as Hv4.
  { apply Forall_fmap, Forall_true. intros a. apply inet_ntop_AF_INET_no_percent. }
  unfold query_addresses_store.
  destruct (contains "%" (self_ip self)) eqn:Hc.
  - destruct (split_second _ _ Hc) as [z Hz]. rewrite Hz.
    eexists _, _. split; [done|]. split; [done|]. split; [done|]. split; [done|].
    split; [by exists z|].
    intros addr zone Hip Ha Hzone.
    rewrite Hip, split_scoped in Hz by done. simplify_eq.
    split; [by exists addr|]. split; [done|].
    apply Forall_fmap, Forall_true. intros a. by eexists.
  - eexists _, []. split; [done|]. split; [done|]. split; [done|]. split; [done|].
    split; [done|].
    intros addr zone Hip Ha Hzone.
    rewrite Hip, contains_app in Hc.
    change ("%" +:+ zone) with (String "%" zone) in Hc. simpl in Hc.
    by rewrite orb_true_r in Hc.
Qed.

(** Bound to an address without ['%'], the listener stores the IPv4
    literals only, whatever IPv6 addresses the record holds. *)
Lemma query_addresses_store_ipv4_only self service_info :
  contains "%" (self_ip self) = false →
  ∃ self',
    query_addresses_store self service_info = inr self' ∧
    self_addresses self' = inet_ntop_AF_INET <$> ip_addresses_V4Only service_info ∧
    length (self_addresses self') = length (ip_addresses_V4Only service_info).
Proof.
  intros Hc. destruct (query_addresses_store_total self service_info) as [self' Hs].
  exists self'. split; [done|].
  rewrite (query_addresses_store_unscoped _ _ _ Hc Hs).
  split; [done|]. by rewrite length_fmap.
Qed.

(** ** The interface lists *)

Lemma browse_ipv4_ips_no_loopback host : "127.0.0.1" ∉ browse_ipv4_ips host.
Proof.
  unfold browse_ipv4_ips. intros Hin.
  apply list_elem_of_bind in Hin as (adapter & Hin & _).
  apply list_elem_of_bind in Hin as (x & Hin & _).
  destruct (decide (ifaddr.ip x = ifaddr.ip_str "127.0.0.1")) as [|Hne];
    [by apply elem_of_nil in Hin|].
  unfold ifaddr.is_IPv4 in Hin.
  destruct (ifaddr.ip x) as [address|]; [|by apply elem_of_nil in Hin].
  apply list_elem_of_singleton in Hin. congruence.
Qed.

(** Off Windows every entry of the IPv6 list is [address%nice_name] for an
    IPv6 address of some adapter that is neither [::1] nor [fe80::1]. *)
Lemma get_ipv6_ips_filtered host :
  sys_platform host ≠ "win32" →
  ∃ l, get_ipv6_ips host = inr l ∧
    ∀ literal, literal ∈ l →
      ∃ adapter address flowinfo scope_id,
        adapter ∈ get_adapters host ∧
        {| ifaddr.ip := ifaddr.ip_tuple address flowinfo scope_id |} ∈ ifaddr.ips adapter ∧
        literal = address +:+ "%" +:+ ifaddr.nice_name adapter ∧
        address ≠ "::1" ∧ address ≠ "fe80::1".
Proof.
  intros Hp. unfold get_ipv6_ips. rewrite decide_False by done.
  eexists. split; [done|]. intros literal Hin.
  apply list_elem_of_bind in Hin as (adapter & Hin & Had).
  apply list_elem_of_bind in Hin as ([x] & Hin & Hx).
  unfold ifaddr.is_IPv6 in Hin. simpl in Hin.
  destruct x as [|address flowinfo scope_id]; [by apply elem_of_nil in Hin|].
  destruct (decide (address ∈ ["::1"; "fe80::1"])) as [|Hne];
    [by apply elem_of_nil in Hin|].
  apply list_elem_of_singleton in Hin.
  exists adapter, address, flowinfo, scope_id.
  repeat split; try done; intros ->; apply Hne; set_solver.
Qed.

(** C3, on Windows: the branch taken there filters nothing, so a loopback
    adapter that lists [::1] first puts [::1] on the IPv6 scan list. *)
Theorem get_ipv6_ips_win32_keeps_loopback :
  get_ipv6_ips win32_loopback_host = inr ["::1%0"] ∧
  address_part "::1%0" = "::1" ∧
  "127.0.0.1" ∉ browse_ipv4_ips win32_loopback_host.
Proof.
  split; [reflexivity|]. split; [reflexivity|]. apply browse_ipv4_ips_no_loopback.
Qed.

(** ** Logs and traces *)

Lemma view_app k l1 l2 : view k (l1 ++ l2) = view k l1 ++ view k l2.
Proof. apply omap_app. Qed.

Lemma view_cons k j a lg :
  view k (Ev j a :: lg) = if decide (j = k) then a :: view k lg else view k lg.
Proof. unfold view. simpl. by destruct (decide (j = k)). Qed.

Lemma view_Ev_eq k acts : view k (Ev k <$> acts) = acts.
Proof.
  induction acts as [|a acts IH]; [done|].
  rewrite fmap_cons, view_cons, decide_True by done. by rewrite IH.
Qed.

Lemma view_Ev_ne j k acts : j ≠ k → view k (Ev j <$> acts) = [].
Proof.
  intros Hne. induction acts as [|a acts IH]; [done|].
  by rewrite fmap_cons, view_cons, decide_False.
Qed.

Lemma view_record k j acts w :
  view k (log (record j acts w)) =
    view k (log w) ++ (if decide (j = k) then acts else []).
Proof.
  unfold record. simpl. rewrite view_app. f_equal.
  destruct (decide (j = k)) as [->|]; [apply view_Ev_eq|by apply view_Ev_ne].
Qed.

Lemma elem_of_view k a lg : a ∈ view k lg ↔ Ev k a ∈ lg.
Proof.
  unfold view. rewrite list_elem_of_omap. split.
  - intros ([j b|t] & Hin & Heq); [|done].
    destruct (decide (j = k)); by simplify_eq.
  - intros Hin. exists (Ev k a). split; [done|]. by rewrite decide_True.
Qed.

Lemma trace_ok_nil : trace_ok [].
Proof. intros [|??] ?? ?; done. Qed.

Lemma trace_ok_snoc tr a : trace_ok tr → allowed tr a → trace_ok (tr ++ [a]).
Proof.
  intros Hok Ha pre b post. revert pre b.
  induction post as [|x post _] using rev_ind; intros pre b Heq.
  - apply app_inj_tail in Heq as [-> ->]. done.
  - rewrite app_comm_cons, app_assoc in Heq.
    apply app_inj_tail in Heq as [-> ->]. by eapply Hok.
Qed.

Lemma task_trace_app tr1 tr2 : task_trace (tr1 ++ tr2) = task_trace tr1 ++ task_trace tr2.
Proof. apply filter_app. Qed.

Lemma notified_app tr1 tr2 : notified (tr1 ++ tr2) = notified tr1 ++ notified tr2.
Proof. apply omap_app. Qed.

Lemma dequeued_app tr1 tr2 : dequeued (tr1 ++ tr2) = dequeued tr1 ++ dequeued tr2.
Proof. apply omap_app. Qed.

Lemma dequeued_task_trace tr : dequeued (task_trace tr) = dequeued tr.
Proof.
  induction tr as [|a tr IH]; [done|].
  unfold task_trace in *. rewrite filter_cons.
  destruct a; simpl; try done; by rewrite IH.
Qed.

Lemma elem_of_task_trace a tr : a ∈ task_trace tr ↔ a ∈ tr ∧ task_activity a = true.
Proof.
  unfold task_trace. rewrite list_elem_of_filter, Is_true_true. tauto.
Qed.

(** ** Every step of a listener keeps its invariant *)

Lemma task_inv_ext l tr tr' :
  task_trace tr' = task_trace tr → (TaskCancel ∈ tr' → TaskCancel ∈ tr) →
  task_inv l tr → task_inv l tr'.
Proof.
  unfold task_inv. intros -> Hc. destruct (self_querying_task l); naive_solver.
Qed.

(** What is stored depends on the listener through its bound address only. *)
Lemma store_same_ip l l' service_info r :
  self_ip l' = self_ip l → query_addresses_store l service_info = inr r →
  ∃ r', query_addresses_store l' service_info = inr r' ∧ answer_of r' = answer_of r.
Proof.
  unfold query_addresses_store. intros ->.
  destruct (contains "%" (self_ip l)); [|intros [= <-]; by eexists].
  destruct (split "%" (self_ip l) !! 1); [intros [= <-]; by eexists|].
  destruct (ip_addresses_V6Only service_info); [|done].
  intros [= <-]; by eexists.
Qed.

Lemma stored_same l l' service_info :
  self_ip l' = self_ip l → answer_of l' = answer_of l →
  stored l service_info → stored l' service_info.
Proof.
  intros Hip Ha (r & Hs & Hr).
  destruct (store_same_ip _ _ _ _ Hip Hs) as (r' & Hs' & Hr').
  exists r'. split; [done|]. congruence.
Qed.

Lemma task_inv_same l l' tr :
  self_ip l' = self_ip l → answer_of l' = answer_of l →
  self_querying_task l' = self_querying_task l →
  task_inv l tr → task_inv l' tr.
Proof.
  intros Hip Ha Ht. unfold task_inv. rewrite Ht.
  assert (self_addresses l' = self_addresses l) as -> by (by injection Ha).
  destruct (self_querying_task l); try done.
  intros (n & service_info & Htr & Hst). exists n, service_info.
  split; [done|]. by eapply stored_same.
Qed.

Lemma listener_inv_passive l tr a :
  passive a = true → allowed tr a → listener_inv l tr → listener_inv l (tr ++ [a]).
Proof.
  intros Hp Ha [Ht Hq Ho]. split.
  - apply (task_inv_ext l tr); [| |done].
    + rewrite task_trace_app. by destruct a; try done; rewrite app_nil_r.
    + rewrite elem_of_app, list_elem_of_singleton. intros [?|Heq]; [done|].
      by rewrite <-Heq in Hp.
  - rewrite notified_app, dequeued_app.
    by destruct a; try done; simpl; rewrite !app_nil_r.
  - by apply trace_ok_snoc.
Qed.

Lemma listener_inv_init ip service_name :
  listener_inv (BonjourListener_init ip) [Created service_name ip].
Proof.
  split; [|done|apply (trace_ok_snoc []); [apply trace_ok_nil|done]].
  split; [done|]. split; [|done]. by intros ?%list_elem_of_singleton.
Qed.

Lemma listener_inv_callback l tr n :
  listener_inv l tr →
  listener_inv (async_on_service_state_change l n) (tr ++ [Notified n]).
Proof.
  intros [Ht Hq Ho]. split.
  - apply (task_inv_ext _ tr).
    + rewrite task_trace_app. simpl. by rewrite app_nil_r.
    + rewrite elem_of_app, list_elem_of_singleton. intros [?|?]; done.
    + by apply (task_inv_same l).
  - rewrite notified_app, dequeued_app. simpl. rewrite app_nil_r, Hq.
    by rewrite app_assoc.
  - by apply trace_ok_snoc.
Qed.

Lemma not_elem_of_snoc {A} (x y : A) l : x ∉ l → x ≠ y → x ∉ l ++ [y].
Proof. rewrite elem_of_app, list_elem_of_singleton. tauto. Qed.

Lemma listener_inv_get l tr :
  listener_inv l tr →
  listener_inv (query_addresses_get l).1 (tr ++ (query_addresses_get l).2).
Proof.
  intros [Ht Hq Ho]. unfold query_addresses_get.
  unfold task_inv in Ht.
  destruct (self_querying_task l) eqn:Htask; simpl; rewrite ?app_nil_r;
    try (split; [by unfold task_inv; rewrite Htask|done|done]).
  destruct (self_queue l) as [|n queue] eqn:Hqueue; simpl; rewrite ?app_nil_r;
    [split; [by unfold task_inv; rewrite Htask|by rewrite Hqueue|done]|].
  destruct Ht as (Htr & Hc & Haddr).
  destruct (AsyncServiceInfo_init (n_service_type n) (n_name n)) as [e|]; simpl; split.
  - unfold task_inv. simpl. rewrite task_trace_app, Htr. simpl.
    destruct (decide (e = CancelledError)) as [->|]; naive_solver.
  - simpl. rewrite notified_app, dequeued_app. simpl.
    rewrite app_nil_r, Hq, <-app_assoc. done.
  - change [Dequeued n; TaskRaised e] with ([Dequeued n] ++ [TaskRaised e]).
    rewrite app_assoc. apply trace_ok_snoc; [by apply trace_ok_snoc|].
    simpl. by apply not_elem_of_snoc.
  - unfold task_inv. simpl. rewrite task_trace_app, Htr. split; [done|]. split; [|done].
    rewrite elem_of_app, !elem_of_cons, elem_of_nil. unfold request_of. naive_solver.
  - simpl. rewrite notified_app, dequeued_app. simpl.
    rewrite app_nil_r, Hq, <-app_assoc. done.
  - change [Dequeued n; Requested (n_service_type n) (n_name n)]
      with ([Dequeued n] ++ [Requested (n_service_type n) (n_name n)]).
    rewrite app_assoc. apply trace_ok_snoc; [by apply trace_ok_snoc|].
    simpl. by apply not_elem_of_snoc.
Qed.

Lemma listener_inv_returns l tr service_info :
  listener_inv l tr →
  listener_inv (query_addresses_returns l service_info).1
    (tr ++ (query_addresses_returns l service_info).2).
Proof.
  intros [Ht Hq Ho]. unfold query_addresses_returns.
  unfold task_inv in Ht.
  destruct (self_querying_task l) eqn:Htask; simpl; rewrite ?app_nil_r;
    try (split; [by unfold task_inv; rewrite Htask|done|done]).
  destruct (query_addresses_store_total l service_info) as [l' Hs]. rewrite Hs. simpl.
  destruct (query_addresses_store_fields _ _ _ Hs) as (_ & _ & Hip & Hqueue & Htask').
  destruct Ht as (Htr & Hc & Haddr). split.
  - unfold task_inv. rewrite Htask', task_trace_app, Htr.
    exists n, service_info. split; [done|]. by eapply store_same_ip.
  - rewrite notified_app, dequeued_app. simpl. by rewrite !app_nil_r, Hqueue.
  - by apply trace_ok_snoc.
Qed.

Lemma listener_inv_raises l tr e :
  listener_inv l tr →
  listener_inv (query_addresses_raises l e).1 (tr ++ (query_addresses_raises l e).2).
Proof.
  intros [Ht Hq Ho]. unfold query_addresses_raises.
  unfold task_inv in Ht.
  destruct (self_querying_task l) eqn:Htask; simpl; rewrite ?app_nil_r;
    try (split; [by unfold task_inv; rewrite Htask|done|done]).
  destruct Ht as (Htr & Hc & Haddr). split.
  - unfold task_inv. simpl. rewrite task_trace_app, Htr. simpl.
    destruct (decide (e = CancelledError)) as [->|]; naive_solver.
  - rewrite notified_app, dequeued_app. simpl. by rewrite !app_nil_r.
  - by apply trace_ok_snoc.
Qed.

Lemma listener_inv_react l tr i :
  listener_inv l tr → listener_inv (react l i).1 (tr ++ (react l i).2).
Proof.
  destruct i; simpl.
  - apply listener_inv_callback.
  - apply listener_inv_get.
  - apply listener_inv_returns.
  - apply listener_inv_raises.
Qed.

Lemma listener_inv_close l tr :
  listener_inv l tr → listener_inv (closed_self (close l)) (tr ++ [TaskCancel]).
Proof.
  intros [Ht Hq Ho]. split.
  - unfold task_inv, close in *.
    destruct (self_querying_task l) eqn:Htask; simpl; rewrite ?Htask, task_trace_app;
      simpl; rewrite ?app_nil_r; naive_solver.
  - rewrite notified_app, dequeued_app. simpl. rewrite !app_nil_r, Hq.
    unfold close. by destruct (self_querying_task l).
  - by apply trace_ok_snoc.
Qed.

(** Once [cancel()] has been called the task is over. *)
Lemma cancelled_task_over l tr :
  listener_inv l tr → TaskCancel ∈ tr →
  self_querying_task l ≠ AwaitingGet ∧ ∀ n, self_querying_task l ≠ AwaitingRequest n.
Proof.
  intros [Ht _ _] Hc. unfold task_inv in Ht.
  destruct (self_querying_task l); naive_solver.
Qed.

(** ** Steps of the world *)

Lemma unmarked_projections more :
  Forall (λ e, marked e = false) more →
  constructed more = [] ∧ appended more = [] ∧ propagated more = [] ∧ slept more = [].
Proof.
  induction 1 as [|e more He _ IH]; [done|].
  destruct IH as (IH1 & IH2 & IH3 & IH4).
  unfold constructed, appended, propagated, slept in *.
  destruct e as [k []|]; simpl in *; done.
Qed.

Lemma binding_length w w' :
  binding <$> bonjour_queries w' = binding <$> bonjour_queries w →
  length (bonjour_queries w') = length (bonjour_queries w).
Proof. intros Hb. by rewrite <-(length_fmap binding), Hb, length_fmap. Qed.

Lemma later_refl w : later w w.
Proof.
  split; [done|]. split; [|exists []; by rewrite app_nil_r].
  intros k q q' Hk Hk'. simplify_eq. split; [by intros _|done].
Qed.

Lemma later_trans w1 w2 w3 : later w1 w2 → later w2 w3 → later w1 w3.
Proof.
  intros [Hb1 [Hs1 (m1 & Hl1 & Hm1)]] [Hb2 [Hs2 (m2 & Hl2 & Hm2)]].
  split; [congruence|]. split.
  - intros k q1 q3 Hk1 Hk3.
    assert (is_Some (bonjour_queries w2 !! k)) as [q2 Hk2].
    { apply lookup_lt_is_Some. rewrite <-(length_fmap binding), Hb1, length_fmap.
      by eapply lookup_lt_Some. }
    destruct (Hs1 _ _ _ Hk1 Hk2) as (Hset1 & Hbr1 & Hzc1).
    destruct (Hs2 _ _ _ Hk2 Hk3) as (Hset2 & Hbr2 & Hzc2).
    split; [|split; [by intros ?%Hbr1%Hbr2|by intros ?%Hzc1%Hzc2]].
    intros Hover. destruct (Hset1 Hover) as [Ha Ht].
    destruct Hset2 as [Ha' Ht']; [unfold over; by rewrite Ht|].
    split; congruence.
  - exists (m1 ++ m2). rewrite Hl2, Hl1, app_assoc. split; [done|].
    by apply Forall_app.
Qed.

Lemma later_lookup w w' k q :
  later w w' → bonjour_queries w !! k = Some q →
  ∃ q', bonjour_queries w' !! k = Some q' ∧ binding q' = binding q.
Proof.
  intros [Hb _] Hk.
  assert ((binding <$> bonjour_queries w') !! k = Some (binding q)) as Hk'.
  { by rewrite Hb, list_lookup_fmap, Hk. }
  rewrite list_lookup_fmap in Hk'.
  destruct (bonjour_queries w' !! k) as [q'|]; [|done].
  exists q'. split; [done|]. simpl in Hk'. congruence.
Qed.

Lemma later_view w w' k a : later w w' → a ∈ view k (log w) → a ∈ view k (log w').
Proof.
  intros [_ [_ (more & -> & _)]]. rewrite view_app, elem_of_app. tauto.
Qed.

Lemma later_marked w w' :
  later w w' →
  constructed (log w') = constructed (log w) ∧ appended (log w') = appended (log w) ∧
  propagated (log w') = propagated (log w) ∧ slept (log w') = slept (log w).
Proof.
  intros [_ [_ (more & -> & Hm)]].
  destruct (unmarked_projections _ Hm) as (H1 & H2 & H3 & H4).
  unfold constructed, appended, propagated, slept in *.
  by rewrite !omap_app, H1, H2, H3, H4, !app_nil_r.
Qed.

Lemma later_record k a w :
  marked (Ev k a) = false → later w (record k [a] w).
Proof.
  intros Ha. split; [done|]. split.
  - intros i q q' Hi Hi'. simpl in Hi'. simplify_eq. split; [by intros _|done].
  - exists [Ev k a]. split; [done|]. by repeat constructor.
Qed.

Lemma binding_insert (qs : list BonjourQuery) k q q' :
  qs !! k = Some q → binding q' = binding q →
  binding <$> <[k:=q']> qs = binding <$> qs.
Proof.
  intros Hk Hb. rewrite list_fmap_insert, Hb.
  apply list_insert_id. by rewrite list_lookup_fmap, Hk.
Qed.

Lemma later_on_listener k f w :
  (∀ q, bonjour_queries w !! k = Some q →
     self_ip (f (listener q)).1 = self_ip (listener q) ∧
     settled (listener q) (f (listener q)).1 ∧
     Forall (λ a, marked (Ev k a) = false) (f (listener q)).2) →
  later w (on_listener k f w).
Proof.
  intros Hf. unfold on_listener.
  destruct (bonjour_queries w !! k) as [q|] eqn:Hk; [|apply later_refl].
  destruct (Hf q eq_refl) as (Hip & Hset & Hacts).
  destruct (f (listener q)) as [l acts]. simpl in *. split; [|split].
  - simpl. apply (binding_insert _ _ q); [done|]. unfold binding. simpl. by rewrite Hip.
  - intros i q1 q2 Hi Hi'. simpl in Hi'. destruct (decide (k = i)) as [->|].
    + rewrite list_lookup_insert_eq in Hi' by (by eapply lookup_lt_Some).
      by simplify_eq.
    + rewrite list_lookup_insert_ne in Hi' by done. simplify_eq.
      split; [by intros _|done].
  - exists (Ev k <$> acts). split; [done|]. by apply Forall_fmap.
Qed.

Lemma later_on_query k f w :
  (∀ q, binding (f q) = binding q ∧ ages q (f q)) →
  later w (on_query k f w).
Proof.
  intros Hf. split; [|split; [|exists []; by rewrite app_nil_r]].
  - simpl. apply list_eq. intros i. rewrite !list_lookup_fmap.
    destruct (decide (i = k)) as [->|].
    + rewrite list_lookup_alter_eq. destruct (bonjour_queries w !! k); simpl; [|done].
      by rewrite (proj1 (Hf _)).
    + by rewrite list_lookup_alter_ne.
  - intros i q q' Hi Hi'. simpl in Hi'. destruct (decide (i = k)) as [->|].
    + rewrite list_lookup_alter_eq, Hi in Hi'. simplify_eq/=. apply Hf.
    + rewrite list_lookup_alter_ne in Hi' by done. simplify_eq.
      split; [by intros _|done].
Qed.

Lemma world_ok_on_listener k f w :
  (∀ q, bonjour_queries w !! k = Some q →
     listener_inv (f (listener q)).1 (view k (log w) ++ (f (listener q)).2)) →
  world_ok w → world_ok (on_listener k f w).
Proof.
  intros Hf Hw. unfold on_listener.
  destruct (bonjour_queries w !! k) as [q|] eqn:Hk; [|done].
  specialize (Hf q eq_refl). destruct (f (listener q)) as [l acts].
  intros j q' Hj. rewrite view_record. simpl in *.
  destruct (decide (k = j)) as [->|Hne].
  - rewrite list_lookup_insert_eq in Hj by (by eapply lookup_lt_Some).
    by simplify_eq.
  - rewrite list_lookup_insert_ne in Hj by done. rewrite app_nil_r. by apply Hw.
Qed.

Lemma world_ok_record k a w :
  passive a = true →
  (∀ q, bonjour_queries w !! k = Some q → allowed (view k (log w)) a) →
  world_ok w → world_ok (record k [a] w).
Proof.
  intros Hp Ha Hw j q Hj. rewrite view_record.
  destruct (decide (k = j)) as [->|]; [|rewrite app_nil_r; by apply Hw].
  apply listener_inv_passive; [done|by eapply Ha|by apply Hw].
Qed.

Lemma world_ok_on_query k f w :
  (∀ q, listener (f q) = listener q) → world_ok w → world_ok (on_query k f w).
Proof.
  intros Hf Hw j q Hj. simpl in *.
  destruct (decide (j = k)) as [->|].
  - rewrite list_lookup_alter_eq in Hj.
    destruct (bonjour_queries w !! k) as [q0|] eqn:Hk; simplify_eq/=.
    rewrite Hf. by apply Hw.
  - rewrite list_lookup_alter_ne in Hj by done. by apply Hw.
Qed.

Lemma cancel_browser_keeps q :
  binding (cancel_browser q) = binding q ∧ ages q (cancel_browser q).
Proof. split; [done|]. split; [by intros _|done]. Qed.

Lemma close_client_keeps q :
  binding (close_client q) = binding q ∧ ages q (close_client q).
Proof. split; [done|]. split; [by intros _|done]. Qed.

Lemma view_on_query j k f w : view j (log (on_query k f w)) = view j (log w).
Proof. done. Qed.

Lemma settled_refl l : settled l l.
Proof. by intros _. Qed.

Lemma react_unmarked l i k :
  self_ip (react l i).1 = self_ip l ∧ settled l (react l i).1 ∧
  Forall (λ a, marked (Ev k a) = false) (react l i).2.
Proof.
  unfold settled, over.
  destruct i as [? n| |? service_info|? e]; simpl.
  - solve_unmarked.
  - unfold query_addresses_get.
    destruct (self_querying_task l) eqn:Ht; try solve_unmarked.
    destruct (self_queue l) as [|n queue]; [solve_unmarked|].
    destruct (AsyncServiceInfo_init (n_service_type n) (n_name n)); solve_unmarked.
  - unfold query_addresses_returns.
    destruct (self_querying_task l) eqn:Ht; try solve_unmarked.
    destruct (query_addresses_store_total l service_info) as [l' Hs]. rewrite Hs.
    destruct (query_addresses_store_fields _ _ _ Hs) as (_ & _ & Hip & _).
    solve_unmarked.
  - unfold query_addresses_raises.
    destruct (self_querying_task l) eqn:Ht; solve_unmarked.
Qed.

Lemma later_deliver w i : later w (deliver w i).
Proof. apply later_on_listener. intros q _. apply react_unmarked. Qed.

Lemma world_ok_deliver w i : world_ok w → world_ok (deliver w i).
Proof.
  intros Hw. apply world_ok_on_listener; [|done].
  intros q Hq. apply listener_inv_react. by apply Hw.
Qed.

Lemma later_foldl_deliver w evs : later w (foldl deliver w evs).
Proof.
  revert w. induction evs as [|i evs IH]; intros w; [apply later_refl|].
  simpl. eapply later_trans; [apply later_deliver|apply IH].
Qed.

Lemma world_ok_foldl_deliver w evs : world_ok w → world_ok (foldl deliver w evs).
Proof.
  revert w. induction evs as [|i evs IH]; intros w Hw; [done|].
  simpl. by apply IH, world_ok_deliver.
Qed.

Lemma view_on_listener j k f w q :
  bonjour_queries w !! k = Some q →
  view j (log (on_listener k f w)) =
    view j (log w) ++ (if decide (k = j) then (f (listener q)).2 else []).
Proof.
  intros Hk. unfold on_listener. rewrite Hk.
  destruct (f (listener q)) as [l acts]. by rewrite view_record.
Qed.

Lemma sublist_later tr k w w' :
  later w w' → tr `sublist_of` view k (log w) → tr `sublist_of` view k (log w').
Proof.
  intros [_ [_ (more & -> & _)]] Hs. rewrite view_app. by apply sublist_inserts_r.
Qed.

Lemma sublist_record tr k a w :
  tr `sublist_of` view k (log w) →
  tr ++ [a] `sublist_of` view k (log (record k [a] w)).
Proof.
  intros Hs. rewrite view_record, decide_True by done. by apply sublist_app.
Qed.

Lemma close_raises l e :
  raises (close l) = Some e → self_querying_task l = Raised e ∧ e ≠ CancelledError.
Proof.
  unfold close. destruct (self_querying_task l) as [| | | |e']; simpl; try done.
  destruct (decide (e' = CancelledError)); [done|]. by intros [= ->].
Qed.

Lemma candidate_answer q q' :
  answer_of (listener q') = answer_of (listener q) → candidate q' = candidate q.
Proof.
  intros Ha. unfold candidate. rewrite Ha.
  assert (self_addresses (listener q') = self_addresses (listener q)) as ->; [|done].
  by injection Ha.
Qed.

Lemma later_over w w' k q :
  later w w' → bonjour_queries w !! k = Some q → over (listener q) →
  ∃ q', bonjour_queries w' !! k = Some q' ∧ over (listener q') ∧
        candidate q' = candidate q.
Proof.
  intros Hl Hk Hover. destruct (later_lookup _ _ _ _ Hl Hk) as (q' & Hk' & _).
  destruct Hl as (_ & Hs & _). destruct (Hs _ _ _ Hk Hk') as [Hset _].
  destruct (Hset Hover) as [Ha Ht].
  exists q'. split; [done|]. split; [unfold over; by rewrite Ht|].
  by apply candidate_answer.
Qed.

Lemma later_torn_down w w' k q :
  later w w' → bonjour_queries w !! k = Some q → torn_down q →
  ∃ q', bonjour_queries w' !! k = Some q' ∧ torn_down q'.
Proof.
  intros Hl Hk (Hover & Hbr & Hzc).
  destruct (later_lookup _ _ _ _ Hl Hk) as (q' & Hk' & _).
  destruct Hl as (_ & Hs & _). destruct (Hs _ _ _ Hk Hk') as (Hset & Hbr' & Hzc').
  destruct (Hset Hover) as [_ Ht].
  exists q'. split; [done|]. split; [unfold over; by rewrite Ht|]. auto.
Qed.

Lemma omap_Forall2 {A B} (f : A → option B) l l' :
  Forall2 (λ x y, f x = f y) l l' → omap f l = omap f l'.
Proof.
  induction 1 as [|x y l l' Hxy _ IH]; [done|].
  change (omap f (x :: l)) with (from_option (λ z, z :: omap f l) (omap f l) (f x)).
  change (omap f (y :: l')) with (from_option (λ z, z :: omap f l') (omap f l') (f y)).
  by rewrite Hxy, IH.
Qed.

Lemma later_candidates j w w' :
  later w w' →
  (∀ i q, i < j → bonjour_queries w !! i = Some q → over (listener q)) →
  candidates (take j (bonjour_queries w')) = candidates (take j (bonjour_queries w)) ∧
  ∀ i q, i < j → bonjour_queries w' !! i = Some q → over (listener q).
Proof.
  intros Hl Hover. pose proof (binding_length _ _ (proj1 Hl)) as Hlen. split.
  - apply omap_Forall2, Forall2_same_length_lookup_2.
    { by rewrite !length_take, Hlen. }
    intros i q' q [Hi' Hlt]%lookup_take_Some [Hi _]%lookup_take_Some.
    destruct (later_over _ _ _ _ Hl Hi (Hover _ _ Hlt Hi)) as (q'' & Hi'' & _ & Hc).
    by simplify_eq.
  - intros i q' Hlt Hi'.
    assert (is_Some (bonjour_queries w !! i)) as [q Hi].
    { apply lookup_lt_is_Some. rewrite <-Hlen. by eapply lookup_lt_Some. }
    destruct (later_over _ _ _ _ Hl Hi (Hover _ _ Hlt Hi)) as (q'' & Hi'' & Ho & _).
    by simplify_eq.
Qed.

(** One teardown: either the four steps ran, in order, or an exception
    left [browse], and then it is the one the task had ended by, or the
    one a library call raised. *)
Lemma teardown_session_spec o k q w w' r :
  world_ok w → bonjour_queries w !! k = Some q →
  teardown_session o k q w = (w', r) →
  world_ok w' ∧
  match r with
  | None =>
      later w w' ∧ teardown_steps `sublist_of` view k (log w') ∧
      ∃ q', bonjour_queries w' !! k = Some q' ∧ torn_down q' ∧
            candidate q' = candidate q
  | Some e =>
      (∃ w0, later w w0 ∧ world_ok w0 ∧ w' = record k [Propagated e] w0) ∧
      (self_querying_task (listener q) = Raised e ∧ e ≠ CancelledError ∨
       async_cancel_result o = Some e ∨ async_close_result o = Some e)
  end.
Proof.
  intros Hw Hk. unfold teardown_session.
  set (w1 := on_listener k (λ _, (closed_self (close (listener q)), [TaskCancel])) w).
  assert (world_ok w1) as Hw1.
  { apply world_ok_on_listener; [|done]. intros q0 Hq0. simplify_eq. simpl.
    apply listener_inv_close. by apply Hw. }
  assert (later w w1) as Hl1.
  { apply later_on_listener. intros q0 Hq0. simplify_eq. simpl. split; [|split].
    - unfold close. by destruct (self_querying_task (listener q)).
    - unfold settled, over, close.
      destruct (self_querying_task (listener q)) eqn:Ht; simpl; by rewrite ?Ht.
    - by repeat constructor. }
  assert (∃ q1, bonjour_queries w1 !! k = Some q1 ∧ over (listener q1) ∧
                candidate q1 = candidate q) as (q1 & Hk1 & Hover1 & Hcand1).
  { exists (set_listener q (closed_self (close (listener q)))). split; [|split].
    - unfold w1, on_listener. rewrite Hk. simpl.
      apply list_lookup_insert_eq. by eapply lookup_lt_Some.
    - unfold over, close. simpl.
      by destruct (self_querying_task (listener q)) eqn:Ht; simpl; rewrite ?Ht.
    - destruct (Hw k q Hk) as [Ht _ _]. unfold task_inv in Ht.
      unfold candidate, close. simpl.
      destruct (self_querying_task (listener q)); try done; simpl;
        destruct Ht as (_ & _ & ->); done. }
  assert ([TaskCancel] `sublist_of` view k (log w1)) as Hs1.
  { unfold w1. rewrite (view_on_listener _ _ _ _ q), decide_True by done.
    simpl. by apply sublist_inserts_l. }
  set (w2 := if suspends (close (listener q))
             then foldl deliver w1 (during_join o) else w1).
  assert (world_ok w2 ∧ later w1 w2) as [Hw2 Hl2].
  { unfold w2. destruct (suspends _).
    - split; [by apply world_ok_foldl_deliver|apply later_foldl_deliver].
    - split; [done|apply later_refl]. }
  assert (TaskCancel ∈ view k (log w2)) as Hc2.
  { apply (later_view w1); [done|]. eapply elem_of_sublist; [|exact Hs1]. by left. }
  destruct (raises (close (listener q))) as [e|] eqn:Hraise.
  { intros [= <- <-]. split; [by apply world_ok_record|]. split.
    - exists w2. split; [by eapply later_trans|done].
    - left. by apply close_raises in Hraise. }
  set (w3 := record k [TaskJoined] w2).
  assert (world_ok w3) as Hw3 by (by apply world_ok_record).
  assert (later w w3) as Hl3.
  { eapply later_trans; [|by apply later_record]. by eapply later_trans. }
  assert ([TaskCancel; TaskJoined] `sublist_of` view k (log w3)) as Hs3.
  { apply (sublist_record [TaskCancel]). by apply (sublist_later _ _ w1). }
  set (w4 := foldl deliver w3 (during_async_cancel o)).
  assert (world_ok w4) as Hw4 by (by apply world_ok_foldl_deliver).
  assert (later w3 w4) as Hl4 by apply later_foldl_deliver.
  destruct (async_cancel_result o) as [e|] eqn:Hcancel.
  { intros [= <- <-]. split; [by apply world_ok_record|]. split.
    - exists w4. split; [by eapply later_trans|done].
    - by right; left. }
  set (w5 := record k [BrowserCancelled] (on_query k cancel_browser w4)).
  assert (world_ok w5) as Hw5.
  { apply world_ok_record; [done| |by apply world_ok_on_query].
    intros _ _. simpl. apply (later_view w3); [done|].
    eapply elem_of_sublist; [|exact Hs3]. by right; left. }
  assert (later w4 w5) as Hl5.
  { eapply later_trans; [apply later_on_query, cancel_browser_keeps|].
    by apply later_record. }
  assert ([TaskCancel; TaskJoined; BrowserCancelled] `sublist_of` view k (log w5)) as Hs5.
  { apply (sublist_record [TaskCancel; TaskJoined]).
    rewrite view_on_query. by apply (sublist_later _ _ w3). }
  set (w6 := foldl deliver w5 (during_async_close o)).
  assert (world_ok w6) as Hw6 by (by apply world_ok_foldl_deliver).
  assert (later w5 w6) as Hl6 by apply later_foldl_deliver.
  assert (later w w6) as Hl.
  { eapply later_trans; [exact Hl3|]. eapply later_trans; [exact Hl4|].
    by eapply later_trans. }
  destruct (async_close_result o) as [e|] eqn:Hclose.
  { intros [= <- <-]. split; [by apply world_ok_record|]. split.
    - by exists w6.
    - by right; right. }
  assert (later w6 (record k [ClientClosed] (on_query k close_client w6))) as Hl7.
  { eapply later_trans; [apply later_on_query, close_client_keeps|].
    by apply later_record. }
  intros [= <- <-]. split; [|split; [|split]].
  - apply world_ok_record; [done| |by apply world_ok_on_query].
    intros _ _. simpl. apply (later_view w5); [done|].
    eapply elem_of_sublist; [|exact Hs5]. by right; right; left.
  - by eapply later_trans.
  - apply (sublist_record [TaskCancel; TaskJoined; BrowserCancelled]).
    rewrite view_on_query. by apply (sublist_later _ _ w5).
  - assert (later w1 (record k [ClientClosed] (on_query k close_client w6))) as Hl17.
    { eapply later_trans; [exact Hl2|].
      eapply later_trans; [by apply (later_record k TaskJoined)|].
      eapply later_trans; [exact Hl4|]. eapply later_trans; [exact Hl5|].
      by eapply later_trans. }
    destruct (later_over _ _ _ _ Hl17 Hk1 Hover1) as (q' & Hk' & Hover' & Hcand').
    exists q'. split; [done|]. split; [|congruence].
    assert (later w w4) as Hl04 by (eapply later_trans; [exact Hl3|exact Hl4]).
    destruct (later_lookup _ _ _ _ Hl04 Hk) as (q4 & Hk4 & _).
    assert (bonjour_queries w5 !! k = Some (cancel_browser q4)) as Hk5.
    { simpl. by rewrite list_lookup_alter_eq, Hk4. }
    destruct (later_lookup _ _ _ _ Hl6 Hk5) as (q6 & Hk6 & _).
    destruct Hl6 as (_ & Hs6 & _). destruct (Hs6 _ _ _ Hk5 Hk6) as (_ & Hbr6 & _).
    simpl in Hk'. rewrite list_lookup_alter_eq, Hk6 in Hk'. simpl in Hk'.
    injection Hk' as <-. split; [done|]. split; [by apply Hbr6|done].
Qed.

(** ** The loop of [browse] *)

Lemma first_seen_snoc {A} `{EqDecision A} (l : list A) x :
  first_seen (l ++ [x]) =
    if decide (x ∈ first_seen l) then first_seen l else first_seen l ++ [x].
Proof.
  unfold first_seen. rewrite reverse_snoc. simpl.
  destruct (decide_rel elem_of x (reverse l)) as [Hin|Hin].
  - rewrite decide_True; [done|].
    by rewrite elem_of_reverse, elem_of_remove_dups.
  - rewrite decide_False; [by rewrite reverse_cons|].
    by rewrite elem_of_reverse, elem_of_remove_dups.
Qed.

Lemma NoDup_first_seen {A} `{EqDecision A} (l : list A) : NoDup (first_seen l).
Proof. unfold first_seen. rewrite reverse_Permutation. apply NoDup_remove_dups. Qed.

Lemma elem_of_first_seen {A} `{EqDecision A} (l : list A) x : x ∈ first_seen l ↔ x ∈ l.
Proof.
  unfold first_seen. by rewrite elem_of_reverse, elem_of_remove_dups, elem_of_reverse.
Qed.

Lemma later_prefix w w' : later w w' → log w `prefix_of` log w'.
Proof. intros [_ [_ (more & -> & _)]]. by apply prefix_app_r. Qed.

Lemma prefix_view k lg lg' : lg `prefix_of` lg' → view k lg `prefix_of` view k lg'.
Proof. intros [more ->]. rewrite view_app. by apply prefix_app_r. Qed.

Lemma all_done_same j w w' :
  bonjour_queries w' = bonjour_queries w → log w `prefix_of` log w' →
  all_done j w → all_done j w'.
Proof.
  intros Hq Hp Hd i Hi. destruct (Hd i Hi) as [Hs Ht]. rewrite Hq. split; [|done].
  destruct (prefix_view i _ _ Hp) as [more ->]. by apply sublist_inserts_r.
Qed.

Lemma all_done_later j w w' : later w w' → all_done j w → all_done j w'.
Proof.
  intros Hl Hd i Hi. destruct (Hd i Hi) as (Hs & q & Hq & Ht). split.
  - by apply (sublist_later _ _ w).
  - by apply (later_torn_down w _ _ q).
Qed.

Lemma run_inv_later t w w' : later w w' → world_ok w' → run_inv t w → run_inv t w'.
Proof.
  intros Hl Hw [_ H1 H2 H3 H4].
  destruct (later_marked _ _ Hl) as (Hc & Ha & _ & Hs).
  split; [done|by rewrite Ha, Hc|by rewrite Hc|by rewrite Ha|by rewrite Hs].
Qed.

Lemma loop_inv_later t j w w' answers :
  later w w' → world_ok w' → loop_inv t j w answers → loop_inv t j w' answers.
Proof.
  intros Hl Hw [H1 H2 H3 H4].
  destruct (later_marked _ _ Hl) as (_ & Ha & Hp & _).
  split; [by eapply run_inv_later|by rewrite Ha|by rewrite Ha|by rewrite Hp].
Qed.

Lemma run_inv_propagated t k e w :
  world_ok (record k [Propagated e] w) → run_inv t w →
  run_inv t (record k [Propagated e] w).
Proof.
  intros Hw [_ H1 H2 H3 H4]. split; [done|..];
    unfold appended, constructed, slept in *; simpl;
    rewrite ?omap_app; simpl; by rewrite ?app_nil_r.
Qed.

Lemma record_two k a b w : record k [a; b] w = record k [b] (record k [a] w).
Proof. unfold record. simpl. by rewrite <-app_assoc. Qed.

(** A listener with addresses has run its task to the end. *)
Lemma resolved_populated l tr :
  listener_inv l tr → self_addresses l ≠ [] →
  self_querying_task l = Returned ∧
  ∃ service_info, Populated service_info ∈ tr ∧ stored l service_info.
Proof.
  intros [Ht _ _] Ha. unfold task_inv in Ht.
  destruct (self_querying_task l); try (by destruct Ht as (? & ? & ?) || by destruct Ht).
  split; [done|]. destruct Ht as (n & service_info & Ht & Hst).
  exists service_info. split; [|done].
  assert (Populated service_info ∈ task_trace tr) as Hin by (rewrite Ht; set_solver).
  by apply elem_of_task_trace in Hin as [? _].
Qed.

Lemma lt_S_Forall j (l : list nat) : Forall (λ i, i < j) l → Forall (λ i, i < S j) l.
Proof. intros Hl. eapply Forall_impl; [done|]. simpl. lia. Qed.

Lemma collect_spec t j q w answers w1 answers1 :
  bonjour_queries w !! j = Some q → loop_inv t j w answers →
  collect j q w answers = (w1, answers1) →
  loop_inv t (S j) w1 answers1 ∧
  bonjour_queries w1 = bonjour_queries w ∧ log w `prefix_of` log w1 ∧
  constructed (log w1) = constructed (log w) ++ option_list (candidate q).
Proof.
  intros Hj [[Hw Hfs Hne Hso Hsl] Hans Hb Hq]. unfold collect, candidate.
  destruct (self_addresses (listener q)) as [|x xs] eqn:Haddr.
  { intros [= <- <-]. split; [|by rewrite app_nil_r].
    split; [done|done|by apply lt_S_Forall|done]. }
  set (a := answer_of (listener q)).
  assert (ips a ≠ []) as Hips by (unfold a; simpl; by rewrite Haddr).
  assert (∃ service_info, Populated service_info ∈ view j (log w)) as Hpop.
  { destruct (resolved_populated (listener q) (view j (log w)))
      as (_ & service_info & Hin & _); [by apply Hw|by rewrite Haddr|].
    by exists service_info. }
  assert (world_ok (record j [Constructed a] w)) as Hw1 by (by apply world_ok_record).
  destruct (decide (a ∈ answers)) as [Hin|Hin]; intros [= <- <-].
  - split; [|split; [done|split; [by apply prefix_app_r|]]].
    + split; [split|..]; try done; unfold appended, constructed, propagated, slept in *;
        simpl; rewrite ?omap_app; simpl; rewrite ?app_nil_r; try done.
      * rewrite first_seen_snoc, decide_True; [done|]. by rewrite <-Hfs, <-Hans.
      * apply Forall_app. split; [done|]. by apply Forall_singleton.
      * by apply lt_S_Forall.
    + unfold constructed. simpl. by rewrite omap_app.
  - assert (world_ok (record j [Constructed a; Appended a] w)) as Hw2.
    { rewrite record_two. apply world_ok_record; [done| |done].
      intros _ _. unfold allowed. rewrite view_record, decide_True by done.
      apply elem_of_app. right. by left. }
    split; [|split; [done|split; [by apply prefix_app_r|]]].
    + split; [split|..]; try done; unfold appended, constructed, propagated, slept in *;
        simpl; rewrite ?omap_app; simpl; rewrite ?app_nil_r, ?fmap_app; simpl; try done.
      * rewrite first_seen_snoc, decide_False; [by rewrite Hfs|].
        by rewrite <-Hfs, <-Hans.
      * apply Forall_app. split; [done|]. by apply Forall_singleton.
      * apply StronglySorted_app_2; [|done|by repeat constructor].
        intros i1 i2 Hi1 ->%list_elem_of_singleton.
        by eapply (proj1 (Forall_forall _ _) Hb).
      * by rewrite Hans.
      * apply Forall_app. split; [by apply lt_S_Forall|]. apply Forall_singleton. lia.
    + unfold constructed. simpl. by rewrite omap_app.
Qed.

(** The loop from session [j] on: the invariant holds at the end, every
    session is torn down when [browse] returns, and when it raises, the
    exception is the one recorded, with its origin. *)
Lemma browse_loop_spec sch t m : ∀ j w answers w' out,
  j + m = length (bonjour_queries w) →
  loop_inv t j w answers → all_done j w → cand_inv j w →
  browse_loop sch (seq j m) w answers = (w', out) →
  run_inv t w' ∧
  binding <$> bonjour_queries w' = binding <$> bonjour_queries w ∧
  log w `prefix_of` log w' ∧
  match out with
  | inr answers' =>
      loop_inv t (j + m) w' answers' ∧ all_done (j + m) w' ∧ cand_inv (j + m) w'
  | inl e =>
      ∃ k, k < j + m ∧ propagated (log w') = [(k, e)] ∧
        (TaskRaised e ∈ view k (log w') ∧ e ≠ CancelledError ∨
         async_cancel_result (teardown sch k) = Some e ∨
         async_close_result (teardown sch k) = Some e)
  end.
Proof.
  induction m as [|m IH]; intros j w answers w' out Hlen Hinv Hdone Hcand.
  { simpl. intros [= <- <-]. rewrite Nat.add_0_r.
    split; [by destruct Hinv|]. done. }
  simpl. destruct (bonjour_queries w !! j) as [q|] eqn:Hj; last first.
  { apply lookup_ge_None in Hj. lia. }
  destruct (collect j q w answers) as [w1 answers1] eqn:Hcollect.
  destruct (collect_spec _ _ _ _ _ _ _ Hj Hinv Hcollect) as (Hinv1 & Hq1 & Hp1 & Hc1).
  assert (bonjour_queries w1 !! j = Some q) as Hj1 by (by rewrite Hq1).
  destruct (teardown_session (teardown sch j) j q w1) as [w2 r] eqn:Htear.
  destruct (teardown_session_spec _ _ _ _ _ _ (run_ok _ _ (loop_run _ _ _ _ Hinv1)) Hj1 Htear)
    as [Hw2 Hr].
  destruct r as [e|].
  - intros [= <- <-]. destruct Hr as [(w0 & Hl0 & Hw0 & ->) Hcause].
    destruct (later_marked _ _ Hl0) as (_ & _ & Hprop & _).
    split; [|split; [|split]].
    + apply run_inv_propagated; [done|].
      apply (run_inv_later _ w1); [done|done|by destruct Hinv1].
    + destruct Hl0 as [Hb _]. simpl. by rewrite Hb, Hq1.
    + etrans; [exact Hp1|]. etrans; [by apply later_prefix|]. by apply prefix_app_r.
    + exists j. split; [lia|]. split.
      * pose proof (loop_quiet _ _ _ _ Hinv1) as Hquiet.
        unfold propagated in *. simpl. by rewrite omap_app, Hprop, Hquiet.
      * destruct Hcause as [[Hraised Hne]|Hcause]; [left; split; [|done]|by right].
        rewrite view_record, decide_True by done. apply elem_of_app. left.
        apply (later_view w1); [done|].
        destruct (run_ok _ _ (loop_run _ _ _ _ Hinv1) j q Hj1) as [Ht _ _].
        unfold task_inv in Ht. rewrite Hraised in Ht.
        destruct Ht as (_ & _ & n & Ht).
        assert (TaskRaised e ∈ task_trace (view j (log w1))) as Hin
          by (destruct Ht as [Ht|Ht]; rewrite Ht; set_solver).
        by apply elem_of_task_trace in Hin as [? _].
  - destruct Hr as (Hl2 & Hsteps & q2 & Hj2 & Htorn2 & Hcand2). intros Hloop.
    pose proof (proj1 Htorn2) as Hover2.
    assert (cand_inv (S j) w2) as Hcand'.
    { destruct Hcand as [Hcons Hover].
      destruct (later_candidates j w1 w2 Hl2) as [Hcs Hover'].
      { intros i qi Hi. rewrite Hq1. by apply Hover. }
      split.
      - rewrite (proj1 (later_marked _ _ Hl2)), Hc1, Hcons.
        rewrite (take_S_r _ _ _ Hj2). unfold candidates in *.
        by rewrite omap_app, Hcs, Hq1, <-Hcand2.
      - intros i qi Hi Hqi. destruct (decide (i = j)) as [->|].
        + by simplify_eq.
        + apply (Hover' i); [lia|done]. }
    assert (log w `prefix_of` log w2) as Hp2.
    { etrans; [exact Hp1|]. by apply later_prefix. }
    assert (binding <$> bonjour_queries w2 = binding <$> bonjour_queries w) as Hb2.
    { destruct Hl2 as [Hb _]. by rewrite Hb, Hq1. }
    destruct (IH (S j) w2 answers1 w' out) as (Hrun & Hb & Hp & Hout); try done.
    + rewrite (binding_length _ _ Hb2). lia.
    + by apply (loop_inv_later _ _ w1).
    + intros i Hi. destruct (decide (i = j)) as [->|]; [by eauto|].
      apply (all_done_later j w1); [done| |lia]. by apply (all_done_same j w).
    + split; [done|]. split; [by rewrite Hb|]. split; [by etrans|].
      by replace (j + S m) with (S j + m) by lia.
Qed.

(** ** Whole runs *)

Lemma view_created k service_name ips :
  view k (imap (λ i ip, Ev i (Created service_name ip)) ips) =
    match ips !! k with Some ip => [Created service_name ip] | None => [] end.
Proof.
  induction ips as [|ip ips IH] using rev_ind; [done|].
  rewrite imap_app, view_app, IH. cbn [imap]. rewrite Nat.add_0_r, view_cons.
  destruct (decide (length ips = k)) as [<-|Hne].
  - rewrite lookup_ge_None_2 by done. by rewrite list_lookup_middle.
  - destruct (decide (k < length ips)).
    + rewrite lookup_app_l by done. destruct (ips !! k); by rewrite ?app_nil_r.
    + rewrite !lookup_ge_None_2; [done|rewrite length_app; simpl; lia|lia].
Qed.

Lemma created_unmarked service_name ips :
  Forall (λ e, marked e = false) (imap (λ i ip, Ev i (Created service_name ip)) ips).
Proof.
  apply Forall_forall. intros e (i & ip & -> & _)%elem_of_lookup_imap. done.
Qed.

Lemma started_bindings service_name ips t :
  binding <$> bonjour_queries (started service_name ips t) =
    (λ ip, ([ip], [service_name], ip)) <$> ips.
Proof. simpl. rewrite <-list_fmap_compose. done. Qed.

Lemma started_inv service_name ips t : loop_inv t 0 (started service_name ips t) [].
Proof.
  destruct (unmarked_projections _ (created_unmarked service_name ips))
    as (Hc & Ha & Hp & Hs).
  assert (world_ok (started service_name ips t)) as Hw.
  { intros k q Hk. simpl in *. rewrite list_lookup_fmap in Hk.
    destruct (ips !! k) as [ip|] eqn:Hip; simplify_eq/=.
    rewrite view_app, view_created, Hip. apply listener_inv_init. }
  split; [split|..]; try done;
    unfold appended, constructed, propagated, slept in *; simpl;
    rewrite ?omap_app, ?Hc, ?Ha, ?Hp, ?Hs; try done; constructor.
Qed.

Lemma started_constructed service_name ips t :
  constructed (log (started service_name ips t)) = [].
Proof.
  destruct (unmarked_projections _ (created_unmarked service_name ips)) as (Hc & _).
  unfold constructed in *. simpl. by rewrite omap_app, Hc.
Qed.

Lemma browse_unfold service_name ips t sch :
  browse service_name ips t sch =
    browse_loop sch (seq 0 (length ips))
      (foldl deliver (started service_name ips t) (during_sleep sch)) [].
Proof. done. Qed.

(** Every run of [browse]. *)
Lemma browse_run service_name ips t sch w out :
  browse service_name ips t sch = (w, out) →
  run_inv t w ∧
  binding <$> bonjour_queries w = (λ ip, ([ip], [service_name], ip)) <$> ips ∧
  log (started service_name ips t) `prefix_of` log w ∧
  match out with
  | inr answers =>
      answers = (appended (log w)).*2 ∧ propagated (log w) = [] ∧
      all_done (length ips) w ∧
      constructed (log w) = candidates (bonjour_queries w)
  | inl e =>
      ∃ k, k < length ips ∧ propagated (log w) = [(k, e)] ∧
        (TaskRaised e ∈ view k (log w) ∧ e ≠ CancelledError ∨
         async_cancel_result (teardown sch k) = Some e ∨
         async_close_result (teardown sch k) = Some e)
  end.
Proof.
  rewrite browse_unfold. intros Hrun.
  set (w0 := started service_name ips t) in *.
  set (w1 := foldl deliver w0 (during_sleep sch)) in *.
  assert (later w0 w1) as Hl by apply later_foldl_deliver.
  assert (world_ok w1) as Hw1.
  { apply world_ok_foldl_deliver, (run_ok t), (loop_run t 0 _ []), started_inv. }
  assert (loop_inv t 0 w1 []) as Hinv.
  { apply (loop_inv_later _ _ w0); [done|done|apply started_inv]. }
  destruct Hl as [Hb Hmore].
  destruct (browse_loop_spec sch t (length ips) 0 w1 [] w out)
    as (Hr & Hb' & Hp & Hout); try done.
  { rewrite (binding_length _ _ Hb). simpl. by rewrite length_fmap. }
  { intros i Hi. lia. }
  { split; [|intros i q Hi; lia]. rewrite take_0.
    rewrite (proj1 (later_marked w0 w1 (later_foldl_deliver _ _))).
    apply started_constructed. }
  split; [done|]. split; [rewrite Hb', Hb; apply started_bindings|].
  split; [etrans; [|exact Hp]; by apply later_prefix|].
  destruct out as [e|answers]; [done|].
  destruct Hout as ([_ Hans _ Hq] & Hdone & Hcons & _).
  split; [done|]. split; [done|]. split; [done|].
  rewrite Hcons, take_ge; [done|].
  rewrite (binding_length _ _ Hb'), (binding_length _ _ Hb). simpl.
  by rewrite length_fmap.
Qed.

(** ** Deduplication and order of the result *)

Lemma first_seen_NoDup {A} `{EqDecision A} (l : list A) : NoDup l → first_seen l = l.
Proof.
  induction l as [|x l IH] using rev_ind; [done|].
  intros [Hl [Hx _]]%NoDup_app. rewrite first_seen_snoc, IH by done.
  rewrite decide_False; [done|]. intros Hin. apply (Hx x Hin). by left.
Qed.

Lemma appended_split pre k a post :
  appended (pre ++ Ev k (Appended a) :: post) = appended pre ++ (k, a) :: appended post.
Proof. unfold appended. by rewrite omap_app. Qed.

Lemma omap_cons {A B} (f : A → option B) x l :
  omap f (x :: l) = from_option (λ y, y :: omap f l) (omap f l) (f x).
Proof. done. Qed.

Lemma omap_length_le {A B} (f : A → option B) l : length (omap f l) ≤ length l.
Proof.
  induction l as [|x l IH]; [done|]. rewrite omap_cons.
  destruct (f x); simpl; lia.
Qed.

Lemma candidates_all qs :
  length (candidates qs) = length qs → candidates qs = answer_of ∘ listener <$> qs.
Proof.
  unfold candidates. induction qs as [|q qs IH]; [done|].
  rewrite omap_cons, fmap_cons.
  destruct (candidate q) as [a|] eqn:Hc; simpl.
  - intros Hlen. rewrite IH by lia. f_equal.
    unfold candidate in Hc. destruct (self_addresses (listener q)); by simplify_eq.
  - pose proof (omap_length_le candidate qs) as Hle. lia.
Qed.

(** C1: the list [browse] returns has no two equal entries: it is the
    answers of the sessions that have addresses, in session order, each
    kept at its first occurrence; and an answer is appended only when no
    equal answer was appended before. *)
Theorem browse_deduplicates service_name addrs t sch w answers :
  browse service_name addrs t sch = (w, inr answers) →
  NoDup answers ∧
  answers = first_seen (candidates (bonjour_queries w)) ∧
  Forall (λ a, ips a ≠ []) answers ∧
  (∀ a, a ∈ answers ↔ a ∈ candidates (bonjour_queries w)) ∧
  answers = (appended (log w)).*2 ∧
  ∀ pre k a post,
    log w = pre ++ Ev k (Appended a) :: post → a ∉ (appended pre).*2.
Proof.
  intros Hrun.
  destruct (browse_run _ _ _ _ _ _ Hrun) as ([_ Hfs Hne _ _] & _ & _ & Hans & _ & _ & Hc).
  assert (answers = first_seen (candidates (bonjour_queries w))) as Heq
    by (by rewrite Hans, Hfs, Hc).
  assert (NoDup answers) as Hnd by (rewrite Heq; apply NoDup_first_seen).
  split; [done|]. split; [done|]. split; [|split; [|split; [done|]]].
  - apply Forall_forall. intros a Ha.
    rewrite Heq, elem_of_first_seen, <-Hc in Ha.
    by apply (proj1 (Forall_forall _ _) Hne).
  - intros a. by rewrite Heq, elem_of_first_seen.
  - intros pre k a post Hlog. rewrite Hans, Hlog, appended_split, fmap_app in Hnd.
    apply NoDup_app in Hnd as (_ & Hnd & _). intros Hin. apply (Hnd a Hin). by left.
Qed.

(** C2: the result follows the order of the interface list: session [k]
    is the one bound to the [k]-th interface, answers are appended by
    increasing session number, and the result is the first occurrences of
    the sessions' answers taken in session order, whatever the order in
    which the sessions resolved; when every session has an answer and the
    answers are distinct, the result is exactly one answer per interface,
    in interface order. *)
Theorem browse_keeps_interface_order service_name addrs t sch w answers :
  browse service_name addrs t sch = (w, inr answers) →
  binding <$> bonjour_queries w = (λ ip, ([ip], [service_name], ip)) <$> addrs ∧
  answers = first_seen (candidates (bonjour_queries w)) ∧
  answers = (appended (log w)).*2 ∧
  StronglySorted lt (appended (log w)).*1 ∧
  (length (candidates (bonjour_queries w)) = length addrs →
   NoDup (candidates (bonjour_queries w)) →
   answers = answer_of ∘ listener <$> bonjour_queries w).
Proof.
  intros Hrun.
  destruct (browse_run _ _ _ _ _ _ Hrun)
    as ([_ Hfs _ Hso _] & Hb & _ & Hans & _ & _ & Hc).
  assert (answers = first_seen (candidates (bonjour_queries w))) as Heq
    by (by rewrite Hans, Hfs, Hc).
  split; [done|]. split; [done|]. split; [done|]. split; [done|].
  intros Hlen Hnd. rewrite Heq, first_seen_NoDup by done.
  apply candidates_all. rewrite Hlen, <-(length_fmap binding), Hb.
  by rewrite length_fmap.
Qed.

(** ** Teardown *)

Lemma close_twice self :
  (∀ e, self_querying_task self = Raised e → e = CancelledError) →
  raises (close self) = None ∧
  close (closed_self (close self)) =
    {| closed_self := closed_self (close self); suspends := false; raises := None |}.
Proof.
  intros Hraised. unfold close.
  destruct (self_querying_task self) as [| | | |e] eqn:Ht; simpl; rewrite ?Ht; try done.
  pose proof (Hraised e eq_refl) as ->. done.
Qed.

Lemma elem_of_propagated k e lg : (k, e) ∈ propagated lg ↔ Ev k (Propagated e) ∈ lg.
Proof.
  unfold propagated. rewrite list_elem_of_omap. split.
  - intros ([j []|] & Hin & Heq); by simplify_eq.
  - intros Hin. by exists (Ev k (Propagated e)).
Qed.

(** C6: in every run and every session, [async_close] on the client comes
    after [async_cancel] on the browser, which comes after the end of
    [await querying_task], which comes after [querying_task.cancel()];
    after that [cancel()] the task does nothing any more; and
    CancelledError never leaves [close]: an exception that leaves [browse]
    while a session is torn down is CancelledError only if a library call
    raised it. *)
Theorem task_joined_before_client_closed service_name addrs t sch w out k :
  browse service_name addrs t sch = (w, out) → k < length addrs →
  (∀ pre post, view k (log w) = pre ++ ClientClosed :: post →
     BrowserCancelled ∈ pre ∧ TaskJoined ∈ pre ∧ TaskCancel ∈ pre) ∧
  (∀ pre post, view k (log w) = pre ++ BrowserCancelled :: post →
     TaskJoined ∈ pre ∧ TaskCancel ∈ pre) ∧
  (∀ pre post, view k (log w) = pre ++ TaskJoined :: post → TaskCancel ∈ pre) ∧
  (∀ pre post a, view k (log w) = pre ++ TaskCancel :: post →
     a ∈ post → task_activity a = false) ∧
  (∀ self, raises (close self) ≠ Some CancelledError) ∧
  (Ev k (Propagated CancelledError) ∈ log w →
     async_cancel_result (teardown sch k) = Some CancelledError ∨
     async_close_result (teardown sch k) = Some CancelledError).
Proof.
  intros Hrun Hk.
  destruct (browse_run _ _ _ _ _ _ Hrun) as ([Hw _ _ _ _] & Hb & _ & Hout).
  assert (is_Some (bonjour_queries w !! k)) as [q Hq].
  { apply lookup_lt_is_Some. by rewrite <-(length_fmap binding), Hb, length_fmap. }
  destruct (Hw k q Hq) as [_ _ Hok].
  assert (∀ pre post, view k (log w) = pre ++ TaskJoined :: post → TaskCancel ∈ pre)
    as Hjoin by (intros pre post Heq; exact (Hok _ _ _ Heq)).
  assert (∀ pre post, view k (log w) = pre ++ BrowserCancelled :: post →
            TaskJoined ∈ pre ∧ TaskCancel ∈ pre) as Hcancel.
  { intros pre post Heq. pose proof (Hok _ _ _ Heq) as Hj. simpl in Hj.
    split; [done|]. apply list_elem_of_split in Hj as (p1 & p2 & ->).
    rewrite <-app_assoc in Heq. apply Hjoin in Heq.
    apply elem_of_app. by left. }
  split; [|split; [done|split; [done|split; [|split]]]].
  - intros pre post Heq. pose proof (Hok _ _ _ Heq) as Hb'. simpl in Hb'.
    split; [done|]. apply list_elem_of_split in Hb' as (p1 & p2 & ->).
    rewrite <-app_assoc in Heq. apply Hcancel in Heq as [? ?].
    split; apply elem_of_app; by left.
  - intros pre post a Heq (p1 & p2 & ->)%list_elem_of_split.
    change (TaskCancel :: p1 ++ a :: p2) with ((TaskCancel :: p1) ++ a :: p2) in Heq.
    rewrite app_assoc in Heq. pose proof (Hok _ _ _ Heq) as Ha.
    assert (TaskCancel ∈ pre ++ TaskCancel :: p1) as Hin by set_solver.
    destruct a; try done; by destruct Ha.
  - intros self Hraise. by apply close_raises in Hraise as [_ ?].
  - intros Hin%elem_of_propagated. destruct out as [e|answers].
    + destruct Hout as (k' & _ & Hp & Hcause). rewrite Hp in Hin.
      apply list_elem_of_singleton in Hin. simplify_eq.
      destruct Hcause as [[_ Hne]|Hcause]; done.
    + destruct Hout as (_ & Hp & _). rewrite Hp in Hin. by apply elem_of_nil in Hin.
Qed.

(** ** One notification per listener *)

Lemma task_trace_shape l tr :
  listener_inv l tr →
  task_trace tr = [] ∨
  ∃ n, task_trace tr = [Dequeued n; request_of n] ∨
       (∃ service_info,
          task_trace tr = [Dequeued n; request_of n; Populated service_info]) ∨
       (∃ e, task_trace tr = [Dequeued n; request_of n; TaskRaised e]) ∨
       ∃ e, task_trace tr = [Dequeued n; TaskRaised e].
Proof.
  intros [Ht _ _]. unfold task_inv in Ht.
  destruct (self_querying_task l); naive_solver.
Qed.

Lemma task_trace_nil a tr : task_trace tr = [] → task_activity a = true → a ∉ tr.
Proof.
  intros Hnil Ha Hin. assert (a ∈ task_trace tr) as Hin' by (by apply elem_of_task_trace).
  rewrite Hnil in Hin'. by apply elem_of_nil in Hin'.
Qed.

Lemma populated_returned l tr service_info :
  listener_inv l tr → Populated service_info ∈ tr →
  self_querying_task l = Returned ∧ stored l service_info ∧
  ∃ n, task_trace tr = [Dequeued n; request_of n; Populated service_info].
Proof.
  intros [Ht _ _] Hin. unfold task_inv in Ht.
  assert (Populated service_info ∈ task_trace tr) as Hin'
    by (by apply elem_of_task_trace).
  destruct (self_querying_task l).
  - destruct Ht as (Ht & _). rewrite Ht in Hin'. absurd_member Hin'.
  - destruct Ht as (Ht & _). rewrite Ht in Hin'. absurd_member Hin'.
  - destruct Ht as (n & info & Ht & Hst). rewrite Ht in Hin'.
    assert (info = service_info) as ->.
    { unfold request_of in Hin'.
      repeat (apply elem_of_cons in Hin' as [?|Hin']; [by simplify_eq|]).
      by apply elem_of_nil in Hin'. }
    split; [done|]. split; [done|]. by exists n.
  - destruct Ht as (_ & [Ht|(n & [Ht|[Ht|Ht]])]); rewrite Ht in Hin'; absurd_member Hin'.
  - destruct Ht as (_ & _ & n & [Ht|Ht]); rewrite Ht in Hin'; absurd_member Hin'.
Qed.


(** C8: a session that was never notified, or whose request neither
    returned nor raised, has no addresses; [browse] builds and appends no
    answer for it; closing its listener does not raise; and an exception
    that leaves [browse] while this session is torn down comes from one of
    the two library calls of the teardown, not from the listener. *)
Theorem unresolved_session_is_silent service_name addrs t sch w out k q :
  browse service_name addrs t sch = (w, out) →
  bonjour_queries w !! k = Some q →
  (∀ n, Notified n ∉ view k (log w)) ∨
  ((∀ service_info, Populated service_info ∉ view k (log w)) ∧
   ∀ e, TaskRaised e ∉ view k (log w)) →
  self_addresses (listener q) = [] ∧
  candidate q = None ∧
  (∀ a, Constructed a ∉ view k (log w) ∧ Appended a ∉ view k (log w)) ∧
  raises (close (listener q)) = None ∧
  (∀ e, Ev k (Propagated e) ∈ log w →
     async_cancel_result (teardown sch k) = Some e ∨
     async_close_result (teardown sch k) = Some e).
Proof.
  intros Hrun Hq Hcase.
  destruct (browse_run _ _ _ _ _ _ Hrun) as ([Hw _ _ _ _] & _ & _ & Hout).
  pose proof (Hw k q Hq) as Hinv.
  assert ((∀ service_info, Populated service_info ∉ view k (log w)) ∧
          ∀ e, TaskRaised e ∉ view k (log w)) as [Hpop Hraise].
  { destruct Hcase as [Hnone|?]; [|done].
    assert (notified (view k (log w)) = []) as Hn.
    { destruct (notified (view k (log w))) as [|n ns] eqn:Hn; [done|].
      assert (n ∈ notified (view k (log w))) as Hin by (rewrite Hn; by left).
      apply list_elem_of_omap in Hin as (a & Ha & Heq).
      destruct (Hnone n). destruct a; by simplify_eq. }
    assert (dequeued (task_trace (view k (log w))) = []) as Hd.
    { rewrite dequeued_task_trace. rewrite (inv_queue _ _ Hinv) in Hn.
      by apply app_eq_nil in Hn as [? _]. }
    destruct (task_trace_shape _ _ Hinv)
      as [Hnil|(n & [Htr|[(service_info & Htr)|[(e & Htr)|(e & Htr)]]])];
      try (by rewrite Htr in Hd).
    split; intros ?; by apply task_trace_nil. }
  assert (self_addresses (listener q) = []) as Haddr.
  { destruct (self_addresses (listener q)) eqn:Hl; [done|].
    destruct (resolved_populated _ _ Hinv) as (_ & service_info & Hin & _);
      [by rewrite Hl|]. by destruct (Hpop service_info). }
  assert (∀ a, Constructed a ∉ view k (log w)) as Hcons.
  { intros a (pre & post & Heq)%list_elem_of_split.
    destruct (inv_order _ _ Hinv _ _ _ Heq) as [service_info Hin].
    apply (Hpop service_info). rewrite Heq. apply elem_of_app. by left. }
  split; [done|]. split; [unfold candidate; by rewrite Haddr|].
  split; [|split].
  - intros a. split; [done|]. intros (pre & post & Heq)%list_elem_of_split.
    pose proof (inv_order _ _ Hinv _ _ _ Heq) as Hallow. simpl in Hallow.
    apply (Hcons a). rewrite Heq. apply elem_of_app. by left.
  - destruct (raises (close (listener q))) as [e|] eqn:Hc; [|done].
    apply close_raises in Hc as [Ht _]. destruct Hinv as [Hti _ _].
    unfold task_inv in Hti. rewrite Ht in Hti.
    destruct Hti as (_ & _ & n & [Htr|Htr]);
      destruct (Hraise e); eapply elem_of_task_trace; rewrite Htr; set_solver.
  - intros e Hin%elem_of_propagated. destruct out as [e'|answers].
    + destruct Hout as (k' & _ & Hp & Hcause). rewrite Hp in Hin.
      apply list_elem_of_singleton in Hin. simplify_eq.
      destruct Hcause as [[Hr _]|Hcause]; [by destruct (Hraise e')|done].
    + destruct Hout as (_ & Hp & _). rewrite Hp in Hin. by apply elem_of_nil in Hin.
Qed.

(** ** What a resolved listener holds *)

Lemma run_binding service_name addrs t sch w out k q :
  browse service_name addrs t sch = (w, out) →
  bonjour_queries w !! k = Some q →
  addrs !! k = Some (self_ip (listener q)) ∧
  interfaces (zc q) = [self_ip (listener q)] ∧
  types (service_browser q) = [service_name].
Proof.
  intros Hrun Hq. destruct (browse_run _ _ _ _ _ _ Hrun) as (_ & Hb & _).
  assert ((binding <$> bonjour_queries w) !! k = Some (binding q)) as Hk
    by (by rewrite list_lookup_fmap, Hq).
  rewrite Hb, list_lookup_fmap in Hk.
  destruct (addrs !! k) as [ip|]; [|done]. unfold binding in Hk. by simplify_eq/=.
Qed.

Lemma candidate_in_result service_name addrs t sch w answers k q :
  browse service_name addrs t sch = (w, inr answers) →
  bonjour_queries w !! k = Some q →
  self_addresses (listener q) ≠ [] →
  answer_of (listener q) ∈ answers.
Proof.
  intros Hrun Hq Ha.
  destruct (browse_run _ _ _ _ _ _ Hrun) as ([_ Hfs _ _ _] & _ & _ & Hans & _ & _ & Hc).
  rewrite Hans, Hfs, Hc, elem_of_first_seen. apply list_elem_of_omap.
  exists q. split; [by eapply list_elem_of_lookup_2|].
  unfold candidate. by destruct (self_addresses (listener q)).
Qed.

(** C4: in every run, the listener of a session whose resolution has
    completed holds the IPv4 literals of the resolved record as they are
    (no ['%'] in them), followed by its IPv6 literals.  IPv6 literals are
    there only when the address the session is bound to contains ['%'];
    they all carry the same suffix, [%] and the piece of the bound address
    that follows its first ['%']; for a bound address [addr%zone] that is
    [%zone], the suffix the bound address ends in.  When [browse] returns
    and the list is not empty, it is the [ips] of an answer of the
    result. *)
Theorem resolved_addresses_carry_zone service_name addrs t sch w out k q service_info :
  browse service_name addrs t sch = (w, out) →
  bonjour_queries w !! k = Some q →
  Populated service_info ∈ view k (log w) →
  ∃ ip ipv6,
    addrs !! k = Some ip ∧ interfaces (zc q) = [ip] ∧ self_ip (listener q) = ip ∧
    self_addresses (listener q) =
      (inet_ntop_AF_INET <$> ip_addresses_V4Only service_info) ++ ipv6 ∧
    Forall (λ literal, contains "%" literal = false)
      (inet_ntop_AF_INET <$> ip_addresses_V4Only service_info) ∧
    (ipv6 ≠ [] → contains "%" ip = true) ∧
    (contains "%" ip = true →
     ∃ zone, split "%" ip !! 1 = Some zone ∧
       ipv6 = (λ a, inet_ntop_AF_INET6 a +:+ "%" +:+ zone)
                <$> ip_addresses_V6Only service_info) ∧
    (∀ addr zone,
       ip = addr +:+ "%" +:+ zone →
       contains "%" addr = false → contains "%" zone = false →
       ends_with ("%" +:+ zone) ip ∧
       ipv6 = (λ a, inet_ntop_AF_INET6 a +:+ "%" +:+ zone)
                <$> ip_addresses_V6Only service_info ∧
       Forall (ends_with ("%" +:+ zone)) ipv6) ∧
    (∀ answers, out = inr answers → self_addresses (listener q) ≠ [] →
       ∃ answer, answer ∈ answers ∧ ips answer = self_addresses (listener q)).
Proof.
  intros Hrun Hq Hpop.
  destruct (browse_run _ _ _ _ _ _ Hrun) as ([Hw _ _ _ _] & _).
  destruct (run_binding _ _ _ _ _ _ _ _ Hrun Hq) as (Hip & Hzc & _).
  destruct (populated_returned _ _ _ (Hw k q Hq) Hpop) as (_ & (l' & Hs & Ha) & _).
  destruct (query_addresses_store_addresses (listener q) service_info)
    as (self' & ipv6 & Hs' & Haddr & Hv4 & Hv6 & Hzone & Hscoped).
  rewrite Hs in Hs'. injection Hs' as <-.
  assert (self_addresses l' = self_addresses (listener q)) as Heq by (by injection Ha).
  exists (self_ip (listener q)), ipv6. rewrite <-Heq.
  repeat (split; [done|]).
  intros answers -> Hne. exists (answer_of (listener q)). split; [|by rewrite Heq].
  eapply candidate_in_result; [done|done|by rewrite <-Heq].
Qed.

(** C10: in every run, the listener of a session bound to an address
    without ['%'], once its resolution has completed, holds exactly the
    IPv4 literals of the resolved record: one entry per IPv4 address, none
    for the IPv6 addresses of the record, and the task has ended normally. *)
Theorem unscoped_session_keeps_ipv4_only service_name addrs t sch w out k q service_info :
  browse service_name addrs t sch = (w, out) →
  bonjour_queries w !! k = Some q →
  contains "%" (self_ip (listener q)) = false →
  Populated service_info ∈ view k (log w) →
  addrs !! k = Some (self_ip (listener q)) ∧
  self_addresses (listener q) = inet_ntop_AF_INET <$> ip_addresses_V4Only service_info ∧
  length (self_addresses (listener q)) = length (ip_addresses_V4Only service_info) ∧
  Forall (λ literal, contains "%" literal = false) (self_addresses (listener q)) ∧
  self_querying_task (listener q) = Returned.
Proof.
  intros Hrun Hq Hc Hpop.
  destruct (browse_run _ _ _ _ _ _ Hrun) as ([Hw _ _ _ _] & _).
  destruct (run_binding _ _ _ _ _ _ _ _ Hrun Hq) as (Hip & _).
  destruct (populated_returned _ _ _ (Hw k q Hq) Hpop) as (Ht & (l' & Hs & Ha) & _).
  pose proof (query_addresses_store_unscoped _ _ _ Hc Hs) as Haddr.
  assert (self_addresses l' = self_addresses (listener q)) as Heq by (by injection Ha).
  rewrite <-Heq, Haddr. split; [done|]. split; [done|].
  split; [by rewrite length_fmap|]. split; [|done].
  apply Forall_fmap, Forall_true. intros a. apply inet_ntop_AF_INET_no_percent.
Qed.

(** ** The entry points *)

(** C9: [browse_remoted] scans the IPv6 interface list with service type
    ["_remoted._tcp.local."], [browse_mobdev2] the IPv4 list with
    ["_apple-mobdev2._tcp.local."], [browse_remotepairing] the IPv4 list
    with ["_remotepairing-manual-pairing._tcp.local."]: one session per
    address of the list, bound to that address and browsing that type;
    and each sleeps for the caller's timeout, once. *)
Theorem entry_points_bind_service_types host t sch :
  (∀ addrs w out,
     get_ipv6_ips host = inr addrs → browse_remoted host t sch = (w, out) →
     binding <$> bonjour_queries w
       = (λ ip, ([ip], ["_remoted._tcp.local."], ip)) <$> addrs ∧
     log (started "_remoted._tcp.local." addrs t) `prefix_of` log w ∧
     slept (log w) = [t]) ∧
  (∀ w out,
     browse_mobdev2 host t sch = (w, out) →
     binding <$> bonjour_queries w
       = (λ ip, ([ip], ["_apple-mobdev2._tcp.local."], ip)) <$> browse_ipv4_ips host ∧
     log (started "_apple-mobdev2._tcp.local." (browse_ipv4_ips host) t)
       `prefix_of` log w ∧
     slept (log w) = [t]) ∧
  (∀ w out,
     browse_remotepairing host t sch = (w, out) →
     binding <$> bonjour_queries w
       = (λ ip, ([ip], ["_remotepairing-manual-pairing._tcp.local."], ip))
           <$> browse_ipv4_ips host ∧
     log (started "_remotepairing-manual-pairing._tcp.local." (browse_ipv4_ips host) t)
       `prefix_of` log w ∧
     slept (log w) = [t]).
Proof.
  split; [|split].
  - intros addrs w out Hips. unfold browse_remoted, browse_ipv6. rewrite Hips.
    intros Hrun. destruct (browse_run _ _ _ _ _ _ Hrun) as ([_ _ _ _ Hs] & Hb & Hp & _).
    done.
  - intros w out Hrun.
    destruct (browse_run _ _ _ _ _ _ Hrun) as ([_ _ _ _ Hs] & Hb & Hp & _). done.
  - intros w out Hrun.
    destruct (browse_run _ _ _ _ _ _ Hrun) as ([_ _ _ _ Hs] & Hb & Hp & _). done.
Qed.

(** * Further properties *)

(** ** The interface lists, entry by entry *)

(** Off Windows, [get_ipv6_ips] does not raise, and its entries are exactly
    the literals [address%nice_name] for the IPv6 addresses of the adapters
    other than [::1] and [fe80::1]; the scope id of an address plays no
    part. *)
Theorem get_ipv6_ips_lists_named_zones host :
  sys_platform host ≠ "win32" →
  ∃ l, get_ipv6_ips host = inr l ∧
    ∀ literal, literal ∈ l ↔
      ∃ adapter address flowinfo scope_id,
        adapter ∈ get_adapters host ∧
        {| ifaddr.ip := ifaddr.ip_tuple address flowinfo scope_id |} ∈ ifaddr.ips adapter ∧
        address ≠ "::1" ∧ address ≠ "fe80::1" ∧
        literal = address +:+ "%" +:+ ifaddr.nice_name adapter.
Proof.
  intros Hp. unfold get_ipv6_ips. rewrite decide_False by done.
  eexists. split; [done|]. intros literal. rewrite list_elem_of_bind. split.
  - intros (adapter & Hin & Had).
    apply list_elem_of_bind in Hin as ([x] & Hin & Hx).
    unfold ifaddr.is_IPv6 in Hin. simpl in Hin.
    destruct x as [|address flowinfo scope_id]; [by apply elem_of_nil in Hin|].
    destruct (decide (address ∈ ["::1"; "fe80::1"])) as [|Hne];
      [by apply elem_of_nil in Hin|].
    apply list_elem_of_singleton in Hin.
    exists adapter, address, flowinfo, scope_id.
    repeat split; try done; intros ->; apply Hne; set_solver.
  - intros (adapter & address & flowinfo & scope_id & Had & Hx & H1 & H2 & ->).
    exists adapter. split; [|done]. apply list_elem_of_bind.
    eexists. split; [|exact Hx]. unfold ifaddr.is_IPv6. simpl.
    rewrite decide_False; [by left|]. intros Hin. absurd_member Hin.
Qed.

Lemma get_ipv6_ips_win32_raises adapters e :
  get_ipv6_ips_win32 adapters = inl e →
  e = IndexError ∧ ∃ adapter, adapter ∈ adapters ∧ ifaddr.ips adapter = [].
Proof.
  induction adapters as [|adapter rest IH]; [done|]. simpl.
  destruct (ifaddr.ips adapter) as [|first others] eqn:Hips; simpl.
  { intros [= <-]. split; [done|]. exists adapter. split; [by left|done]. }
  destruct (get_ipv6_ips_win32 rest) as [e'|tail].
  - intros [= <-]. destruct (IH eq_refl) as (-> & a & Ha & Hnil).
    split; [done|]. exists a. split; [by right|done].
  - unfold ifaddr.is_IPv6. by destruct (ifaddr.ip first).
Qed.

Lemma get_ipv6_ips_win32_empty_adapter adapters adapter :
  adapter ∈ adapters → ifaddr.ips adapter = [] →
  get_ipv6_ips_win32 adapters = inl IndexError.
Proof.
  intros Hin Hnil. induction adapters as [|a rest IH]; [by apply elem_of_nil in Hin|].
  simpl. apply elem_of_cons in Hin as [<-|Hin]; [by rewrite Hnil|].
  rewrite (IH Hin). by destruct (ifaddr.ips a !! 0).
Qed.

Lemma get_ipv6_ips_win32_entries adapters l :
  get_ipv6_ips_win32 adapters = inr l →
  length l ≤ length adapters ∧
  ∀ literal, literal ∈ l ↔
    ∃ adapter address flowinfo scope_id others,
      adapter ∈ adapters ∧
      ifaddr.ips adapter
        = {| ifaddr.ip := ifaddr.ip_tuple address flowinfo scope_id |} :: others ∧
      literal = address +:+ "%" +:+ pretty scope_id.
Proof.
  revert l. induction adapters as [|adapter rest IH]; intros l.
  { intros [= <-]. split; [done|]. intros literal. split.
    - by intros ?%elem_of_nil.
    - by intros (? & ? & ? & ? & ? & ?%elem_of_nil & _). }
  simpl. destruct (ifaddr.ips adapter) as [|[x] others] eqn:Hips; [done|]. simpl.
  destruct (get_ipv6_ips_win32 rest) as [e'|tail]; [done|].
  destruct (IH tail eq_refl) as [Hlen Hin].
  unfold ifaddr.is_IPv6. simpl. destruct x as [address|address flowinfo scope_id].
  - intros [= <-]. split; [lia|]. intros literal. rewrite Hin. split.
    + intros (a & ? & ? & ? & ? & Ha & ?). exists a. eexists _, _, _, _.
      split; [by right|done].
    + intros (a & ? & ? & ? & ? & [->|Ha]%elem_of_cons & Hfirst & Hlit).
      * rewrite Hips in Hfirst. done.
      * exists a. by eexists _, _, _, _.
  - intros [= <-]. split; [simpl; lia|]. intros literal.
    rewrite elem_of_cons, Hin. split.
    + intros [->|(a & ? & ? & ? & ? & Ha & ?)].
      * exists adapter, address, flowinfo, scope_id, others. split; [by left|done].
      * exists a. eexists _, _, _, _. split; [by right|done].
    + intros (a & ? & ? & ? & ? & [->|Ha]%elem_of_cons & Hfirst & Hlit).
      * rewrite Hips in Hfirst. left. by simplify_eq.
      * right. exists a. by eexists _, _, _, _.
Qed.

(** On Windows, [get_ipv6_ips] looks at the first address of every adapter
    only.  It raises IndexError exactly when some adapter has no address
    at all, and raises nothing else; [browse_ipv6] then raises it before
    any session is created.  Otherwise its entries are the literals
    [address%scope_id] of the adapters whose first address is an IPv6
    one, at most one per adapter. *)
Theorem get_ipv6_ips_win32_first_address_only host :
  sys_platform host = "win32" →
  (∀ e, get_ipv6_ips host = inl e → e = IndexError) ∧
  (get_ipv6_ips host = inl IndexError ↔
     ∃ adapter, adapter ∈ get_adapters host ∧ ifaddr.ips adapter = []) ∧
  (∀ adapter service_name t sch,
     adapter ∈ get_adapters host → ifaddr.ips adapter = [] →
     browse_ipv6 host service_name t sch
       = ({| bonjour_queries := []; log := [] |}, inl IndexError)) ∧
  (∀ l, get_ipv6_ips host = inr l →
     length l ≤ length (get_adapters host) ∧
     ∀ literal, literal ∈ l ↔
       ∃ adapter address flowinfo scope_id others,
         adapter ∈ get_adapters host ∧
         ifaddr.ips adapter
           = {| ifaddr.ip := ifaddr.ip_tuple address flowinfo scope_id |} :: others ∧
         literal = address +:+ "%" +:+ pretty scope_id).
Proof.
  intros Hp. unfold browse_ipv6, get_ipv6_ips. rewrite decide_True by done.
  split; [|split; [|split]].
  - intros e He. by apply get_ipv6_ips_win32_raises in He as [? _].
  - split.
    + intros He. by apply get_ipv6_ips_win32_raises in He as [_ ?].
    + intros (adapter & Hin & Hnil). by eapply get_ipv6_ips_win32_empty_adapter.
  - intros adapter service_name t sch Hin Hnil.
    by rewrite (get_ipv6_ips_win32_empty_adapter _ _ Hin Hnil).
  - apply get_ipv6_ips_win32_entries.
Qed.

Lemma browse_ipv4_ips_entries host address :
  address ∈ browse_ipv4_ips host ↔
    address ≠ "127.0.0.1" ∧
    ∃ adapter, adapter ∈ get_adapters host ∧
      {| ifaddr.ip := ifaddr.ip_str address |} ∈ ifaddr.ips adapter.
Proof.
  unfold browse_ipv4_ips. rewrite list_elem_of_bind. split.
  - intros (adapter & Hin & Had).
    apply list_elem_of_bind in Hin as ([x] & Hin & Hx). simpl in Hin.
    destruct (decide (x = ifaddr.ip_str "127.0.0.1")) as [|Hne];
      [by apply elem_of_nil in Hin|].
    unfold ifaddr.is_IPv4 in Hin. simpl in Hin.
    destruct x as [a|]; [|by apply elem_of_nil in Hin].
    apply list_elem_of_singleton in Hin as ->.
    split; [congruence|]. by exists adapter.
  - intros (Hne & adapter & Had & Hx). exists adapter. split; [|done].
    apply list_elem_of_bind. eexists. split; [|exact Hx]. simpl.
    rewrite decide_False by congruence. by left.
Qed.

Lemma run_sessions service_name addrs t sch w out :
  browse service_name addrs t sch = (w, out) →
  length (bonjour_queries w) = length addrs.
Proof.
  intros Hrun. destruct (browse_run _ _ _ _ _ _ Hrun) as (_ & Hb & _).
  by rewrite <-(length_fmap binding), Hb, length_fmap.
Qed.

(** On every platform, the sessions of [browse_ipv4] are bound, one each,
    to the addresses that [ifaddr] reports as IPv4 ones (a [str]), except
    [127.0.0.1]: no session is bound to anything else, and none of these
    addresses is left without a session. *)
Theorem browse_ipv4_binds_ipv4_addresses host service_name t sch w out :
  browse_ipv4 host service_name t sch = (w, out) →
  (∀ k q, bonjour_queries w !! k = Some q →
     interfaces (zc q) = [self_ip (listener q)] ∧
     self_ip (listener q) ≠ "127.0.0.1" ∧
     ∃ adapter, adapter ∈ get_adapters host ∧
       {| ifaddr.ip := ifaddr.ip_str (self_ip (listener q)) |} ∈ ifaddr.ips adapter) ∧
  (∀ adapter address,
     adapter ∈ get_adapters host →
     {| ifaddr.ip := ifaddr.ip_str address |} ∈ ifaddr.ips adapter →
     address ≠ "127.0.0.1" →
     ∃ k q, bonjour_queries w !! k = Some q ∧ self_ip (listener q) = address).
Proof.
  unfold browse_ipv4. intros Hrun. split.
  - intros k q Hq. destruct (run_binding _ _ _ _ _ _ _ _ Hrun Hq) as (Hip & Hzc & _).
    split; [done|]. apply browse_ipv4_ips_entries. by eapply list_elem_of_lookup_2.
  - intros adapter address Had Hx Hne.
    assert (address ∈ browse_ipv4_ips host) as Hin.
    { apply browse_ipv4_ips_entries. split; [done|]. by exists adapter. }
    apply list_elem_of_lookup_1 in Hin as [k Hk].
    assert (is_Some (bonjour_queries w !! k)) as [q Hq].
    { apply lookup_lt_is_Some. rewrite (run_sessions _ _ _ _ _ _ Hrun).
      by eapply lookup_lt_Some. }
    exists k, q. split; [done|].
    destruct (run_binding _ _ _ _ _ _ _ _ Hrun Hq) as (Hip & _). congruence.
Qed.

Lemma scoped_literal address zone : contains "%" (address +:+ "%" +:+ zone) = true.
Proof.
  rewrite contains_app. change ("%" +:+ zone) with (String "%" zone). simpl.
  by rewrite orb_true_r.
Qed.

Lemma get_ipv6_ips_win32_scoped adapters l :
  get_ipv6_ips_win32 adapters = inr l → Forall (λ literal, contains "%" literal = true) l.
Proof.
  revert l. induction adapters as [|adapter rest IH]; intros l; [by intros [= <-]|].
  simpl. destruct (ifaddr.ips adapter !! 0) as [[x]|]; [|done].
  destruct (get_ipv6_ips_win32 rest) as [e|tail]; [done|].
  specialize (IH tail eq_refl). unfold ifaddr.is_IPv6. simpl.
  destruct x; intros [= <-]; [done|]. constructor; [apply scoped_literal|done].
Qed.

(** Every entry of the IPv6 interface list holds a ['%'], on either
    platform. *)
Lemma get_ipv6_ips_scoped host l :
  get_ipv6_ips host = inr l → Forall (λ literal, contains "%" literal = true) l.
Proof.
  unfold get_ipv6_ips. destruct (decide (sys_platform host = "win32")).
  { apply get_ipv6_ips_win32_scoped. }
  intros [= <-]. apply Forall_forall. intros literal Hin.
  apply list_elem_of_bind in Hin as (adapter & Hin & _).
  apply list_elem_of_bind in Hin as ([x] & Hin & _).
  unfold ifaddr.is_IPv6 in Hin. simpl in Hin.
  destruct x as [|address flowinfo scope_id]; [by apply elem_of_nil in Hin|].
  destruct (decide (address ∈ ["::1"; "fe80::1"])); [by apply elem_of_nil in Hin|].
  apply list_elem_of_singleton in Hin as ->. apply scoped_literal.
Qed.

(** ** What a scan reports *)

(** Every session of [browse_ipv6] is bound to an address that holds a
    ['%'], so a resolved record loses nothing there: the listener holds
    one literal per IPv4 address and one per IPv6 address of the record,
    the latter with the zone of the bound address. *)
Theorem browse_ipv6_keeps_both_families host service_name t sch w out k q :
  browse_ipv6 host service_name t sch = (w, out) →
  bonjour_queries w !! k = Some q →
  contains "%" (self_ip (listener q)) = true ∧
  ∀ service_info, Populated service_info ∈ view k (log w) →
    ∃ zone, split "%" (self_ip (listener q)) !! 1 = Some zone ∧
      self_addresses (listener q) =
        (inet_ntop_AF_INET <$> ip_addresses_V4Only service_info) ++
        ((λ a, inet_ntop_AF_INET6 a +:+ "%" +:+ zone) <$> ip_addresses_V6Only service_info) ∧
      length (self_addresses (listener q)) =
        length (ip_addresses_V4Only service_info) + length (ip_addresses_V6Only service_info).
Proof.
  unfold browse_ipv6. destruct (get_ipv6_ips host) as [e|l] eqn:Hips.
  { by intros [= <- <-] ?. }
  intros Hrun Hq.
  destruct (run_binding _ _ _ _ _ _ _ _ Hrun Hq) as (Hip & _).
  assert (contains "%" (self_ip (listener q)) = true) as Hc.
  { apply (proj1 (Forall_forall _ _) (get_ipv6_ips_scoped _ _ Hips)).
    by eapply list_elem_of_lookup_2. }
  split; [done|]. intros service_info Hpop.
  destruct (browse_run _ _ _ _ _ _ Hrun) as ([Hw _ _ _ _] & _).
  destruct (populated_returned _ _ _ (Hw k q Hq) Hpop) as (_ & (l' & Hs & Ha) & _).
  destruct (query_addresses_store_addresses (listener q) service_info)
    as (self' & ipv6 & Hs' & Haddr & _ & _ & Hzone & _).
  rewrite Hs in Hs'. injection Hs' as <-.
  assert (self_addresses l' = self_addresses (listener q)) as Heq by (by injection Ha).
  destruct (Hzone Hc) as (zone & Hz & ->). exists zone. rewrite <-Heq, Haddr.
  split; [done|]. split; [done|]. by rewrite length_app, !length_fmap.
Qed.

Lemma omap_delete_None {A B} (f : A → option B) (l : list A) k x :
  l !! k = Some x → f x = None → omap f (delete k l) = omap f l.
Proof.
  revert k. induction l as [|y l IH]; intros k Hk Hx; [done|].
  destruct k as [|k].
  - injection Hk as ->. change (delete 0 (x :: l)) with l. by rewrite omap_cons, Hx.
  - change (delete (S k) (y :: l)) with (y :: delete k l).
    rewrite !omap_cons. by rewrite (IH k).
Qed.

(** A session whose request returned a record without an address it can
    use (no IPv4 address, and either no IPv6 address or a bound address
    without ['%']) has run its task to the end and holds the properties
    and the port of the record, but its address list is empty: [browse]
    builds no answer for it, and returns what it would return without that
    session. *)
Theorem record_without_usable_address_is_dropped
    service_name addrs t sch w out k q service_info :
  browse service_name addrs t sch = (w, out) →
  bonjour_queries w !! k = Some q →
  Populated service_info ∈ view k (log w) →
  ip_addresses_V4Only service_info = [] →
  contains "%" (self_ip (listener q)) = false ∨ ip_addresses_V6Only service_info = [] →
  self_querying_task (listener q) = Returned ∧
  self_properties (listener q) = info_properties service_info ∧
  self_port (listener q) = info_port service_info ∧
  self_addresses (listener q) = [] ∧
  candidate q = None ∧
  ∀ answers, out = inr answers →
    answers = first_seen (candidates (delete k (bonjour_queries w))).
Proof.
  intros Hrun Hq Hpop Hv4 Hv6.
  destruct (browse_run _ _ _ _ _ _ Hrun) as ([Hw Hfs _ _ _] & _ & _ & Hout).
  destruct (populated_returned _ _ _ (Hw k q Hq) Hpop) as (Ht & (l' & Hs & Ha) & _).
  destruct (query_addresses_store_fields _ _ _ Hs) as (Hprop & Hport & _).
  destruct (query_addresses_store_addresses (listener q) service_info)
    as (self' & ipv6 & Hs' & Haddr & _ & Hscoped & Hzone & _).
  rewrite Hs in Hs'. injection Hs' as <-.
  assert (ipv6 = []) as ->.
  { destruct (decide (ipv6 = [])) as [|Hne]; [done|].
    specialize (Hscoped Hne). destruct Hv6 as [Hc|Hnil]; [congruence|].
    destruct (Hzone Hscoped) as (zone & _ & ->). by rewrite Hnil. }
  rewrite Hv4 in Haddr. simpl in Haddr.
  injection Ha as Hp Hi Hpo.
  assert (candidate q = None) as Hcand by (unfold candidate; by rewrite <-Hi, Haddr).
  split; [done|]. split; [congruence|]. split; [congruence|].
  split; [congruence|]. split; [done|].
  intros answers ->. destruct Hout as (Hans & _ & _ & Hc).
  unfold candidates. rewrite (omap_delete_None _ _ _ _ Hq Hcand).
  by rewrite Hans, Hfs, Hc.
Qed.

(** Every session whose listener holds addresses when [browse] returns is
    in the result, with the properties and the port of the record its
    request returned, as they are, and with the literals of the IPv4
    addresses of that record first. *)
Theorem resolved_answer_is_verbatim service_name addrs t sch w answers k q :
  browse service_name addrs t sch = (w, inr answers) →
  bonjour_queries w !! k = Some q →
  self_addresses (listener q) ≠ [] →
  ∃ service_info ipv6,
    Populated service_info ∈ view k (log w) ∧
    {| properties := info_properties service_info;
       ips := (inet_ntop_AF_INET <$> ip_addresses_V4Only service_info) ++ ipv6;
       port := info_port service_info |} ∈ answers ∧
    self_addresses (listener q) =
      (inet_ntop_AF_INET <$> ip_addresses_V4Only service_info) ++ ipv6.
Proof.
  intros Hrun Hq Hne.
  destruct (browse_run _ _ _ _ _ _ Hrun) as ([Hw _ _ _ _] & _).
  destruct (resolved_populated _ _ (Hw k q Hq) Hne)
    as (_ & service_info & Hpop & l' & Hs & Ha).
  destruct (query_addresses_store_fields _ _ _ Hs) as (Hprop & Hport & _).
  destruct (query_addresses_store_addresses (listener q) service_info)
    as (self' & ipv6 & Hs' & Haddr & _).
  rewrite Hs in Hs'. injection Hs' as <-.
  exists service_info, ipv6. split; [done|].
  pose proof (candidate_in_result _ _ _ _ _ _ _ _ Hrun Hq Hne) as Hin.
  rewrite <-Ha in Hin. unfold answer_of in Hin. rewrite Hprop, Hport, Haddr in Hin.
  split; [done|]. injection Ha as _ Hi _. congruence.
Qed.

(** [browse] returns at most one answer per interface (none for an empty
    interface list), and every answer of the result is the one of a
    session whose task ran to the end: its properties and its port are
    those of the record the request of that session returned, and its
    address list is not empty. *)
Theorem answers_come_from_resolved_sessions service_name addrs t sch w answers :
  browse service_name addrs t sch = (w, inr answers) →
  length answers ≤ length addrs ∧
  ∀ answer, answer ∈ answers →
    ips answer ≠ [] ∧
    ∃ k q service_info,
      addrs !! k = Some (self_ip (listener q)) ∧
      bonjour_queries w !! k = Some q ∧
      answer = answer_of (listener q) ∧
      self_querying_task (listener q) = Returned ∧
      Populated service_info ∈ view k (log w) ∧
      properties answer = info_properties service_info ∧
      port answer = info_port service_info.
Proof.
  intros Hrun.
  destruct (browse_run _ _ _ _ _ _ Hrun) as ([Hw Hfs _ _ _] & _ & _ & Hans & _ & _ & Hc).
  assert (answers = first_seen (candidates (bonjour_queries w))) as Heq
    by (by rewrite Hans, Hfs, Hc).
  split.
  - rewrite <-(run_sessions _ _ _ _ _ _ Hrun).
    etrans; [|apply (omap_length_le candidate)].
    apply submseteq_length, NoDup_submseteq.
    + rewrite Heq. apply NoDup_first_seen.
    + intros a. by rewrite Heq, elem_of_first_seen.
  - intros answer Hin. rewrite Heq, elem_of_first_seen in Hin.
    apply list_elem_of_omap in Hin as (q & Hq & Hcand).
    apply list_elem_of_lookup_1 in Hq as [k Hq].
    unfold candidate in Hcand.
    destruct (self_addresses (listener q)) as [|x xs] eqn:Haddr; [done|].
    injection Hcand as <-.
    split; [simpl; by rewrite Haddr|].
    destruct (resolved_populated _ _ (Hw k q Hq))
      as (Ht & service_info & Hpop & l' & Hs & Ha); [by rewrite Haddr|].
    destruct (query_addresses_store_fields _ _ _ Hs) as (Hprop & Hport & _).
    destruct (run_binding _ _ _ _ _ _ _ _ Hrun Hq) as (Hip & _).
    exists k, q, service_info. repeat (split; [done|]).
    rewrite <-Ha. simpl. done.
Qed.

(** ** What the loop of [browse] does, session by session *)

Lemma loop_view_app k l1 l2 : loop_view k (l1 ++ l2) = loop_view k l1 ++ loop_view k l2.
Proof. unfold loop_view. by rewrite view_app, filter_app. Qed.

Lemma loop_view_record i k acts w :
  loop_view i (log (record k acts w)) =
    loop_view i (log w) ++ (if decide (k = i) then filter (λ a, loop_action a) acts else []).
Proof.
  unfold loop_view. rewrite view_record, filter_app. by destruct (decide (k = i)).
Qed.

Lemma loop_view_on_listener i k f w q :
  bonjour_queries w !! k = Some q →
  loop_view i (log (on_listener k f w)) =
    loop_view i (log w) ++
    (if decide (k = i) then filter (λ a, loop_action a) (f (listener q)).2 else []).
Proof.
  intros Hk. unfold loop_view. rewrite (view_on_listener _ _ _ _ q), filter_app by done.
  by destruct (decide (k = i)).
Qed.

(** The tasks and the callbacks take no step of the loop. *)
Lemma react_quiet l i : filter (λ a, loop_action a) (react l i).2 = [].
Proof.
  destruct i as [? n| |? service_info|? e]; simpl; [done|..].
  - unfold query_addresses_get.
    destruct (self_querying_task l); try done.
    destruct (self_queue l) as [|n queue]; [done|].
    by destruct (AsyncServiceInfo_init (n_service_type n) (n_name n)).
  - unfold query_addresses_returns. destruct (self_querying_task l); try done.
    destruct (query_addresses_store_total l service_info) as [l' ->]. done.
  - unfold query_addresses_raises. by destruct (self_querying_task l).
Qed.

Lemma loop_view_deliver i w ev : loop_view i (log (deliver w ev)) = loop_view i (log w).
Proof.
  unfold deliver. destruct (bonjour_queries w !! session_of ev) as [q|] eqn:Hk.
  - rewrite (loop_view_on_listener _ _ _ _ q), react_quiet by done.
    destruct (decide _); by rewrite app_nil_r.
  - unfold on_listener. by rewrite Hk.
Qed.

Lemma loop_view_foldl_deliver i w evs :
  loop_view i (log (foldl deliver w evs)) = loop_view i (log w).
Proof.
  revert w. induction evs as [|ev evs IH]; intros w; [done|].
  simpl. by rewrite IH, loop_view_deliver.
Qed.

(** Running a listener leaves the rest of its session as it is. *)
Lemma lookup_on_listener {B} (g : BonjourQuery → B) i k f w :
  (∀ q l, g (set_listener q l) = g q) →
  g <$> bonjour_queries (on_listener k f w) !! i = g <$> bonjour_queries w !! i.
Proof.
  intros Hg. unfold on_listener.
  destruct (bonjour_queries w !! k) as [q|] eqn:Hk; [|done].
  destruct (f (listener q)) as [l acts]. simpl.
  destruct (decide (k = i)) as [->|].
  - rewrite list_lookup_insert_eq by (by eapply lookup_lt_Some).
    rewrite Hk. simpl. by rewrite Hg.
  - by rewrite list_lookup_insert_ne.
Qed.

Lemma lookup_foldl_deliver {B} (g : BonjourQuery → B) i w evs :
  (∀ q l, g (set_listener q l) = g q) →
  g <$> bonjour_queries (foldl deliver w evs) !! i = g <$> bonjour_queries w !! i.
Proof.
  intros Hg. revert w. induction evs as [|ev evs IH]; intros w; [done|].
  simpl. rewrite IH. by apply lookup_on_listener.
Qed.

Lemma lookup_on_query_keeps {B} (g : BonjourQuery → B) i k f w :
  (∀ q, g (f q) = g q) →
  g <$> bonjour_queries (on_query k f w) !! i = g <$> bonjour_queries w !! i.
Proof.
  intros Hg. simpl. destruct (decide (i = k)) as [->|].
  - rewrite list_lookup_alter_eq. destruct (bonjour_queries w !! k); simpl; [|done].
    by rewrite Hg.
  - by rewrite list_lookup_alter_ne.
Qed.

Lemma lookup_on_query_ne {B} (g : BonjourQuery → B) i k f w :
  i ≠ k →
  g <$> bonjour_queries (on_query k f w) !! i = g <$> bonjour_queries w !! i.
Proof. intros Hne. simpl. by rewrite list_lookup_alter_ne. Qed.

Lemma loop_view_on_query i k f w : loop_view i (log (on_query k f w)) = loop_view i (log w).
Proof. done. Qed.

Lemma queries_record k acts w : bonjour_queries (record k acts w) = bonjour_queries w.
Proof. done. Qed.

(** The steps one teardown adds, by where it stops; the other sessions
    take no step of the loop meanwhile. *)
Lemma teardown_session_steps o k q w w' r :
  bonjour_queries w !! k = Some q →
  teardown_session o k q w = (w', r) →
  ∃ steps,
    (∀ i, loop_view i (log w') =
            loop_view i (log w) ++ (if decide (k = i) then steps else [])) ∧
    match r with
    | None =>
        steps = teardown_steps ∧ raises (close (listener q)) = None ∧
        async_cancel_result o = None ∧ async_close_result o = None
    | Some e =>
        (steps = [TaskCancel; Propagated e] ∧ raises (close (listener q)) = Some e) ∨
        (steps = [TaskCancel; TaskJoined; Propagated e] ∧
         raises (close (listener q)) = None ∧ async_cancel_result o = Some e) ∨
        (steps = [TaskCancel; TaskJoined; BrowserCancelled; Propagated e] ∧
         raises (close (listener q)) = None ∧ async_cancel_result o = None ∧
         async_close_result o = Some e)
    end.
Proof.
  intros Hk. unfold teardown_session.
  destruct (raises (close (listener q))) as [e1|] eqn:Hraise;
    [|destruct (async_cancel_result o) as [e2|] eqn:Hcancel;
      [|destruct (async_close_result o) as [e3|] eqn:Hclose]];
    intros [= <- <-]; eexists; (split; [|naive_solver]); intros i;
    destruct (suspends (close (listener q))).
  all: repeat first [rewrite loop_view_record | rewrite loop_view_foldl_deliver
                    | rewrite loop_view_on_query].
  all: rewrite (loop_view_on_listener _ _ _ _ q) by done.
  all: destruct (decide (k = i)); simpl; by rewrite <-?app_assoc, ?app_nil_r.
Qed.

(** A teardown leaves the library objects of the other sessions alone,
    and when it stops on an exception it has not closed its own client. *)
Lemma teardown_session_handles o k q w w' r i :
  teardown_session o k q w = (w', r) →
  (i ≠ k → handles <$> bonjour_queries w' !! i = handles <$> bonjour_queries w !! i) ∧
  (is_Some r → zc <$> bonjour_queries w' !! i = zc <$> bonjour_queries w !! i).
Proof.
  unfold teardown_session.
  destruct (raises (close (listener q))) as [e1|];
    [|destruct (async_cancel_result o) as [e2|];
      [|destruct (async_close_result o) as [e3|]]];
    intros [= <- <-]; destruct (suspends (close (listener q)));
    (split; [intros Hne|intros [e [=]]]);
    rewrite ?queries_record;
    repeat first [ rewrite lookup_foldl_deliver by done
                 | rewrite (lookup_on_query_ne handles) by done
                 | rewrite (lookup_on_query_keeps zc) by done
                 | rewrite queries_record ];
    by rewrite ?lookup_on_listener by done.
Qed.

Lemma close_over l : over (closed_self (close l)).
Proof.
  unfold close, over.
  by destruct (self_querying_task l) eqn:Ht; simpl; rewrite ?Ht.
Qed.

Lemma close_answer l : answer_of (closed_self (close l)) = answer_of l.
Proof. unfold close. by destruct (self_querying_task l). Qed.

Lemma raises_same_task l l' :
  self_querying_task l' = self_querying_task l → raises (close l') = raises (close l).
Proof. unfold close. intros ->. by destruct (self_querying_task l). Qed.

Lemma close_again l : raises (close (closed_self (close l))) = raises (close l).
Proof.
  unfold close. by destruct (self_querying_task l) eqn:Ht; simpl; rewrite ?Ht.
Qed.

(** After [close] has been called, whatever runs during the rest of the
    teardown is a step of a task or of a callback, and the client and the
    browser only go from open to closed. *)
Lemma teardown_session_after_close o k q w w' r :
  teardown_session o k q w = (w', r) →
  ∃ w0,
    later (on_listener k (λ _, (closed_self (close (listener q)), [TaskCancel])) w) w0 ∧
    bonjour_queries w' = bonjour_queries w0.
Proof.
  unfold teardown_session.
  set (w1 := on_listener k (λ _, (closed_self (close (listener q)), [TaskCancel])) w).
  set (w2 := if suspends (close (listener q))
             then foldl deliver w1 (during_join o) else w1).
  assert (later w1 w2) as Hl2.
  { unfold w2. destruct (suspends _); [apply later_foldl_deliver|apply later_refl]. }
  destruct (raises (close (listener q))) as [e1|].
  { intros [= <- <-]. by exists w2. }
  set (w4 := foldl deliver (record k [TaskJoined] w2) (during_async_cancel o)).
  assert (later w1 w4) as Hl4.
  { eapply later_trans; [exact Hl2|].
    eapply later_trans; [by apply (later_record k TaskJoined)|].
    apply later_foldl_deliver. }
  destruct (async_cancel_result o) as [e2|].
  { intros [= <- <-]. by exists w4. }
  set (w6 := foldl deliver (record k [BrowserCancelled] (on_query k cancel_browser w4))
               (during_async_close o)).
  assert (later w1 w6) as Hl6.
  { eapply later_trans; [exact Hl4|].
    eapply later_trans; [apply later_on_query, cancel_browser_keeps|].
    eapply later_trans; [by apply (later_record k BrowserCancelled)|].
    apply later_foldl_deliver. }
  destruct (async_close_result o) as [e3|].
  { intros [= <- <-]. by exists w6. }
  intros [= <- <-]. eexists. split; [|done].
  eapply later_trans; [exact Hl6|].
  eapply later_trans; [apply later_on_query, close_client_keeps|].
  by apply later_record.
Qed.

(** The listener of a session once its teardown has run, however it
    ended: its task is over, in the state [close] left it in, and its
    answer is the one it had. *)
Lemma teardown_session_listener o k q w w' r :
  bonjour_queries w !! k = Some q →
  teardown_session o k q w = (w', r) →
  ∃ q', bonjour_queries w' !! k = Some q' ∧ over (listener q') ∧
    answer_of (listener q') = answer_of (listener q) ∧
    raises (close (listener q')) = raises (close (listener q)).
Proof.
  intros Hk Htear.
  destruct (teardown_session_after_close _ _ _ _ _ _ Htear) as (w0 & Hl & Hq).
  set (q1 := set_listener q (closed_self (close (listener q)))).
  assert (bonjour_queries
            (on_listener k (λ _, (closed_self (close (listener q)), [TaskCancel])) w) !! k
          = Some q1) as Hk1.
  { unfold on_listener. rewrite Hk. simpl.
    apply list_lookup_insert_eq. by eapply lookup_lt_Some. }
  destruct (later_lookup _ _ _ _ Hl Hk1) as (q' & Hk' & _).
  destruct Hl as (_ & Hs & _). destruct (Hs _ _ _ Hk1 Hk') as [Hset _].
  destruct Hset as [Ha Ht]; [apply close_over|].
  exists q'. rewrite Hq. split; [done|]. split; [|split].
  - unfold over. rewrite Ht. apply close_over.
  - rewrite Ha. apply close_answer.
  - rewrite (raises_same_task _ _ Ht). apply close_again.
Qed.

(** One turn of the loop that ends without an exception keeps what holds
    all along the loop. *)
Lemma iteration_spec sch t j q w answers w1 answers1 w2 :
  bonjour_queries w !! j = Some q →
  loop_inv t j w answers → all_done j w → cand_inv j w →
  collect j q w answers = (w1, answers1) →
  teardown_session (teardown sch j) j q w1 = (w2, None) →
  loop_inv t (S j) w2 answers1 ∧ all_done (S j) w2 ∧ cand_inv (S j) w2 ∧
  bonjour_queries w1 = bonjour_queries w ∧ later w1 w2.
Proof.
  intros Hj Hinv Hdone Hcand Hcollect Htear.
  destruct (collect_spec _ _ _ _ _ _ _ Hj Hinv Hcollect) as (Hinv1 & Hq1 & Hp1 & Hc1).
  assert (bonjour_queries w1 !! j = Some q) as Hj1 by (by rewrite Hq1).
  destruct (teardown_session_spec _ _ _ _ _ _ (run_ok _ _ (loop_run _ _ _ _ Hinv1)) Hj1 Htear)
    as (Hw2 & Hl2 & Hsteps & q2 & Hj2 & Htorn2 & Hcand2).
  pose proof (proj1 Htorn2) as Hover2.
  split; [by apply (loop_inv_later _ _ w1)|]. split; [|split; [|done]].
  - intros i Hi. destruct (decide (i = j)) as [->|]; [by eauto|].
    apply (all_done_later j w1); [done| |lia]. by apply (all_done_same j w).
  - destruct Hcand as [Hcons Hover].
    destruct (later_candidates j w1 w2 Hl2) as [Hcs Hover'].
    { intros i qi Hi. rewrite Hq1. by apply Hover. }
    split.
    + rewrite (proj1 (later_marked _ _ Hl2)), Hc1, Hcons.
      rewrite (take_S_r _ _ _ Hj2). unfold candidates in *.
      by rewrite omap_app, Hcs, Hq1, <-Hcand2.
    + intros i qi Hi Hqi. destruct (decide (i = j)) as [->|].
      * by simplify_eq.
      * apply (Hover' i); [lia|done].
Qed.

(** What [collect] records for session [j]. *)
Lemma collect_steps t j q w answers w1 answers1 :
  loop_inv t j w answers → cand_inv j w →
  collect j q w answers = (w1, answers1) →
  bonjour_queries w1 = bonjour_queries w ∧
  ∀ i, loop_view i (log w1) =
         loop_view i (log w) ++
         (if decide (j = i)
          then collect_actions (candidates (take j (bonjour_queries w))) q else []).
Proof.
  intros [[_ Hfs _ _ _] Hans _ _] [Hcons _]. unfold collect, collect_actions, candidate.
  destruct (self_addresses (listener q)) as [|x xs].
  { intros [= <- <-]. split; [done|]. intros i.
    destruct (decide (j = i)); by rewrite app_nil_r. }
  assert (∀ a, a ∈ answers ↔ a ∈ candidates (take j (bonjour_queries w))) as Hiff.
  { intros a. by rewrite Hans, Hfs, elem_of_first_seen, Hcons. }
  destruct (decide (answer_of (listener q) ∈ answers)) as [Hin|Hin]; intros [= <- <-].
  - split; [done|]. intros i. rewrite loop_view_record.
    destruct (decide (j = i)); [|done]. by rewrite decide_True by (by apply Hiff).
  - split; [done|]. intros i. rewrite loop_view_record.
    destruct (decide (j = i)); [|done]. by rewrite decide_False by (by rewrite <-Hiff).
Qed.

Lemma collect_actions_same before before' q q' :
  before' = before → candidate q' = candidate q →
  collect_actions before' q' = collect_actions before q.
Proof. unfold collect_actions. by intros -> ->. Qed.

(** A session that has been through the loop stays so while tasks and
    callbacks run. *)
Lemma processed_later sch w w0 w' i q q' :
  later w w0 → bonjour_queries w' = bonjour_queries w0 →
  (∀ i' qi, i' < i → bonjour_queries w !! i' = Some qi → over (listener qi)) →
  bonjour_queries w !! i = Some q → bonjour_queries w' !! i = Some q' →
  loop_view i (log w') = loop_view i (log w) →
  processed sch w i q → processed sch w' i q'.
Proof.
  intros Hl Hq Hover Hi Hi' Hview [Hsteps [Ho Hr] Hcalls]. rewrite Hq in Hi'.
  destruct (later_candidates i w w0 Hl Hover) as [Hcs _].
  pose proof Hl as (_ & Hs & _). destruct (Hs _ _ _ Hi Hi') as [Hset _].
  destruct (Hset Ho) as [Ha Ht].
  split; [|split|done].
  - rewrite Hview, Hsteps, Hq. f_equal. symmetry.
    apply collect_actions_same; [done|by apply candidate_answer].
  - unfold over. by rewrite Ht.
  - by rewrite (raises_same_task _ _ Ht).
Qed.

Lemma teardown_session_later o k q w w' r :
  world_ok w → bonjour_queries w !! k = Some q →
  teardown_session o k q w = (w', r) →
  ∃ w0, later w w0 ∧ bonjour_queries w' = bonjour_queries w0 ∧
        log w0 `prefix_of` log w'.
Proof.
  intros Hw Hk Htear.
  destruct (teardown_session_spec _ _ _ _ _ _ Hw Hk Htear) as [_ Hr].
  destruct r as [e|].
  - destruct Hr as [(w0 & Hl & _ & ->) _]. exists w0.
    split; [done|]. split; [done|]. by apply prefix_app_r.
  - destruct Hr as (Hl & _). by exists w'.
Qed.

Lemma pending_step w w' i q' :
  (∀ q, bonjour_queries w !! i = Some q → pending w i q) →
  handles <$> bonjour_queries w' !! i = handles <$> bonjour_queries w !! i →
  loop_view i (log w') = loop_view i (log w) →
  bonjour_queries w' !! i = Some q' → pending w' i q'.
Proof.
  intros Hp Hh Hv Hi'. rewrite Hi' in Hh.
  destruct (bonjour_queries w !! i) as [q|]; [|done].
  destruct (Hp q eq_refl) as (Hview & Hzc & Hsb). injection Hh as Hz Hb.
  unfold pending. by rewrite Hv, Hz, Hb.
Qed.

Lemma elem_of_loop_view i a lg : a ∈ loop_view i lg ↔ Ev i a ∈ lg ∧ loop_action a = true.
Proof.
  unfold loop_view. rewrite list_elem_of_filter, elem_of_view, Is_true_true. tauto.
Qed.

(** Steps of session [j], taken when the sessions before [j] are closed,
    keep the loop sequential. *)
Lemma sequential_extend j lg lg' :
  sequential lg → lg `prefix_of` lg' →
  (∀ i, i ≠ j → loop_view i lg' = loop_view i lg) →
  (∀ i', i' < j → Ev i' ClientClosed ∈ lg) →
  sequential lg'.
Proof.
  intros Hseq [more ->] Hsame Hclosed pre i a post Heq Ha i' Hi'.
  assert (Ev i a ∈ more → Ev i' ClientClosed ∈ lg) as Hnew.
  { intros Hin. destruct (decide (i = j)) as [->|Hne]; [by apply Hclosed|].
    assert (a ∈ loop_view i (lg ++ more)) as Hin'.
    { apply elem_of_loop_view. split; [|done]. apply elem_of_app. by right. }
    rewrite (Hsame i Hne) in Hin'. apply elem_of_loop_view in Hin' as [Hin' _].
    apply list_elem_of_split in Hin' as (l1 & l2 & ->).
    pose proof (Hseq l1 i a l2 eq_refl Ha i' Hi') as Hc.
    apply elem_of_app. by left. }
  apply app_eq_app in Heq as (l & [[Hlg Hl]|[Hpre Hmore]]).
  - destruct l as [|x l]; simpl in Hl.
    + rewrite app_nil_r in Hlg. rewrite <-Hlg. apply Hnew. rewrite <-Hl. by left.
    + injection Hl as Hx Hpost. subst x. by apply (Hseq pre i a l).
  - rewrite Hpre. apply elem_of_app. left. apply Hnew. rewrite Hmore.
    apply elem_of_app. right. by left.
Qed.

(** The loop from session [j] on, session by session. *)
Lemma browse_loop_trace sch t m : ∀ j w answers w' out,
  j + m = length (bonjour_queries w) →
  loop_inv t j w answers → all_done j w → cand_inv j w →
  (∀ i q, i < j → bonjour_queries w !! i = Some q → processed sch w i q) →
  (∀ i q, j ≤ i → bonjour_queries w !! i = Some q → pending w i q) →
  sequential (log w) →
  browse_loop sch (seq j m) w answers = (w', out) →
  sequential (log w') ∧
  match out with
  | inr _ => ∀ i q, bonjour_queries w' !! i = Some q → processed sch w' i q
  | inl e => ∃ k, k < j + m ∧ stopped_at sch w' k e
  end.
Proof.
  induction m as [|m IH];
    intros j w answers w' out Hlen Hinv Hdone Hcand Hproc Hpend Hseq.
  { simpl. intros [= <- <-]. split; [done|]. intros i q Hi. apply Hproc; [|done].
    apply lookup_lt_Some in Hi. lia. }
  simpl. destruct (bonjour_queries w !! j) as [q|] eqn:Hj; last first.
  { apply lookup_ge_None in Hj. lia. }
  destruct (collect j q w answers) as [w1 answers1] eqn:Hcollect.
  destruct (collect_spec _ _ _ _ _ _ _ Hj Hinv Hcollect) as (Hinv1 & _ & Hp1 & _).
  destruct (collect_steps _ _ _ _ _ _ _ Hinv Hcand Hcollect) as [Hq1 Hv1].
  assert (bonjour_queries w1 !! j = Some q) as Hj1 by (by rewrite Hq1).
  pose proof (run_ok _ _ (loop_run _ _ _ _ Hinv1)) as Hw1.
  destruct (teardown_session (teardown sch j) j q w1) as [w2 r] eqn:Htear.
  destruct (teardown_session_steps _ _ _ _ _ _ Hj1 Htear) as (steps & Hv2 & Hshape).
  destruct (teardown_session_listener _ _ _ _ _ _ Hj1 Htear)
    as (q2 & Hj2 & Hover2 & Ha2 & Hr2).
  destruct (teardown_session_later _ _ _ _ _ _ Hw1 Hj1 Htear) as (w0 & Hl0 & Hq0 & Hp0).
  pose proof (proj2 Hcand) as Hover.
  assert (length (bonjour_queries w2) = length (bonjour_queries w)) as Hlen2.
  { by rewrite Hq0, (binding_length _ _ (proj1 Hl0)), Hq1. }
  assert (candidates (take j (bonjour_queries w2))
          = candidates (take j (bonjour_queries w))) as Hcs.
  { rewrite Hq0, <-Hq1. apply (later_candidates j w1 w0 Hl0).
    intros i qi Hi. rewrite Hq1. by apply Hover. }
  assert (∀ i qi, i < j → bonjour_queries w2 !! i = Some qi → processed sch w2 i qi)
    as Hbefore.
  { intros i qi Hi Hqi.
    assert (is_Some (bonjour_queries w !! i)) as [qi0 Hqi0].
    { apply lookup_lt_is_Some. rewrite <-Hlen2. by eapply lookup_lt_Some. }
    apply (processed_later sch w1 w0 w2 i qi0); try done.
    - intros i' qi' Hi'. rewrite Hq1. apply Hover. lia.
    - by rewrite Hq1.
    - rewrite Hv2, decide_False by lia. by rewrite app_nil_r.
    - destruct (Hproc i qi0 Hi Hqi0) as [Hs Ht Hc]. split; [|done|done].
      rewrite Hv1, decide_False by lia. by rewrite app_nil_r, Hq1. }
  assert (∀ i qi, j < i → bonjour_queries w2 !! i = Some qi → pending w2 i qi)
    as Hafter.
  { intros i qi Hi Hqi. apply (pending_step w); [| | |done].
    - intros qi0 Hqi0. apply Hpend; [lia|done].
    - destruct (teardown_session_handles _ _ _ _ _ _ i Htear) as [Hh _].
      rewrite Hh by lia. by rewrite Hq1.
    - rewrite Hv2, Hv1, !decide_False by lia. by rewrite !app_nil_r. }
  assert (loop_view j (log w2)
          = collect_actions (candidates (take j (bonjour_queries w2))) q2 ++ steps) as Hhere.
  { rewrite Hv2, Hv1, !decide_True by done.
    destruct (Hpend j q (le_n j) Hj) as (-> & _). simpl. f_equal. symmetry.
    apply collect_actions_same; [done|by apply candidate_answer]. }
  assert (sequential (log w2)) as Hseq2.
  { apply (sequential_extend j (log w)); [done| | |].
    - etrans; [exact Hp1|]. etrans; [by apply later_prefix|done].
    - intros i Hi. rewrite Hv2, Hv1, !decide_False by done. by rewrite !app_nil_r.
    - intros i' Hi'. destruct (Hdone i' Hi') as [Hsub _].
      apply elem_of_view. eapply elem_of_sublist; [|exact Hsub].
      by repeat constructor. }
  destruct r as [e|].
  - intros [= <- <-]. split; [done|]. exists j. split; [lia|]. split.
    + intros i qi Hi Hqi. split; [by apply Hbefore|].
      assert (all_done j w2) as Hdone2.
      { apply (all_done_same j w0); [done|done|].
        apply (all_done_later j w1); [done|]. by apply (all_done_same j w). }
      destruct (Hdone2 i Hi) as (_ & qi' & Hqi' & Htorn). by simplify_eq.
    + done.
    + destruct (teardown_session_handles _ _ _ _ _ _ j Htear) as [_ Hzc].
      rewrite Hj2, Hj1 in Hzc. injection (Hzc (mk_is_Some _ _ eq_refl)) as Hzc'.
      destruct (Hpend j q (le_n j) Hj) as (_ & Hclosed & _).
      destruct Hshape as [[-> Hraise]|[(-> & Hraise & Hcancel)|(-> & Hraise & Hcancel & Hclose)]].
      * exists q2, [TaskCancel]. split; [done|]. split; [done|].
        split; [by rewrite Hzc'|]. split; [done|]. left. split; [done|].
        apply close_raises. by rewrite Hr2.
      * exists q2, [TaskCancel; TaskJoined]. split; [done|]. split; [done|].
        split; [by rewrite Hzc'|]. split; [done|]. right. left.
        split; [done|]. split; [by rewrite Hr2|done].
      * exists q2, [TaskCancel; TaskJoined; BrowserCancelled].
        split; [done|]. split; [done|].
        split; [by rewrite Hzc'|]. split; [done|]. right. right.
        split; [done|]. split; [by rewrite Hr2|done].
  - destruct Hshape as (-> & Hraise & Hcancel & Hclose). intros Hloop.
    destruct (iteration_spec _ _ _ _ _ _ _ _ _ Hj Hinv Hdone Hcand Hcollect Htear)
      as (Hinv2 & Hdone2 & Hcand2 & _).
    specialize (IH (S j) w2 answers1 w' out).
    replace (j + S m) with (S j + m) by lia. apply IH; try done.
    + lia.
    + intros i qi Hi Hqi. destruct (decide (i = j)) as [->|]; [|apply Hbefore; [lia|done]].
      simplify_eq. split; [done| |done]. split; [done|by rewrite Hr2].
Qed.

(** ** Where the failure of a task comes from *)

Lemma sourced_more evs evs' w :
  (∀ i, i ∈ evs → i ∈ evs') → sourced evs w → sourced evs' w.
Proof.
  intros Hsub [Hq Hd Hr Hreq]. split; [by eauto| | |done].
  - intros k n Hin. destruct (Hd k n Hin) as [? ?]. by eauto.
  - intros k e Hin. destruct (Hr k e Hin) as [?|?]; [left; by eauto|by right].
Qed.

(** What one step of a listener adds: a notification on the queue comes
    from the callback; a notification is taken from the head of the
    queue, and then the request is started when the constructor accepts
    it and the task fails when it raises; and a failure comes from the
    request that raises, or from the constructor. *)
Lemma react_sources l i :
  (∀ n, n ∈ self_queue (react l i).1 →
     n ∈ self_queue l ∨ i = Callback (session_of i) n) ∧
  (∀ n, Dequeued n ∈ (react l i).2 →
     n ∈ self_queue l ∧
     (AsyncServiceInfo_init (n_service_type n) (n_name n) = None ∧
      request_of n ∈ (react l i).2
      ∨ ∃ e, AsyncServiceInfo_init (n_service_type n) (n_name n) = Some e ∧
             TaskRaised e ∈ (react l i).2)) ∧
  (∀ e, TaskRaised e ∈ (react l i).2 →
     i = RequestRaises (session_of i) e ∨
     ∃ n, Dequeued n ∈ (react l i).2 ∧
          AsyncServiceInfo_init (n_service_type n) (n_name n) = Some e) ∧
  (∀ service_type name, Requested service_type name ∈ (react l i).2 →
     AsyncServiceInfo_init service_type name = None).
Proof.
  assert (∀ j : incoming,
    (∀ n, n ∈ self_queue (l, @nil action).1 →
       n ∈ self_queue l ∨ j = Callback (session_of j) n) ∧
    (∀ n, Dequeued n ∈ (l, @nil action).2 →
       n ∈ self_queue l ∧
       (AsyncServiceInfo_init (n_service_type n) (n_name n) = None ∧
        request_of n ∈ (l, @nil action).2
        ∨ ∃ e, AsyncServiceInfo_init (n_service_type n) (n_name n) = Some e ∧
               TaskRaised e ∈ (l, @nil action).2)) ∧
    (∀ e, TaskRaised e ∈ (l, @nil action).2 →
       j = RequestRaises (session_of j) e ∨
       ∃ n, Dequeued n ∈ (l, @nil action).2 ∧
            AsyncServiceInfo_init (n_service_type n) (n_name n) = Some e) ∧
    (∀ service_type name, Requested service_type name ∈ (l, @nil action).2 →
       AsyncServiceInfo_init service_type name = None)) as Hidle.
  { intros j. simpl. split; [intros n Hn; by left|].
    split; [intros n Hin|split; [intros e Hin|intros st nm Hin]];
      by apply elem_of_nil in Hin. }
  destruct i as [k n0|k|k service_info|k e0]; simpl.
  - split; [|split; [|split]];
      [|intros n Hin; absurd_member Hin|intros e Hin; absurd_member Hin
       |intros st nm Hin; absurd_member Hin].
    intros n [Hin|Hin%list_elem_of_singleton]%elem_of_app; [by left|right; by subst].
  - unfold query_addresses_get.
    destruct (self_querying_task l); try apply (Hidle (Wakeup k)).
    destruct (self_queue l) as [|n queue] eqn:Hqueue; [apply (Hidle (Wakeup k))|].
    destruct (AsyncServiceInfo_init (n_service_type n) (n_name n)) as [e'|] eqn:Hinit;
      simpl; (split; [intros n' Hin; left; by right|split; [|split]]).
    + intros n' Hin. assert (n' = n) as ->.
      { repeat (apply elem_of_cons in Hin as [Heq|Hin]; [by simplify_eq|]).
        by apply elem_of_nil in Hin. }
      split; [by left|]. right. exists e'. split; [done|]. by right; left.
    + intros e Hin. right. exists n. split; [by left|].
      repeat (apply elem_of_cons in Hin as [Heq|Hin]; [by simplify_eq|]).
      by apply elem_of_nil in Hin.
    + intros st nm Hin. absurd_member Hin.
    + intros n' Hin. assert (n' = n) as ->.
      { repeat (apply elem_of_cons in Hin as [Heq|Hin]; [by simplify_eq|]).
        by apply elem_of_nil in Hin. }
      split; [by left|]. left. split; [done|]. by right; left.
    + intros e Hin. absurd_member Hin.
    + intros st nm Hin.
      repeat (apply elem_of_cons in Hin as [Heq|Hin]; [by simplify_eq|]).
      by apply elem_of_nil in Hin.
  - unfold query_addresses_returns.
    destruct (self_querying_task l); try apply (Hidle (RequestReturns k service_info)).
    destruct (query_addresses_store_total l service_info) as [l' Hs]. rewrite Hs.
    destruct (query_addresses_store_fields _ _ _ Hs) as (_ & _ & _ & Hqueue & _).
    simpl. split; [intros n' Hin; left; by rewrite <-Hqueue|].
    split; [intros n' Hin|split; [intros e Hin|intros st nm Hin]]; absurd_member Hin.
  - unfold query_addresses_raises.
    destruct (self_querying_task l); try apply (Hidle (RequestRaises k e0)).
    simpl. split; [intros n' Hn'; by left|].
    split; [intros n' Hin; absurd_member Hin|].
    split; [|intros st nm Hin; absurd_member Hin].
    intros e Hin. left. apply list_elem_of_singleton in Hin. by simplify_eq.
Qed.

Lemma elem_of_log_record k acts w ev :
  ev ∈ log (record k acts w) ↔ ev ∈ log w ∨ ∃ a, a ∈ acts ∧ ev = Ev k a.
Proof.
  unfold record. simpl. rewrite elem_of_app, list_elem_of_fmap. naive_solver.
Qed.

(** A step of the loop itself leaves the sources as they are. *)
Lemma sourced_record evs k acts w :
  Forall (λ a, task_activity a = false) acts →
  sourced evs w → sourced evs (record k acts w).
Proof.
  intros Hacts [Hq Hd Hr Hreq]. rewrite Forall_forall in Hacts. split; [done|..].
  - intros k' n [Hin|(a & Ha & Heq)]%elem_of_log_record.
    + destruct (Hd k' n Hin) as [Hc [[Hi Hreq']|(e & Hi & Hraised)]].
      * split; [done|]. left. split; [done|]. apply elem_of_log_record. by left.
      * split; [done|]. right. exists e. split; [done|].
        apply elem_of_log_record. by left.
    + injection Heq as -> <-. by specialize (Hacts _ Ha).
  - intros k' e [Hin|(a & Ha & Heq)]%elem_of_log_record.
    + destruct (Hr k' e Hin) as [?|(n & ? & ?)]; [by left|].
      right. exists n. split; [|done]. apply elem_of_log_record. by left.
    + injection Heq as -> <-. by specialize (Hacts _ Ha).
  - intros k' st nm [Hin|(a & Ha & Heq)]%elem_of_log_record; [by eauto|].
    injection Heq as -> <-. by specialize (Hacts _ Ha).
Qed.

Lemma sourced_on_query evs k f w :
  (∀ q, listener (f q) = listener q) → sourced evs w → sourced evs (on_query k f w).
Proof.
  intros Hf [Hq Hd Hr Hreq]. split; [|done|done|done].
  intros k' q' n Hk'. simpl in Hk'. destruct (decide (k' = k)) as [->|].
  - rewrite list_lookup_alter_eq in Hk'.
    destruct (bonjour_queries w !! k) as [q0|] eqn:Hk; simplify_eq/=.
    rewrite Hf. by apply Hq.
  - rewrite list_lookup_alter_ne in Hk' by done. by apply Hq.
Qed.

Lemma sourced_on_listener evs evs' k f w :
  (∀ i, i ∈ evs → i ∈ evs') →
  (∀ q, bonjour_queries w !! k = Some q →
     (∀ n, n ∈ self_queue (f (listener q)).1 →
        n ∈ self_queue (listener q) ∨ Callback k n ∈ evs') ∧
     (∀ n, Dequeued n ∈ (f (listener q)).2 →
        n ∈ self_queue (listener q) ∧
        (AsyncServiceInfo_init (n_service_type n) (n_name n) = None ∧
         request_of n ∈ (f (listener q)).2
         ∨ ∃ e, AsyncServiceInfo_init (n_service_type n) (n_name n) = Some e ∧
                TaskRaised e ∈ (f (listener q)).2)) ∧
     (∀ e, TaskRaised e ∈ (f (listener q)).2 →
        RequestRaises k e ∈ evs' ∨
        ∃ n, Dequeued n ∈ (f (listener q)).2 ∧
             AsyncServiceInfo_init (n_service_type n) (n_name n) = Some e) ∧
     (∀ service_type name, Requested service_type name ∈ (f (listener q)).2 →
        AsyncServiceInfo_init service_type name = None)) →
  sourced evs w → sourced evs' (on_listener k f w).
Proof.
  intros Hsub Hf Hs. pose proof (sourced_more _ _ _ Hsub Hs) as [Hq Hd Hr Hreq].
  unfold on_listener. destruct (bonjour_queries w !! k) as [q|] eqn:Hk; [|done].
  destruct (Hf q eq_refl) as (Hf1 & Hf2 & Hf3 & Hf4).
  destruct (f (listener q)) as [l acts]. simpl in *. split.
  - intros k' q' n Hk' Hn. simpl in Hk'. destruct (decide (k = k')) as [<-|].
    + rewrite list_lookup_insert_eq in Hk' by (by eapply lookup_lt_Some).
      injection Hk' as <-. simpl in Hn.
      destruct (Hf1 n Hn) as [?|?]; [by eapply Hq|done].
    + rewrite list_lookup_insert_ne in Hk' by done. by eapply Hq.
  - intros k' n [Hin|(a & Ha & Heq)]%elem_of_log_record.
    + destruct (Hd k' n Hin) as [Hc [[Hi Hreq']|(e & Hi & Hraised)]].
      * split; [done|]. left. split; [done|]. apply elem_of_log_record. by left.
      * split; [done|]. right. exists e. split; [done|].
        apply elem_of_log_record. by left.
    + injection Heq as -> <-.
      destruct (Hf2 n Ha) as [Hn [[Hi Hreq']|(e & Hi & Hraised)]].
      * split; [by eapply Hq|]. left. split; [done|].
        apply elem_of_log_record. right. by exists (request_of n).
      * split; [by eapply Hq|]. right. exists e. split; [done|].
        apply elem_of_log_record. right. by exists (TaskRaised e).
  - intros k' e [Hin|(a & Ha & Heq)]%elem_of_log_record.
    + destruct (Hr k' e Hin) as [?|(n & ? & ?)]; [by left|].
      right. exists n. split; [|done]. apply elem_of_log_record. by left.
    + injection Heq as -> <-. destruct (Hf3 e Ha) as [?|(n & Hdq & Hinit)]; [by left|].
      right. exists n. split; [|done].
      apply elem_of_log_record. right. by exists (Dequeued n).
  - intros k' st nm [Hin|(a & Ha & Heq)]%elem_of_log_record; [by eauto|].
    injection Heq as -> <-. by apply Hf4.
Qed.

Lemma sourced_deliver evs w i : sourced evs w → sourced (evs ++ [i]) (deliver w i).
Proof.
  apply sourced_on_listener; [intros ??; apply elem_of_app; by left|].
  intros q Hq. destruct (react_sources (listener q) i) as (H1 & H2 & H3 & H4).
  split; [|split; [done|split; [|done]]].
  - intros n Hn. destruct (H1 n Hn) as [?|Heq]; [by left|right].
    apply elem_of_app. right. rewrite Heq at 2. by left.
  - intros e He. destruct (H3 e He) as [Heq|?]; [left|by right].
    apply elem_of_app. right. rewrite Heq at 2. by left.
Qed.

Lemma sourced_foldl_deliver more : ∀ evs w,
  sourced evs w → sourced (evs ++ more) (foldl deliver w more).
Proof.
  induction more as [|i more IH]; intros evs w Hs; [by rewrite app_nil_r|].
  simpl. change (i :: more) with ([i] ++ more). rewrite app_assoc.
  by apply IH, sourced_deliver.
Qed.

Lemma sourced_teardown_session evs o k q w w' r :
  bonjour_queries w !! k = Some q → sourced evs w →
  teardown_session o k q w = (w', r) →
  sourced (evs ++ teardown_incoming o) w'.
Proof.
  intros Hk Hs. unfold teardown_session, teardown_incoming.
  set (w1 := on_listener k (λ _, (closed_self (close (listener q)), [TaskCancel])) w).
  assert (sourced evs w1) as Hs1.
  { apply (sourced_on_listener evs); [done| |done].
    intros q0 Hq0. simplify_eq. simpl. split; [|split; [|split]].
    - intros n Hn. left. unfold close in Hn.
      by destruct (self_querying_task (listener q)).
    - intros n Hin. absurd_member Hin.
    - intros e Hin. absurd_member Hin.
    - intros st nm Hin. absurd_member Hin. }
  set (w2 := if suspends (close (listener q))
             then foldl deliver w1 (during_join o) else w1).
  assert (sourced (evs ++ during_join o) w2) as Hs2.
  { unfold w2. destruct (suspends _); [by apply sourced_foldl_deliver|].
    eapply sourced_more; [|exact Hs1]. intros ??. apply elem_of_app. by left. }
  destruct (raises (close (listener q))) as [e1|].
  { intros [= <- <-]. apply sourced_record; [by repeat constructor|].
    eapply sourced_more; [|exact Hs2]. set_solver. }
  set (w4 := foldl deliver (record k [TaskJoined] w2) (during_async_cancel o)).
  assert (sourced ((evs ++ during_join o) ++ during_async_cancel o) w4) as Hs4.
  { apply sourced_foldl_deliver, sourced_record; [by repeat constructor|done]. }
  destruct (async_cancel_result o) as [e2|].
  { intros [= <- <-]. apply sourced_record; [by repeat constructor|].
    eapply sourced_more; [|exact Hs4]. set_solver. }
  set (w6 := foldl deliver (record k [BrowserCancelled] (on_query k cancel_browser w4))
               (during_async_close o)).
  assert (sourced (evs ++ during_join o ++ during_async_cancel o ++ during_async_close o)
            w6) as Hs6.
  { rewrite !app_assoc.
    apply sourced_foldl_deliver, sourced_record; [by repeat constructor|].
    by apply sourced_on_query. }
  destruct (async_close_result o) as [e3|]; intros [= <- <-].
  - by apply sourced_record; [by repeat constructor|].
  - apply sourced_record; [by repeat constructor|]. by apply sourced_on_query.
Qed.

Lemma sourced_collect evs k q w answers w1 answers1 :
  sourced evs w → collect k q w answers = (w1, answers1) →
  sourced evs w1 ∧ bonjour_queries w1 = bonjour_queries w.
Proof.
  intros Hs. unfold collect. destruct (self_addresses (listener q));
    [by intros [= <- <-]|].
  destruct (decide _); intros [= <- <-];
    (split; [apply sourced_record; [by repeat constructor|done]|done]).
Qed.

Lemma sourced_browse_loop sch ks : ∀ evs w answers w' out,
  sourced evs w → browse_loop sch ks w answers = (w', out) →
  sourced (evs ++ (k ← ks; teardown_incoming (teardown sch k))) w'.
Proof.
  induction ks as [|k ks IH]; intros evs w answers w' out Hs.
  { intros [= <- <-]. by rewrite app_nil_r. }
  simpl. change (mbind ?f (k :: ks)) with (f k ++ mbind f ks).
  destruct (bonjour_queries w !! k) as [q|] eqn:Hk.
  - destruct (collect k q w answers) as [w1 answers1] eqn:Hcollect.
    destruct (sourced_collect _ _ _ _ _ _ _ Hs Hcollect) as [Hs1 Hq1].
    assert (bonjour_queries w1 !! k = Some q) as Hk1 by (by rewrite Hq1).
    destruct (teardown_session (teardown sch k) k q w1) as [w2 [e|]] eqn:Htear;
      pose proof (sourced_teardown_session _ _ _ _ _ _ _ Hk1 Hs1 Htear) as Hs2.
    + intros [= <- <-]. eapply sourced_more; [|exact Hs2]. set_solver.
    + intros Hloop. rewrite app_assoc. by eapply IH.
  - intros Hloop. eapply sourced_more; [|by eapply IH]. set_solver.
Qed.

(** In a run of [browse], everything has its source in what the schedule
    delivers. *)
Lemma browse_sourced service_name ips t sch w out :
  browse service_name ips t sch = (w, out) →
  sourced (scheduled sch (length ips)) w.
Proof.
  rewrite browse_unfold. intros Hloop. unfold scheduled.
  eapply sourced_browse_loop; [|exact Hloop].
  apply (sourced_foldl_deliver _ []). split.
  - intros k q n Hq Hn. simpl in Hq. rewrite list_lookup_fmap in Hq.
    destruct (ips !! k); simplify_eq/=. by apply elem_of_nil in Hn.
  - intros k n Hin. simpl in Hin.
    apply elem_of_app in Hin as [Hin|Hin%list_elem_of_singleton]; [|done].
    by apply elem_of_lookup_imap in Hin as (? & ? & ? & _).
  - intros k e Hin. simpl in Hin.
    apply elem_of_app in Hin as [Hin|Hin%list_elem_of_singleton]; [|done].
    by apply elem_of_lookup_imap in Hin as (? & ? & ? & _).
  - intros k st nm Hin. simpl in Hin.
    apply elem_of_app in Hin as [Hin|Hin%list_elem_of_singleton]; [|done].
    by apply elem_of_lookup_imap in Hin as (? & ? & ? & _).
Qed.

(** ** Whole runs, session by session *)

Lemma started_pending service_name ips t i q :
  bonjour_queries (started service_name ips t) !! i = Some q →
  pending (started service_name ips t) i q.
Proof.
  unfold started at 1. cbn [bonjour_queries]. rewrite list_lookup_fmap. intros Hq.
  destruct (ips !! i) as [ip|] eqn:Hip; [|done]. injection Hq as <-.
  split; [|done]. unfold loop_view, started. cbn [log].
  by rewrite view_app, view_created, Hip.
Qed.

Lemma browse_trace service_name ips t sch w out :
  browse service_name ips t sch = (w, out) →
  sequential (log w) ∧
  match out with
  | inr _ => ∀ i q, bonjour_queries w !! i = Some q → processed sch w i q
  | inl e => ∃ k, k < length ips ∧ stopped_at sch w k e
  end.
Proof.
  rewrite browse_unfold.
  set (w0 := started service_name ips t).
  set (w1 := foldl deliver w0 (during_sleep sch)).
  assert (later w0 w1) as Hl by apply later_foldl_deliver.
  assert (world_ok w1) as Hw1.
  { apply world_ok_foldl_deliver, (run_ok t), (loop_run t 0 _ []), started_inv. }
  assert (loop_inv t 0 w1 []) as Hinv.
  { apply (loop_inv_later _ _ w0); [done|done|apply started_inv]. }
  intros Hloop.
  assert (sequential (log w1)) as Hseq.
  { intros pre i a post Heq Ha.
    assert (a ∈ loop_view i (log w1)) as Hin.
    { apply elem_of_loop_view. split; [|done]. rewrite Heq. set_solver. }
    unfold w1 in Hin. rewrite loop_view_foldl_deliver in Hin.
    assert (loop_view i (log w0) = []) as Hnil; [|by rewrite Hnil in Hin; set_solver].
    destruct (bonjour_queries w0 !! i) as [q|] eqn:Hq;
      [by destruct (started_pending _ _ _ _ _ Hq)|].
    unfold w0, loop_view, started in *. cbn [log bonjour_queries] in *.
    rewrite list_lookup_fmap in Hq. rewrite view_app, view_created.
    by destruct (ips !! i). }
  apply (browse_loop_trace sch t (length ips) 0 w1 [] w out); try done.
  - rewrite (binding_length _ _ (proj1 Hl)). simpl. by rewrite length_fmap.
  - intros i Hi. lia.
  - split; [|intros i q Hi; lia]. rewrite take_0.
    rewrite (proj1 (later_marked w0 w1 Hl)). apply started_constructed.
  - intros i q Hi. lia.
  - intros i q _ Hq. apply (pending_step w0); [| | |done].
    + intros q0. apply started_pending.
    + by apply lookup_foldl_deliver.
    + apply loop_view_foldl_deliver.
Qed.

Lemma task_raised_state l tr e :
  listener_inv l tr → TaskRaised e ∈ tr →
  self_addresses l = [] ∧
  self_querying_task l = (if decide (e = CancelledError) then Cancelled else Raised e) ∧
  ∃ n, task_trace tr = [Dequeued n; request_of n; TaskRaised e] ∨
       task_trace tr = [Dequeued n; TaskRaised e].
Proof.
  intros [Ht _ _] Hin. unfold task_inv in Ht.
  assert (TaskRaised e ∈ task_trace tr) as Hin' by (by apply elem_of_task_trace).
  assert (∀ n e', TaskRaised e ∈ [Dequeued n; request_of n; TaskRaised e'] → e' = e)
    as Hlong.
  { intros n e' Hx. unfold request_of in Hx.
    repeat (apply elem_of_cons in Hx as [Heq|Hx]; [by simplify_eq|]).
    by apply elem_of_nil in Hx. }
  assert (∀ n e', TaskRaised e ∈ [Dequeued n; TaskRaised e'] → e' = e) as Hshort.
  { intros n e' Hx.
    repeat (apply elem_of_cons in Hx as [Heq|Hx]; [by simplify_eq|]).
    by apply elem_of_nil in Hx. }
  destruct (self_querying_task l) as [|n| | |e'].
  - destruct Ht as (Ht & _). rewrite Ht in Hin'. absurd_member Hin'.
  - destruct Ht as (Ht & _). rewrite Ht in Hin'. absurd_member Hin'.
  - destruct Ht as (n & info & Ht & _). rewrite Ht in Hin'. absurd_member Hin'.
  - destruct Ht as (Ha & [Ht|(n & [Ht|[Ht|Ht]])]); rewrite Ht in Hin';
      try absurd_member Hin'.
    + apply Hlong in Hin' as <-. split; [done|]. split; [done|]. exists n. by left.
    + apply Hshort in Hin' as <-. split; [done|]. split; [done|]. exists n. by right.
  - destruct Ht as (Ha & Hne & n & [Ht|Ht]); rewrite Ht in Hin'.
    + apply Hlong in Hin' as ->. split; [done|]. rewrite decide_False by done.
      split; [done|]. exists n. by left.
    + apply Hshort in Hin' as ->. split; [done|]. rewrite decide_False by done.
      split; [done|]. exists n. by right.
Qed.

(** A task of a run of [browse] ends by an exception only when the
    library raises it, at one of two places.  Either the constructor of
    [AsyncServiceInfo] (line 40) raised it for the notification the task
    had taken from the queue, which a callback of the run had delivered:
    then the task made no request.  Or the constructor accepted the
    notification, the request was started, and [async_request] (line 41)
    raised it.  Nothing else [query_addresses] does can raise, the
    subscript [split('%')[1]] included.  A session whose task failed has
    no addresses; its task is cancelled when the exception was
    CancelledError, and otherwise holds the exception, which [close] will
    raise. *)
Theorem task_fails_only_when_library_raises service_name addrs t sch w out k q e :
  browse service_name addrs t sch = (w, out) →
  bonjour_queries w !! k = Some q →
  TaskRaised e ∈ view k (log w) →
  (∃ n, Callback k n ∈ scheduled sch (length addrs) ∧
     (task_trace (view k (log w)) = [Dequeued n; TaskRaised e] ∧
      AsyncServiceInfo_init (n_service_type n) (n_name n) = Some e
      ∨
      task_trace (view k (log w)) = [Dequeued n; request_of n; TaskRaised e] ∧
      AsyncServiceInfo_init (n_service_type n) (n_name n) = None ∧
      RequestRaises k e ∈ scheduled sch (length addrs))) ∧
  self_addresses (listener q) = [] ∧
  self_querying_task (listener q) =
    (if decide (e = CancelledError) then Cancelled else Raised e) ∧
  raises (close (listener q)) =
    (if decide (e = CancelledError) then None else Some e).
Proof.
  intros Hrun Hq Hin.
  destruct (browse_run _ _ _ _ _ _ Hrun) as ([Hw _ _ _ _] & _).
  destruct (browse_sourced _ _ _ _ _ _ Hrun) as [_ Hd Hr Hreq].
  destruct (task_raised_state _ _ _ (Hw k q Hq) Hin) as (Ha & Ht & n & Hshape).
  assert (∀ a, Ev k a ∈ log w → task_activity a = true →
            a ∈ task_trace (view k (log w))) as Htrace.
  { intros a Ha' Hact. apply elem_of_task_trace. split; [|done]. by apply elem_of_view. }
  assert (Ev k (Dequeued n) ∈ log w) as Hdq.
  { apply elem_of_view.
    assert (Dequeued n ∈ task_trace (view k (log w))) as Hx
      by (destruct Hshape as [->| ->]; by left).
    by apply elem_of_task_trace in Hx as [Hx _]. }
  destruct (Hd k n Hdq) as [Hcb Hinit].
  split; [|split; [done|split; [done|]]].
  - exists n. split; [done|]. destruct Hshape as [Hshape|Hshape].
    + right. split; [done|].
      assert (AsyncServiceInfo_init (n_service_type n) (n_name n) = None) as Hnone.
      { apply (Hreq k). apply elem_of_view.
        assert (request_of n ∈ task_trace (view k (log w))) as Hx
          by (rewrite Hshape; right; by left).
        by apply elem_of_task_trace in Hx as [Hx _]. }
      split; [done|].
      destruct (Hr k e) as [Hraise|(n' & Hdq' & Hinit')]; [by apply elem_of_view|done|].
      pose proof (Htrace _ Hdq' eq_refl) as Hx. rewrite Hshape in Hx.
      unfold request_of in Hx.
      assert (n' = n) as ->.
      { repeat (apply elem_of_cons in Hx as [Heq|Hx]; [by simplify_eq|]).
        by apply elem_of_nil in Hx. }
      congruence.
    + left. split; [done|].
      destruct Hinit as [[_ Hrq]|(e' & Hinit & Hraised)].
      * pose proof (Htrace _ Hrq eq_refl) as Hx. rewrite Hshape in Hx.
        unfold request_of in Hx. absurd_member Hx.
      * pose proof (Htrace _ Hraised eq_refl) as Hx. rewrite Hshape in Hx.
        assert (e' = e) as ->; [|done].
        repeat (apply elem_of_cons in Hx as [Heq|Hx]; [by simplify_eq|]).
        by apply elem_of_nil in Hx.
  - unfold close. rewrite Ht.
    destruct (decide (e = CancelledError)); [done|]. simpl. by rewrite decide_False.
Qed.


(** ** Teardown, in every run *)

Lemma filter_teardown_loop_view k lg :
  filter (λ a, teardown_action a) (view k lg) =
  filter (λ a, teardown_action a) (loop_view k lg).
Proof.
  unfold loop_view. induction (view k lg) as [|a l IH]; [done|].
  rewrite !filter_cons. destruct a; simpl; rewrite ?filter_cons; simpl; by rewrite ?IH.
Qed.

Lemma filter_teardown_collect before q :
  filter (λ a, teardown_action a) (collect_actions before q) = [].
Proof.
  unfold collect_actions. destruct (candidate q); [|done]. by destruct (decide _).
Qed.

(** C5, as the code has it.  [close] does not raise, and a second call
    does nothing and does not raise either, unless the task ended by an
    exception other than CancelledError: then [close] raises that
    exception and leaves the listener as it was, so that every further
    call raises it again.  In every run of [browse], whether it returns
    or raises, the teardown steps that ran for a session are the first
    steps of the teardown, in order and once each: a step runs only once
    the one before it has returned.  And when no exception left
    [browse], it returned and all the steps ran for every session of the
    list, each of which is left with its task ended, its browser
    cancelled and its client closed. *)
Theorem teardown_completes_without_error :
  (∀ self,
     (∀ e, self_querying_task self = Raised e → e = CancelledError) →
     raises (close self) = None ∧
     close (closed_self (close self)) =
       {| closed_self := closed_self (close self); suspends := false; raises := None |}) ∧
  (∀ self e,
     self_querying_task self = Raised e → e ≠ CancelledError →
     close self = {| closed_self := self; suspends := false; raises := Some e |} ∧
     ∀ calls, raises (close (Nat.iter calls (λ l, closed_self (close l)) self)) = Some e) ∧
  (∀ service_name addrs t sch w out k,
     browse service_name addrs t sch = (w, out) → k < length addrs →
     filter (λ a, teardown_action a) (view k (log w)) `prefix_of` teardown_steps) ∧
  (∀ service_name addrs t sch w out,
     browse service_name addrs t sch = (w, out) →
     propagated (log w) = [] →
     (∃ answers, out = inr answers) ∧
     ∀ k, k < length addrs →
       filter (λ a, teardown_action a) (view k (log w)) = teardown_steps ∧
       teardown_steps `sublist_of` view k (log w) ∧
       ∃ q, bonjour_queries w !! k = Some q ∧ torn_down q).
Proof.
  assert (∀ sch w i q, processed sch w i q →
            filter (λ a, teardown_action a) (view i (log w)) = teardown_steps) as Hall.
  { intros sch w i q [Hsteps _ _].
    by rewrite filter_teardown_loop_view, Hsteps, filter_app, filter_teardown_collect. }
  split; [apply close_twice|]. split; [|split].
  - intros self e Ht Hne.
    assert (close self = {| closed_self := self; suspends := false; raises := Some e |})
      as Hclose by (unfold close; rewrite Ht; by rewrite decide_False).
    split; [done|]. intros calls.
    assert (Nat.iter calls (λ l, closed_self (close l)) self = self) as ->; [|by rewrite Hclose].
    induction calls as [|calls IH]; [done|]. simpl. rewrite IH. by rewrite Hclose.
  - intros service_name addrs t sch w out k Hrun Hk.
    destruct (browse_run _ _ _ _ _ _ Hrun) as (_ & Hb & _).
    assert (is_Some (bonjour_queries w !! k)) as [q Hq].
    { apply lookup_lt_is_Some. by rewrite <-(length_fmap binding), Hb, length_fmap. }
    destruct (browse_trace _ _ _ _ _ _ Hrun) as [_ Hout].
    destruct out as [e|answers]; [|by rewrite (Hall sch w k q) by (by apply Hout)].
    destruct Hout as (k0 & _ & [Hbefore Hafter Hhere]).
    destruct (lt_eq_lt_dec k k0) as [[Hlt| ->]|Hgt].
    + by rewrite (Hall sch w k q) by (by apply Hbefore).
    + destruct Hhere as (q0 & steps & _ & _ & _ & Hview & Hsteps).
      rewrite filter_teardown_loop_view, Hview, !filter_app, filter_teardown_collect.
      destruct Hsteps as [(-> & _)|[(-> & _)|(-> & _)]]; simpl.
      * by exists [TaskJoined; BrowserCancelled; ClientClosed].
      * by exists [BrowserCancelled; ClientClosed].
      * by exists [ClientClosed].
    + destruct (Hafter k q Hgt Hq) as (Hview & _).
      rewrite filter_teardown_loop_view, Hview. apply prefix_nil.
  - intros service_name addrs t sch w out Hrun Hquiet.
    destruct (browse_run _ _ _ _ _ _ Hrun) as (_ & Hb & _ & Hout).
    destruct out as [e|answers].
    { destruct Hout as (k & _ & Hp & _). by rewrite Hquiet in Hp. }
    split; [by eexists|]. destruct Hout as (_ & _ & Hdone & _).
    intros k Hk. split; [|by apply Hdone].
    assert (is_Some (bonjour_queries w !! k)) as [q Hq].
    { apply lookup_lt_is_Some. by rewrite <-(length_fmap binding), Hb, length_fmap. }
    destruct (browse_trace _ _ _ _ _ _ Hrun) as [_ Hproc].
    by apply (Hall sch w k q), Hproc.
Qed.

(** When [browse] returns a list, no call of any teardown raised, every
    task ended normally or cancelled, and the only exception a request
    can have raised is CancelledError: any other failure of a request, in
    any session, makes [browse] raise. *)
Theorem browse_returns_only_without_failure service_name addrs t sch w answers :
  browse service_name addrs t sch = (w, inr answers) →
  (∀ k, k < length addrs →
     async_cancel_result (teardown sch k) = None ∧
     async_close_result (teardown sch k) = None) ∧
  (∀ k q, bonjour_queries w !! k = Some q →
     self_querying_task (listener q) = Returned ∨
     self_querying_task (listener q) = Cancelled) ∧
  (∀ k e, k < length addrs → TaskRaised e ∈ view k (log w) → e = CancelledError).
Proof.
  intros Hrun. destruct (browse_trace _ _ _ _ _ _ Hrun) as [_ Hproc].
  destruct (browse_run _ _ _ _ _ _ Hrun) as ([Hw _ _ _ _] & _).
  pose proof (run_sessions _ _ _ _ _ _ Hrun) as Hlen.
  assert (∀ k q, bonjour_queries w !! k = Some q →
            self_querying_task (listener q) = Returned ∨
            self_querying_task (listener q) = Cancelled) as Htask.
  { intros k q Hq. destruct (Hproc k q Hq) as [_ [Hover Hraise] _].
    destruct (Hw k q Hq) as [Ht _ _]. unfold task_inv in Ht. unfold over, close in *.
    destruct (self_querying_task (listener q)) as [| | | |e]; try done; [by left|by right|].
    destruct Ht as (_ & Hne & _). simpl in Hraise. by rewrite decide_False in Hraise. }
  split; [|split; [done|]].
  - intros k Hk. assert (is_Some (bonjour_queries w !! k)) as [q Hq].
    { apply lookup_lt_is_Some. by rewrite Hlen. }
    by destruct (Hproc k q Hq) as [_ _ ?].
  - intros k e Hk Hin.
    assert (is_Some (bonjour_queries w !! k)) as [q Hq].
    { apply lookup_lt_is_Some. by rewrite Hlen. }
    destruct (task_raised_state _ _ _ (Hw k q Hq) Hin) as (_ & Ht & _).
    destruct (decide (e = CancelledError)); [done|].
    destruct (Htask k q Hq) as [Ht'|Ht']; congruence.
Qed.

(** When [browse] returns, this is all its loop has done for a session,
    in this order: build the answer when the listener has addresses, and
    append it when no earlier session has an equal one; then
    [querying_task.cancel()], the end of [await querying_task],
    [async_cancel()] and [async_close()], once each. *)
Theorem every_session_is_closed_once service_name addrs t sch w answers k q :
  browse service_name addrs t sch = (w, inr answers) →
  bonjour_queries w !! k = Some q →
  loop_view k (log w) =
    collect_actions (candidates (take k (bonjour_queries w))) q
    ++ [TaskCancel; TaskJoined; BrowserCancelled; ClientClosed] ∧
  (candidate q = None →
   loop_view k (log w) = [TaskCancel; TaskJoined; BrowserCancelled; ClientClosed]) ∧
  (∀ answer, candidate q = Some answer →
     (Appended answer ∈ view k (log w) ↔
      answer ∉ candidates (take k (bonjour_queries w)))).
Proof.
  intros Hrun Hq. destruct (browse_trace _ _ _ _ _ _ Hrun) as [_ Hproc].
  destruct (Hproc k q Hq) as [Hsteps _ _].
  split; [done|]. split.
  - intros Hc. rewrite Hsteps. unfold collect_actions. by rewrite Hc.
  - intros answer Hc.
    assert (Appended answer ∈ view k (log w) ↔ Appended answer ∈ loop_view k (log w))
      as ->.
    { unfold loop_view. rewrite list_elem_of_filter. naive_solver. }
    rewrite Hsteps. unfold collect_actions. rewrite Hc.
    destruct (decide (answer ∈ candidates (take k (bonjour_queries w)))) as [Hin|Hin].
    + split; [|done]. intros Ha. absurd_member Ha.
    + split; [done|]. intros _. set_solver.
Qed.


(** ** The zone of a bound address with more than one ['%'] *)

(** [split('%')[1]] is the text between the first ['%'] of the bound
    address and the next one: bound to [addr%zone%rest], a listener gives
    its IPv6 literals the suffix [%zone], not [%zone%rest]. *)
Theorem zone_stops_at_second_percent self service_info addr zone rest :
  self_ip self = addr +:+ "%" +:+ zone +:+ "%" +:+ rest →
  contains "%" addr = false → contains "%" zone = false →
  ∃ self',
    query_addresses_store self service_info = inr self' ∧
    self_addresses self' =
      (inet_ntop_AF_INET <$> ip_addresses_V4Only service_info) ++
      ((λ a, inet_ntop_AF_INET6 a +:+ "%" +:+ zone) <$> ip_addresses_V6Only service_info).
Proof.
  intros Hip Ha Hz. unfold query_addresses_store.
  rewrite Hip, scoped_literal.
  change ("%" +:+ zone +:+ "%" +:+ rest) with (String "%" (zone +:+ String "%" rest)).
  rewrite split_at_first by done. rewrite split_at_first by done. simpl.
  by eexists.
Qed.

(** The loop of [browse] handles the sessions one after the other, in
    every run: when it takes a step for a session (builds or appends its
    answer, cancels its task, ...), the client of every session before it
    has already been closed. *)
Theorem sessions_are_handled_one_at_a_time service_name addrs t sch w out :
  browse service_name addrs t sch = (w, out) →
  ∀ pre i a post,
    log w = pre ++ Ev i a :: post → loop_action a = true →
    ∀ i', i' < i → Ev i' ClientClosed ∈ pre.
Proof. intros Hrun. by destruct (browse_trace _ _ _ _ _ _ Hrun) as [Hseq _]. Qed.

End proofs.

(** * Concrete runs *)

Lemma browse_deduplicates_witness :
  twin_run.2 = inr [sample_answer "7"] ∧
  candidates (bonjour_queries twin_run.1) = [sample_answer "7"; sample_answer "7"] ∧
  NoDup [sample_answer "7"] ∧
  [sample_answer "7"] = first_seen (candidates (bonjour_queries twin_run.1)).
Proof.
  assert (twin_run = (twin_run.1, inr [sample_answer "7"])) as Hrun by (by vm_compute).
  destruct (@browse_deduplicates uncompressed_ntop fitting_names _ _ _ _ _ _ Hrun) as (Hnd & Hfs & _).
  split; [by vm_compute|]. split; [by vm_compute|]. split; [exact Hnd|exact Hfs].
Defined.

Lemma browse_keeps_interface_order_witness :
  (* the second interface resolved first *)
  view 1 (log shuffled_run.1) !! 4 = Some (Populated (sample_info x02)) ∧
  Ev 1 (Populated (sample_info x02)) ∈ take 8 (log shuffled_run.1) ∧
  Ev 0 (Populated (sample_info x01)) ∉ take 8 (log shuffled_run.1) ∧
  (* and the result is in interface order *)
  shuffled_run.2 = inr [sample_answer "1"; sample_answer "2"; sample_answer "3"] ∧
  [sample_answer "1"; sample_answer "2"; sample_answer "3"] =
    answer_of ∘ listener <$> bonjour_queries shuffled_run.1.
Proof.
  assert (shuffled_run =
            (shuffled_run.1, inr [sample_answer "1"; sample_answer "2"; sample_answer "3"]))
    as Hrun by (by vm_compute).
  destruct (@browse_keeps_interface_order uncompressed_ntop fitting_names _ _ _ _ _ _ Hrun)
    as (_ & _ & _ & _ & Hall).
  split; [by vm_compute|].
  split; [by apply (bool_decide_unpack _); vm_compute|].
  split; [by apply (bool_decide_unpack _); vm_compute|].
  split; [by vm_compute|].
  apply Hall; [by vm_compute|]. by apply (bool_decide_unpack _); vm_compute.
Defined.

Lemma run_pair {A B} (r : A * B) : r = (r.1, r.2).
Proof. by destruct r. Qed.

(** The request of the first session raises: [close] re-raises the
    exception, the browser and the client of that session are left as they
    are, and the teardown of the second session does not start. *)
Lemma teardown_skipped_after_error :
  failing_run.2 = inl (LibraryError "NotRunningException") ∧
  (raises ∘ close ∘ listener <$> bonjour_queries failing_run.1)
    = [Some (LibraryError "NotRunningException"); None] ∧
  (zc_closed ∘ zc <$> bonjour_queries failing_run.1) = [false; false] ∧
  (browser_cancelled ∘ service_browser <$> bonjour_queries failing_run.1) = [false; false] ∧
  drop 5 (view 0 (log failing_run.1))
    = [TaskCancel; Propagated (LibraryError "NotRunningException")] ∧
  drop 4 (view 1 (log failing_run.1)) = [Populated (sample_info x07)] ∧
  ¬ teardown_steps `sublist_of` view 0 (log failing_run.1) ∧
  ¬ teardown_steps `sublist_of` view 1 (log failing_run.1).
Proof.
  repeat (split; [by vm_compute|]).
  split; intros Hsub; eapply (elem_of_sublist _ _ ClientClosed) in Hsub;
    try (by repeat constructor); revert Hsub; by apply (bool_decide_unpack _).
Qed.

Lemma teardown_completes_without_error_witness :
  raises (close (sample_listener "10.0.0.4")) = None ∧
  close (closed_self (close (sample_listener "10.0.0.4"))) =
    {| closed_self := set_task (sample_listener "10.0.0.4") Cancelled;
       suspends := false; raises := None |} ∧
  close failed_listener =
    {| closed_self := failed_listener; suspends := false;
       raises := Some (LibraryError "NotRunningException") |} ∧
  raises (close (Nat.iter 3 (λ l, closed_self (close l)) failed_listener)) =
    Some (LibraryError "NotRunningException") ∧
  filter (λ a, teardown_action a) (view 0 (log failing_run.1)) = [TaskCancel] ∧
  filter (λ a, teardown_action a) (view 0 (log failing_run.1)) `prefix_of` teardown_steps ∧
  filter (λ a, teardown_action a) (view 1 (log failing_run.1)) `prefix_of` teardown_steps ∧
  twin_run.2 = inr [sample_answer "7"] ∧
  filter (λ a, teardown_action a) (view 0 (log twin_run.1)) = teardown_steps ∧
  teardown_steps `sublist_of` view 0 (log twin_run.1) ∧
  teardown_steps `sublist_of` view 1 (log twin_run.1) ∧
  ∃ q, bonjour_queries twin_run.1 !! 1 = Some q ∧ torn_down q.
Proof.
  destruct (@teardown_completes_without_error uncompressed_ntop fitting_names)
    as (Hclose & Hraise & Hprefix & Hrun).
  destruct (Hclose (sample_listener "10.0.0.4")) as [Hr Hc]; [by intros e [=]|].
  destruct (Hraise failed_listener (LibraryError "NotRunningException"))
    as [Hfail Hagain]; [reflexivity|by intros [=]|].
  destruct (Hrun _ _ _ _ _ _ (run_pair twin_run)) as [_ Hsteps]; [by vm_compute|].
  assert (0 < length ["192.168.1.4"; "10.0.0.4"]) as H0 by (simpl; lia).
  assert (1 < length ["192.168.1.4"; "10.0.0.4"]) as H1 by (simpl; lia).
  split; [exact Hr|]. split; [exact Hc|]. split; [exact Hfail|].
  split; [exact (Hagain 3)|]. split; [by vm_compute|].
  split; [exact (Hprefix _ _ _ _ _ _ 0 (run_pair failing_run) H0)|].
  split; [exact (Hprefix _ _ _ _ _ _ 1 (run_pair failing_run) H1)|].
  split; [by vm_compute|].
  split; [exact (proj1 (Hsteps 0 H0))|].
  split; [exact (proj1 (proj2 (Hsteps 0 H0)))|]. exact (proj2 (Hsteps 1 H1)).
Defined.

Lemma task_joined_before_client_closed_witness :
  view 1 (log mixed_run.1) = take 7 (view 1 (log mixed_run.1)) ++ [ClientClosed] ∧
  BrowserCancelled ∈ take 7 (view 1 (log mixed_run.1)) ∧
  TaskJoined ∈ take 7 (view 1 (log mixed_run.1)) ∧
  TaskCancel ∈ take 7 (view 1 (log mixed_run.1)).
Proof.
  assert (view 1 (log mixed_run.1) = take 7 (view 1 (log mixed_run.1)) ++ [ClientClosed])
    as Heq by (by vm_compute).
  destruct (@task_joined_before_client_closed uncompressed_ntop fitting_names _ _ _ _ _ _ 1
              (run_pair mixed_run)) as (Hclosed & _); [simpl; lia|].
  split; [exact Heq|]. exact (Hclosed _ _ Heq).
Defined.


Lemma unresolved_session_is_silent_witness :
  (* the first session is never notified *)
  (∃ q, bonjour_queries mixed_run.1 !! 0 = Some q ∧
        self_addresses (listener q) = [] ∧ raises (close (listener q)) = None) ∧
  (* the request of the second one never returns *)
  (∃ q, bonjour_queries mixed_run.1 !! 1 = Some q ∧
        self_addresses (listener q) = [] ∧ raises (close (listener q)) = None) ∧
  mixed_run.2 = inr [sample_answer "3"].
Proof.
  assert (is_Some (bonjour_queries mixed_run.1 !! 0)) as [q0 Hq0] by (vm_compute; by eexists).
  assert (is_Some (bonjour_queries mixed_run.1 !! 1)) as [q1 Hq1] by (vm_compute; by eexists).
  assert (view 0 (log mixed_run.1) =
            [Created MOBDEV2_SERVICE_NAME "192.168.1.4"; TaskCancel; TaskJoined;
             BrowserCancelled; ClientClosed]) as Hv0 by (by vm_compute).
  assert (view 1 (log mixed_run.1) =
            [Created MOBDEV2_SERVICE_NAME "10.0.0.4"; Notified (sample_note "10.0.0.4");
             Dequeued (sample_note "10.0.0.4"); request_of (sample_note "10.0.0.4");
             TaskCancel; TaskJoined; BrowserCancelled; ClientClosed]) as Hv1
    by (by vm_compute).
  split; [|split; [|by vm_compute]].
  - destruct (@unresolved_session_is_silent uncompressed_ntop fitting_names _ _ _ _ _ _ 0 q0
                (run_pair mixed_run) Hq0) as (Ha & _ & _ & Hc & _).
    { left. intros n Hin. rewrite Hv0 in Hin. absurd_member Hin. }
    by exists q0.
  - destruct (@unresolved_session_is_silent uncompressed_ntop fitting_names _ _ _ _ _ _ 1 q1
                (run_pair mixed_run) Hq1) as (Ha & _ & _ & Hc & _).
    { right. split; intros ? Hin; rewrite Hv1 in Hin; absurd_member Hin. }
    by exists q1.
Defined.

Lemma entry_points_bind_service_types_witness :
  get_ipv6_ips linux_host = inr ["fe80::7%en0"] ∧
  browse_ipv4_ips linux_host = ["192.168.1.4"] ∧
  binding <$> bonjour_queries (@browse_remoted uncompressed_ntop fitting_names linux_host one_second silence).1
    = [(["fe80::7%en0"], ["_remoted._tcp.local."], "fe80::7%en0")] ∧
  binding <$> bonjour_queries (@browse_mobdev2 uncompressed_ntop fitting_names linux_host one_second silence).1
    = [(["192.168.1.4"], ["_apple-mobdev2._tcp.local."], "192.168.1.4")] ∧
  binding <$>
    bonjour_queries (@browse_remotepairing uncompressed_ntop fitting_names linux_host one_second silence).1
    = [(["192.168.1.4"], ["_remotepairing-manual-pairing._tcp.local."], "192.168.1.4")] ∧
  slept (log (@browse_remoted uncompressed_ntop fitting_names linux_host one_second silence).1)
    = [one_second].
Proof.
  destruct (@entry_points_bind_service_types uncompressed_ntop fitting_names linux_host one_second silence)
    as (H6 & H4 & Hp).
  destruct (H6 ["fe80::7%en0"] _ _ eq_refl (run_pair _)) as (Hb6 & _ & Hs6).
  destruct (H4 _ _ (run_pair _)) as (Hb4 & _).
  destruct (Hp _ _ (run_pair _)) as (Hbp & _).
  split; [reflexivity|]. split; [reflexivity|].
  split; [exact Hb6|]. split; [exact Hb4|]. split; [exact Hbp|exact Hs6].
Defined.

Lemma resolved_addresses_carry_zone_witness :
  ∃ q, bonjour_queries scoped_run.1 !! 0 = Some q ∧
    self_ip (listener q) = "fe80::7%en0" ∧
    self_addresses (listener q) = ["192.168.1.7"; "fe80:0:0:0:0:0:0:5%en0"] ∧
    ends_with "%en0" "fe80::7%en0" ∧
    Forall (ends_with "%en0") ["fe80:0:0:0:0:0:0:5%en0"] ∧
    scoped_run.2 = inr [answer_of (listener q); sample_answer "7"].
Proof.
  assert (is_Some (bonjour_queries scoped_run.1 !! 0)) as [q Hq]
    by (vm_compute; by eexists).
  destruct (@resolved_addresses_carry_zone uncompressed_ntop fitting_names _ _ _ _ _ _ 0 q
              (sample_info x07) (run_pair scoped_run) Hq)
    as (ip & ipv6 & _ & _ & Hip & Ha & _ & _ & _ & Hz & _);
    [by apply (bool_decide_unpack _); vm_compute|].
  exists q. split; [exact Hq|].
  vm_compute in Hq. injection Hq as <-. simpl in Hip. subst ip.
  destruct (Hz "fe80::7" "en0") as (Hend & Hv6 & Hall); [reflexivity..|].
  rewrite Hv6 in Hall. rewrite Hv6 in Ha.
  split; [reflexivity|]. split; [exact Ha|]. split; [exact Hend|].
  split; [exact Hall|]. by vm_compute.
Defined.

Lemma unscoped_session_keeps_ipv4_only_witness :
  ∃ q, bonjour_queries scoped_run.1 !! 1 = Some q ∧
    self_ip (listener q) = "192.168.1.4" ∧
    ip_addresses_V6Only (sample_info x07) = [sample_v6] ∧
    self_addresses (listener q) = ["192.168.1.7"] ∧
    self_querying_task (listener q) = Returned.
Proof.
  assert (is_Some (bonjour_queries scoped_run.1 !! 1)) as [q Hq]
    by (vm_compute; by eexists).
  destruct (@unscoped_session_keeps_ipv4_only uncompressed_ntop fitting_names _ _ _ _ _ _ 1 q
              (sample_info x07) (run_pair scoped_run) Hq)
    as (_ & Ha & _ & _ & Ht).
  { vm_compute in Hq. injection Hq as <-. reflexivity. }
  { by apply (bool_decide_unpack _); vm_compute. }
  exists q. split; [exact Hq|]. split; [|split; [reflexivity|split; [exact Ha|exact Ht]]].
  vm_compute in Hq. injection Hq as <-. reflexivity.
Defined.

(** ** Further runs *)

Lemma get_ipv6_ips_lists_named_zones_witness :
  ∃ l, get_ipv6_ips linux_host = inr l ∧ "fe80::7%en0" ∈ l.
Proof.
  destruct (get_ipv6_ips_lists_named_zones linux_host) as (l & Hl & Hiff);
    [by vm_compute|].
  exists l. split; [exact Hl|]. apply Hiff.
  exists {| ifaddr.nice_name := "en0";
            ifaddr.ips := [{| ifaddr.ip := ifaddr.ip_str "192.168.1.4" |};
                           {| ifaddr.ip := ifaddr.ip_tuple "fe80::7" 0 2 |}] |},
    "fe80::7", 0%Z, 2%Z.
  split; [by repeat constructor|]. split; [by repeat constructor|].
  split; [by vm_compute|]. split; [by vm_compute|reflexivity].
Defined.

Lemma get_ipv6_ips_win32_first_address_only_witness :
  get_ipv6_ips win32_bare_host = inl IndexError ∧
  @browse_remoted uncompressed_ntop fitting_names win32_bare_host one_second silence
    = ({| bonjour_queries := []; log := [] |}, inl IndexError) ∧
  length ["::1%0"] ≤ length (get_adapters win32_loopback_host).
Proof.
  destruct (@get_ipv6_ips_win32_first_address_only uncompressed_ntop fitting_names win32_bare_host eq_refl)
    as (_ & Hiff & Hbrowse & _).
  destruct (@get_ipv6_ips_win32_first_address_only uncompressed_ntop fitting_names win32_loopback_host
              eq_refl) as (_ & _ & _ & Hentries).
  assert ({| ifaddr.nice_name := "Bluetooth Network Connection"; ifaddr.ips := [] |}
            ∈ get_adapters win32_bare_host) as Hin by (by repeat constructor).
  split; [apply Hiff; by eexists|]. split.
  - by apply (Hbrowse _ REMOTED_SERVICE_NAME one_second silence Hin).
  - by apply (Hentries ["::1%0"]).
Defined.

Lemma browse_ipv4_binds_ipv4_addresses_witness :
  ∃ k q,
    bonjour_queries
      (@browse_ipv4 uncompressed_ntop fitting_names linux_host MOBDEV2_SERVICE_NAME one_second silence).1
      !! k = Some q ∧
    self_ip (listener q) = "192.168.1.4".
Proof.
  destruct (@browse_ipv4_binds_ipv4_addresses uncompressed_ntop fitting_names linux_host
              MOBDEV2_SERVICE_NAME one_second silence _ _ (run_pair _)) as [_ Hall].
  apply (Hall {| ifaddr.nice_name := "en0";
                 ifaddr.ips := [{| ifaddr.ip := ifaddr.ip_str "192.168.1.4" |};
                                {| ifaddr.ip := ifaddr.ip_tuple "fe80::7" 0 2 |}] |}).
  - by repeat constructor.
  - by repeat constructor.
  - by vm_compute.
Defined.

Lemma browse_ipv6_keeps_both_families_witness :
  ∃ q, bonjour_queries ipv6_scan_run.1 !! 0 = Some q ∧
    contains "%" (self_ip (listener q)) = true ∧
    self_addresses (listener q) = ["192.168.1.7"; "fe80:0:0:0:0:0:0:5%en0"].
Proof.
  assert (is_Some (bonjour_queries ipv6_scan_run.1 !! 0)) as [q Hq]
    by (vm_compute; by eexists).
  destruct (@browse_ipv6_keeps_both_families uncompressed_ntop fitting_names linux_host _ _ _ _ _ 0 q
              (run_pair ipv6_scan_run) Hq) as [Hc Hall].
  destruct (Hall (sample_info x07)) as (zone & Hz & Ha & _);
    [by apply (bool_decide_unpack _); vm_compute|].
  exists q. split; [exact Hq|]. split; [exact Hc|].
  vm_compute in Hq. injection Hq as <-.
  vm_compute in Hz. injection Hz as <-. exact Ha.
Defined.

Lemma record_without_usable_address_is_dropped_witness :
  ∃ q, bonjour_queries v6_only_run.1 !! 0 = Some q ∧
    self_querying_task (listener q) = Returned ∧
    self_port (listener q) = Some 58783%Z ∧
    self_addresses (listener q) = [] ∧
    v6_only_run.2 = inr [].
Proof.
  assert (is_Some (bonjour_queries v6_only_run.1 !! 0)) as [q Hq]
    by (vm_compute; by eexists).
  destruct (@record_without_usable_address_is_dropped uncompressed_ntop fitting_names _ _ _ _ _ _ 0 q
              v6_only_info (run_pair v6_only_run) Hq)
    as (Ht & _ & Hport & Ha & _ & _).
  { by apply (bool_decide_unpack _); vm_compute. }
  { reflexivity. }
  { left. vm_compute in Hq. injection Hq as <-. reflexivity. }
  exists q. split; [exact Hq|]. split; [exact Ht|]. split; [exact Hport|].
  split; [exact Ha|]. by vm_compute.
Defined.

Lemma resolved_answer_is_verbatim_witness :
  ∃ q service_info ipv6,
    bonjour_queries twin_run.1 !! 0 = Some q ∧
    Populated service_info ∈ view 0 (log twin_run.1) ∧
    {| properties := info_properties service_info;
       ips := (inet_ntop_AF_INET <$> ip_addresses_V4Only service_info) ++ ipv6;
       port := info_port service_info |} ∈ [sample_answer "7"].
Proof.
  assert (twin_run = (twin_run.1, inr [sample_answer "7"])) as Hrun by (by vm_compute).
  assert (is_Some (bonjour_queries twin_run.1 !! 0)) as [q Hq] by (vm_compute; by eexists).
  destruct (@resolved_answer_is_verbatim uncompressed_ntop fitting_names _ _ _ _ _ _ 0 q Hrun Hq)
    as (service_info & ipv6 & Hpop & Hin & _).
  { vm_compute in Hq. injection Hq as <-. by vm_compute. }
  by exists q, service_info, ipv6.
Defined.

Lemma answers_come_from_resolved_sessions_witness :
  length [sample_answer "7"] ≤ length ["192.168.1.4"; "10.0.0.4"] ∧
  ∃ k q, bonjour_queries twin_run.1 !! k = Some q ∧
    sample_answer "7" = answer_of (listener q) ∧
    self_querying_task (listener q) = Returned.
Proof.
  assert (twin_run = (twin_run.1, inr [sample_answer "7"])) as Hrun by (by vm_compute).
  destruct (@answers_come_from_resolved_sessions uncompressed_ntop fitting_names _ _ _ _ _ _ Hrun)
    as [Hlen Hall].
  split; [exact Hlen|].
  destruct (Hall (sample_answer "7")) as (_ & k & q & _ & _ & Hq & Ha & Ht & _);
    [by repeat constructor|].
  by exists k, q.
Defined.

Lemma task_fails_only_when_library_raises_witness :
  misnamed_run.2 = inl (LibraryError "BadTypeInNameException") ∧
  view 0 (log misnamed_run.1) =
    [Created MOBDEV2_SERVICE_NAME "192.168.1.4"; Notified (misnamed_note "192.168.1.4");
     Dequeued (misnamed_note "192.168.1.4");
     TaskRaised (LibraryError "BadTypeInNameException");
     TaskCancel; Propagated (LibraryError "BadTypeInNameException")] ∧
  ∃ q, bonjour_queries misnamed_run.1 !! 0 = Some q ∧
    (∃ n, Callback 0 n ∈ scheduled
            {| during_sleep := [Callback 0 (misnamed_note "192.168.1.4"); Wakeup 0]
                               ++ resolves 1 "10.0.0.4" (sample_info x07);
               teardown := λ _, quiet |} 2 ∧
       (task_trace (view 0 (log misnamed_run.1)) =
          [Dequeued n; TaskRaised (LibraryError "BadTypeInNameException")] ∧
        fitting_names (n_service_type n) (n_name n) =
          Some (LibraryError "BadTypeInNameException")
        ∨
        task_trace (view 0 (log misnamed_run.1)) =
          [Dequeued n; request_of n; TaskRaised (LibraryError "BadTypeInNameException")] ∧
        fitting_names (n_service_type n) (n_name n) = None ∧
        RequestRaises 0 (LibraryError "BadTypeInNameException") ∈ scheduled
            {| during_sleep := [Callback 0 (misnamed_note "192.168.1.4"); Wakeup 0]
                               ++ resolves 1 "10.0.0.4" (sample_info x07);
               teardown := λ _, quiet |} 2)) ∧
    self_addresses (listener q) = [] ∧
    self_querying_task (listener q) = Raised (LibraryError "BadTypeInNameException") ∧
    raises (close (listener q)) = Some (LibraryError "BadTypeInNameException").
Proof.
  assert (is_Some (bonjour_queries misnamed_run.1 !! 0)) as [q Hq]
    by (vm_compute; by eexists).
  destruct (@task_fails_only_when_library_raises uncompressed_ntop fitting_names
              _ _ _ _ _ _ 0 q (LibraryError "BadTypeInNameException")
              (run_pair misnamed_run) Hq) as (Hcause & Ha & Ht & Hr);
    [by apply (bool_decide_unpack _); vm_compute|].
  split; [by vm_compute|]. split; [by vm_compute|].
  exists q. split; [exact Hq|]. split; [exact Hcause|]. by repeat split.
Defined.


Lemma browse_returns_only_without_failure_witness :
  (∀ k, k < 2 →
     async_cancel_result quiet = None ∧ async_close_result quiet = None) ∧
  ∃ q, bonjour_queries twin_run.1 !! 0 = Some q ∧
    (self_querying_task (listener q) = Returned ∨
     self_querying_task (listener q) = Cancelled).
Proof.
  assert (twin_run = (twin_run.1, inr [sample_answer "7"])) as Hrun by (by vm_compute).
  assert (is_Some (bonjour_queries twin_run.1 !! 0)) as [q Hq] by (vm_compute; by eexists).
  destruct (@browse_returns_only_without_failure uncompressed_ntop fitting_names _ _ _ _ _ _ Hrun)
    as (Hcalls & Htask & _).
  split; [exact Hcalls|]. exists q. split; [exact Hq|]. exact (Htask 0 q Hq).
Defined.

Lemma every_session_is_closed_once_witness :
  (∃ q, bonjour_queries twin_run.1 !! 1 = Some q ∧
     loop_view 1 (log twin_run.1) =
       collect_actions (candidates (take 1 (bonjour_queries twin_run.1))) q
       ++ [TaskCancel; TaskJoined; BrowserCancelled; ClientClosed]) ∧
  loop_view 0 (log twin_run.1) =
    [Constructed (sample_answer "7"); Appended (sample_answer "7");
     TaskCancel; TaskJoined; BrowserCancelled; ClientClosed] ∧
  loop_view 1 (log twin_run.1) =
    [Constructed (sample_answer "7"); TaskCancel; TaskJoined; BrowserCancelled; ClientClosed].
Proof.
  assert (twin_run = (twin_run.1, inr [sample_answer "7"])) as Hrun by (by vm_compute).
  assert (is_Some (bonjour_queries twin_run.1 !! 1)) as [q Hq] by (vm_compute; by eexists).
  destruct (@every_session_is_closed_once uncompressed_ntop fitting_names _ _ _ _ _ _ 1 q Hrun Hq)
    as (Hsteps & _).
  split; [by exists q|]. split; by vm_compute.
Defined.


Lemma zone_stops_at_second_percent_witness :
  ∃ self',
    @query_addresses_store uncompressed_ntop (sample_listener "fe80::7%en0%x")
      (sample_info x07) = inr self' ∧
    self_addresses self' = ["192.168.1.7"; "fe80:0:0:0:0:0:0:5%en0"].
Proof.
  destruct (@zone_stops_at_second_percent uncompressed_ntop
              (sample_listener "fe80::7%en0%x") (sample_info x07) "fe80::7" "en0" "x"
              eq_refl eq_refl eq_refl) as (self' & Hs & Ha).
  exists self'. split; [exact Hs|exact Ha].
Defined.

Lemma sessions_are_handled_one_at_a_time_witness :
  log twin_run.1 !! 18 = Some (Ev 1 TaskCancel) ∧
  Ev 0 ClientClosed ∈ take 18 (log twin_run.1).
Proof.
  split; [by vm_compute|].
  apply (@sessions_are_handled_one_at_a_time uncompressed_ntop fitting_names _ _ _ _ _ _
           (run_pair twin_run) (take 18 (log twin_run.1)) 1 TaskCancel
           (drop 19 (log twin_run.1)) ltac:(by vm_compute) eq_refl 0).
  lia.
Defined.
